(** * AsyncCryptoStore: a crypto store over a flat asynchronous key-value backend

    Shallow embedding of [src/AsyncCryptoStore.ts] (the key scheme, the
    [Transaction] completion aggregator and the store operations) and of
    [spec/MockAsyncStore.ts], followed by the properties proved about them.

    Conventions of the embedding.
    - A JavaScript string is represented by the bytes of its UTF-8 encoding
      (a Rocq [string]).  These are exactly the strings on which
      [encodeURIComponent] does not throw (no lone surrogate); the
      representation invariant is [well_formed_utf8].
    - An [async] method is a computation in the monad [Op]: it threads the
      state it works on, records the observable calls it makes (caller
      supplied callbacks, [console.error]) and ends with a value or with a
      thrown value.  One operation is run without interleaving with another
      one; interleavings of the operations of one transaction are treated
      separately, by the event semantics of [Transaction]. *)

From Stdlib Require Import String Ascii List NArith ZArith Bool Arith Lia.
From Stdlib Require Import DecimalString Permutation.
Import ListNotations.
Local Open Scope string_scope.

(** ** JavaScript strings *)

Module JS.

(** [s.startsWith(p)] *)
Definition startsWith (s p : string) : bool := String.prefix p s.

(** [s.split(sep)] for a separator of one character. *)
Fixpoint split (sep : ascii) (s : string) : list string :=
  match s with
  | EmptyString => [EmptyString]
  | String c r =>
      if Ascii.eqb c sep then EmptyString :: split sep r
      else match split sep r with
           | h :: t => String c h :: t
           | [] => [String c EmptyString]
           end
  end.

(** [parts[i]] passed to a function that expects a string: an index out of
    range reads [undefined], which [ToString] turns into ["undefined"]. *)
Definition part (parts : list string) (i : nat) : string :=
  nth i parts "undefined".

(** [s.slice(n)] *)
Fixpoint slice (n : nat) (s : string) : string :=
  match n, s with
  | O, _ => s
  | S n', String _ r => slice n' r
  | S _, EmptyString => EmptyString
  end.

Definition code (c : ascii) : N := N_of_ascii c.

Definition between (lo hi : N) (c : ascii) : bool :=
  (lo <=? code c)%N && (code c <=? hi)%N.

(** *** Percent-encoding *)

(** uriUnescaped: letters, digits and the marks [- _ . ! ~ * ' ( )]. *)
Definition uriMark (c : ascii) : bool :=
  existsb (Ascii.eqb c)
    ["-"; "_"; "."; "!"; "~"; "*"; "'"; "("; ")"]%char.

Definition uriUnescaped (c : ascii) : bool :=
  between 48 57 c || between 65 90 c || between 97 122 c || uriMark c.

Definition hexDigit (n : N) : ascii :=
  if (n <? 10)%N then ascii_of_N (48 + n) else ascii_of_N (55 + n).

Definition hexHigh (c : ascii) : ascii := hexDigit (code c / 16).
Definition hexLow (c : ascii) : ascii := hexDigit (code c mod 16).

Definition hexValue (c : ascii) : option N :=
  if between 48 57 c then Some (code c - 48)%N
  else if between 65 70 c then Some (code c - 55)%N
  else if between 97 102 c then Some (code c - 87)%N
  else None.

(** [encodeURIComponent(s)]: every byte of the UTF-8 encoding that is not in
    uriUnescaped becomes [%XX] with upper-case hexadecimal digits. *)
Fixpoint encodeURIComponent (s : string) : string :=
  match s with
  | EmptyString => EmptyString
  | String c r =>
      if uriUnescaped c then String c (encodeURIComponent r)
      else String "%" (String (hexHigh c) (String (hexLow c) (encodeURIComponent r)))
  end.

(** *** Percent-decoding

    [decodeURIComponent] fails with a URIError in two cases: a [%] that is
    not followed by two hexadecimal digits, and escaped octets that are not
    the UTF-8 encoding of a code point.  The first pass reads the escapes,
    the second checks the escaped octets. *)

Inductive token : Type :=
| Lit (c : ascii)    (* a character copied as it is *)
| Esc (b : ascii).   (* an octet written [%XX] *)

Fixpoint unescape (s : string) : option (list token) :=
  match s with
  | EmptyString => Some []
  | String c r =>
      if Ascii.eqb c "%" then
        match r with
        | String h (String l r') =>
            match hexValue h, hexValue l with
            | Some a, Some b =>
                option_map (cons (Esc (ascii_of_N (16 * a + b)))) (unescape r')
            | _, _ => None
            end
        | _ => None
        end
      else option_map (cons (Lit c)) (unescape r)
  end.

(** Number of octets announced by a leading octet (its number of leading one
    bits, 1 for an octet below 0x80); 0 when the octet cannot lead. *)
Definition sequenceLength (b : ascii) : nat :=
  if (code b <? 128)%N then 1
  else if (code b <? 192)%N then 0
  else if (code b <? 224)%N then 2
  else if (code b <? 240)%N then 3
  else if (code b <? 248)%N then 4
  else 0.

Definition continuation (b : ascii) : bool := between 128 191 b.

(** Well-formed UTF-8 sequences of 2, 3 and 4 octets (no overlong form, no
    surrogate, nothing above U+10FFFF). *)
Definition valid2 (b1 b2 : ascii) : bool :=
  between 194 223 b1 && continuation b2.

Definition valid3 (b1 b2 b3 : ascii) : bool :=
  ((Ascii.eqb b1 (ascii_of_N 224) && between 160 191 b2)
   || (between 225 236 b1 && continuation b2)
   || (Ascii.eqb b1 (ascii_of_N 237) && between 128 159 b2)
   || (between 238 239 b1 && continuation b2))
  && continuation b3.

Definition valid4 (b1 b2 b3 b4 : ascii) : bool :=
  ((Ascii.eqb b1 (ascii_of_N 240) && between 144 191 b2)
   || (between 241 243 b1 && continuation b2)
   || (Ascii.eqb b1 (ascii_of_N 244) && between 128 143 b2))
  && continuation b3 && continuation b4.

Fixpoint octets (ts : list token) : option string :=
  match ts with
  | [] => Some EmptyString
  | Lit c :: r => option_map (String c) (octets r)
  | Esc b1 :: r =>
      match sequenceLength b1 with
      | 1 => option_map (String b1) (octets r)
      | 2 =>
          match r with
          | Esc b2 :: r2 =>
              if valid2 b1 b2
              then option_map (fun s => String b1 (String b2 s)) (octets r2)
              else None
          | _ => None
          end
      | 3 =>
          match r with
          | Esc b2 :: Esc b3 :: r3 =>
              if valid3 b1 b2 b3
              then option_map (fun s => String b1 (String b2 (String b3 s)))
                     (octets r3)
              else None
          | _ => None
          end
      | 4 =>
          match r with
          | Esc b2 :: Esc b3 :: Esc b4 :: r4 =>
              if valid4 b1 b2 b3 b4
              then option_map
                     (fun s => String b1 (String b2 (String b3 (String b4 s))))
                     (octets r4)
              else None
          | _ => None
          end
      | _ => None
      end
  end.

(** [decodeURIComponent(s)]; [None] is a thrown URIError. *)
Definition decodeURIComponent (s : string) : option string :=
  match unescape s with
  | Some ts => octets ts
  | None => None
  end.

(** The representation invariant of a JavaScript string: its bytes are
    well-formed UTF-8. *)
Fixpoint well_formed_utf8 (s : string) : bool :=
  match s with
  | EmptyString => true
  | String b1 r =>
      match sequenceLength b1 with
      | 1 => well_formed_utf8 r
      | 2 =>
          match r with
          | String b2 r2 => valid2 b1 b2 && well_formed_utf8 r2
          | _ => false
          end
      | 3 =>
          match r with
          | String b2 (String b3 r3) => valid3 b1 b2 b3 && well_formed_utf8 r3
          | _ => false
          end
      | 4 =>
          match r with
          | String b2 (String b3 (String b4 r4)) =>
              valid4 b1 b2 b3 b4 && well_formed_utf8 r4
          | _ => false
          end
      | _ => false
      end
  end.

End JS.

(** ** JavaScript values *)

(** The values that [JSON.parse] produces and [JSON.stringify] consumes.
    Numbers are the integer-valued ones.  An object lists its properties in
    creation order. *)
#[warnings="-register-all"] Inductive JSON : Type :=
| JNull
| JBool (b : bool)
| JNum (n : Z)
| JStr (s : string)
| JArr (l : list JSON)
| JObj (m : list (string * JSON)).

(** ToBoolean *)
Definition truthy (v : JSON) : bool :=
  match v with
  | JNull => false
  | JBool b => b
  | JNum n => negb (n =? 0)%Z
  | JStr s => negb (String.eqb s "")
  | JArr _ | JObj _ => true
  end.

(** [v || d] *)
Definition orElse (v d : JSON) : JSON := if truthy v then v else d.

(** Values that can be thrown: the built-in errors raised by the primitives
    used here, an [Error] created with [new Error(message)], or any other
    value. *)
Inductive thrown : Type :=
| SyntaxError
| URIError
| Error (message : string)
| Value (v : JSON).

Definition truthyThrown (e : thrown) : bool :=
  match e with
  | Value v => truthy v
  | _ => true
  end.

Module Obj.

(** [m[k] = v] on an ordinary object [m] used as a map.  The name
    [__proto__] is the accessor of [Object.prototype]: assigning to it
    creates no own property. *)
Fixpoint put (k : string) (v : JSON) (m : list (string * JSON)) : list (string * JSON) :=
  match m with
  | [] => [(k, v)]
  | (k', v') :: r => if String.eqb k' k then (k', v) :: r else (k', v') :: put k v r
  end.

Definition set (k : string) (v : JSON) (m : list (string * JSON)) : list (string * JSON) :=
  if String.eqb k "__proto__" then m else put k v m.

Fixpoint digits (s : string) (acc : N) : option N :=
  match s with
  | EmptyString => Some acc
  | String c r =>
      if JS.between 48 57 c then digits r (10 * acc + (JS.code c - 48))%N else None
  end.

(** A property name is an array index when it is the canonical decimal form
    of an integer below 2^32 - 1. *)
Definition arrayIndex (s : string) : option N :=
  match s with
  | EmptyString => None
  | String c r =>
      if Ascii.eqb c "0" then
        match r with EmptyString => Some 0%N | _ => None end
      else
        match digits s 0 with
        | Some n => if (n <? 4294967295)%N then Some n else None
        | None => None
        end
  end.

Fixpoint insertIndex (n : N) (k : string) (l : list (N * string)) : list (N * string) :=
  match l with
  | [] => [(n, k)]
  | (n', k') :: r =>
      if (n <=? n')%N then (n, k) :: l else (n', k') :: insertIndex n k r
  end.

Fixpoint indexKeys (ks : list string) : list (N * string) :=
  match ks with
  | [] => []
  | k :: r =>
      match arrayIndex k with
      | Some n => insertIndex n k (indexKeys r)
      | None => indexKeys r
      end
  end.

Definition nameKeys (ks : list string) : list string :=
  filter (fun k => match arrayIndex k with Some _ => false | None => true end) ks.

(** Own property names in the order of OrdinaryOwnPropertyKeys: array
    indices in ascending order, then the other names in creation order. *)
Definition ownKeys (m : list (string * JSON)) : list string :=
  (map snd (indexKeys (map fst m)) ++ nameKeys (map fst m))%list.

Definition indexName (n : nat) : string :=
  DecimalString.NilEmpty.string_of_uint (Nat.to_uint n).

(** Number of UTF-16 code units of a string given by its UTF-8 bytes. *)
Fixpoint utf16Length (s : string) : nat :=
  match s with
  | EmptyString => 0
  | String b r =>
      (if JS.continuation b then 0 else if (JS.code b <? 240)%N then 1 else 2)
      + utf16Length r
  end.

(** [Object.keys(v)] for a value other than [null] *)
Definition keys (v : JSON) : list string :=
  match v with
  | JObj m => ownKeys m
  | JArr l => map indexName (seq 0 (List.length l))
  | JStr s => map indexName (seq 0 (utf16Length s))
  | _ => []
  end.

End Obj.

(** A Promise object that is used as a value without being awaited.  It has
    no own string-keyed property; [in] also looks along the prototype chain
    ([Promise.prototype], then [Object.prototype]). *)
Inductive PromiseObject : Type := APromise.

Definition promisePrototypeNames : list string :=
  ["constructor"; "then"; "catch"; "finally"].

Definition objectPrototypeNames : list string :=
  ["constructor"; "__defineGetter__"; "__defineSetter__"; "hasOwnProperty";
   "__lookupGetter__"; "__lookupSetter__"; "isPrototypeOf";
   "propertyIsEnumerable"; "toString"; "valueOf"; "__proto__";
   "toLocaleString"].

(** [k in p] *)
Definition inPromise (k : string) (p : PromiseObject) : bool :=
  existsb (String.eqb k) (promisePrototypeNames ++ objectPrototypeNames)%list.

(** [JSON.stringify] and [JSON.parse] are primitives of the host; [None] is a
    thrown SyntaxError. *)
Class JSONCodec : Type := {
  JSON_stringify : JSON -> string;
  JSON_parse : string -> option JSON
}.

(** ** Asynchronous operations *)

(** What an operation lets the outside see while it runs: a call of the
    callback it was given, or a line written with [console.error]. *)
Inductive observation (C : Type) : Type :=
| Call (c : C)
| ConsoleError (message : string).
Arguments Call {C} c.
Arguments ConsoleError {C} message.

Record result (St C A : Type) : Type := mkResult {
  state : St;
  trace : list (observation C);
  outcome : thrown + A
}.
Arguments mkResult {St C A}.
Arguments state {St C A}.
Arguments trace {St C A}.
Arguments outcome {St C A}.

Definition Op (St C A : Type) : Type := St -> result St C A.

Definition ret {St C A} (a : A) : Op St C A :=
  fun s => mkResult s [] (inr a).

Definition throw {St C A} (e : thrown) : Op St C A :=
  fun s => mkResult s [] (inl e).

Definition bind {St C A B} (m : Op St C A) (k : A -> Op St C B) : Op St C B :=
  fun s =>
    let r := m s in
    match outcome r with
    | inl e => mkResult (state r) (trace r) (inl e)
    | inr a =>
        let r' := k a (state r) in
        mkResult (state r') (trace r ++ trace r')%list (outcome r')
    end.

Notation "x <- m ;; k" := (bind m (fun x => k))
  (at level 61, m at next level, right associativity).
Notation "m ;;; k" := (bind m (fun _ => k))
  (at level 61, right associativity).

(** [func(c)] for the callback [func] passed by the caller *)
Definition call {St C} (c : C) : Op St C unit :=
  fun s => mkResult s [Call c] (inr tt).

Definition consoleError {St C} (message : string) : Op St C unit :=
  fun s => mkResult s [ConsoleError message] (inr tt).

Definition gets {St C A} (f : St -> A) : Op St C A :=
  fun s => mkResult s [] (inr (f s)).

Definition modify {St C} (f : St -> St) : Op St C unit :=
  fun s => mkResult (f s) [] (inr tt).

(** An [async] call whose promise is not awaited: the caller goes on with the
    Promise object, and a rejection is not seen by the caller. *)
Definition unawaited {St C A} (m : Op St C A) : Op St C PromiseObject :=
  fun s => let r := m s in mkResult (state r) (trace r) (inr APromise).

(** The calls of the callback in a trace, in order. *)
Fixpoint calls {C} (t : list (observation C)) : list C :=
  match t with
  | [] => []
  | Call c :: r => c :: calls r
  | ConsoleError _ :: r => calls r
  end.

(** The lines written with [console.error] in a trace, in order. *)
Fixpoint logged {C} (t : list (observation C)) : list string :=
  match t with
  | [] => []
  | Call _ :: r => logged r
  | ConsoleError m :: r => m :: logged r
  end.

(** ** The backend *)

(** The interface [AsyncStore] that the store is built on.  The four methods
    are asynchronous in the source; a call is taken to succeed. *)
Class AsyncStore (S : Type) : Type := {
  getAllKeys : S -> list string;
  getItem : S -> string -> option string;
  setItem : S -> string -> string -> S;
  removeItem : S -> string -> S
}.

(** What the store relies on: reads see the last write, a removed key is
    absent, and the key listing is the set of present keys. *)
Class LawfulAsyncStore (S : Type) `{AsyncStore S} : Prop := {
  getItem_setItem : forall s k v k',
    getItem (setItem s k v) k' = if String.eqb k k' then Some v else getItem s k';
  getItem_removeItem : forall s k k',
    getItem (removeItem s k) k' = if String.eqb k k' then None else getItem s k';
  getAllKeys_getItem : forall s k,
    In k (getAllKeys s) <-> getItem s k <> None
}.

(** [spec/MockAsyncStore.ts]: a [Map<string, string>], which keeps its
    entries in insertion order. *)
Module MockAsyncStore.

Definition t : Type := list (string * string).

Definition clear : t := [].

Definition keys (data : t) : list string := map fst data.

Fixpoint get (data : t) (key : string) : option string :=
  match data with
  | [] => None
  | (k, v) :: r => if String.eqb k key then Some v else get r key
  end.

Fixpoint set (data : t) (key value : string) : t :=
  match data with
  | [] => [(key, value)]
  | (k, v) :: r =>
      if String.eqb k key then (k, value) :: r else (k, v) :: set r key value
  end.

Definition delete (data : t) (key : string) : t :=
  filter (fun p => negb (String.eqb (fst p) key)) data.

End MockAsyncStore.

#[export] Instance MockAsyncStore_AsyncStore : AsyncStore MockAsyncStore.t := {
  getAllKeys := MockAsyncStore.keys;
  getItem := MockAsyncStore.get;
  setItem := MockAsyncStore.set;
  removeItem := MockAsyncStore.delete
}.

(** ** Storage keys *)

Definition E2E_PREFIX : string := "crypto.".

Definition END_TO_END_SESSION_PREFIX : string := E2E_PREFIX ++ "sessions/".
Definition INBOUND_SESSION_PREFIX : string := E2E_PREFIX ++ "inboundgroupsessions/".
Definition INBOUND_SESSION_WITHHELD_PREFIX : string :=
  E2E_PREFIX ++ "inboundgroupsessions.withheld/".

Definition prefixEndToEndSession (deviceKey : string) : string :=
  END_TO_END_SESSION_PREFIX ++ JS.encodeURIComponent deviceKey ++ "/".

Definition KEY_SESSIONS_NEEDING_BACKUP : string := E2E_PREFIX ++ "sessionsneedingbackup".

Definition keyEndToEndSession (deviceKey sessionKey : string) : string :=
  prefixEndToEndSession deviceKey ++ JS.encodeURIComponent sessionKey.

Definition keyEndToEndInboundGroupSession (senderKey sessionId : string) : string :=
  INBOUND_SESSION_PREFIX ++ JS.encodeURIComponent senderKey ++ "/"
    ++ JS.encodeURIComponent sessionId.

Definition keyEndToEndInboundGroupSessionWithheld (senderKey sessionId : string) : string :=
  INBOUND_SESSION_WITHHELD_PREFIX ++ JS.encodeURIComponent senderKey ++ "/"
    ++ JS.encodeURIComponent sessionId.

(** The name of a session in the map of sessions needing backup (written in
    line in [markSessionsNeedingBackup] and [unmarkSessionsNeedingBackup]). *)
Definition backupName (senderKey sessionId : string) : string :=
  JS.encodeURIComponent senderKey ++ "/" ++ JS.encodeURIComponent sessionId.

(** ** Transaction *)

Inductive PromiseState : Type :=
| Pending
| Fulfilled
| Rejected (reason : thrown).

(** The fields [resolve] and [reject] hold the two functions of the promise
    or [null]; [true] stands for the function. *)
Record Transaction : Type := mkTransaction {
  numOps : Z;
  error : option thrown;
  resolve : bool;
  reject : bool;
  promise : PromiseState
}.

(** [new Transaction()]: the executor of the promise runs at once and stores
    both functions. *)
Definition newTransaction : Transaction :=
  mkTransaction 0 None true true Pending.

(** Calling a function of a promise settles it if it is still pending. *)
Definition settle (p s : PromiseState) : PromiseState :=
  match p with
  | Pending => s
  | _ => p
  end.

Definition onOperationStarted (t : Transaction) : thrown + Transaction :=
  if negb (resolve t) then
    inl (Error "Tried to start a new operation on a completed transaction")
  else
    inr (mkTransaction (numOps t + 1) (error t) (resolve t) (reject t) (promise t)).

Definition onOperationEnded (t : Transaction) : Transaction :=
  let n := (numOps t - 1)%Z in
  if (n =? 0)%Z then
    let p :=
      match error t with
      | Some e =>
          if truthyThrown e
          then (if reject t then settle (promise t) (Rejected e) else promise t)
          else (if resolve t then settle (promise t) Fulfilled else promise t)
      | None => if resolve t then settle (promise t) Fulfilled else promise t
      end in
    mkTransaction n (error t) false false p
  else
    mkTransaction n (error t) (resolve t) (reject t) (promise t).

(** The [catch] clause of [execute]: [this.error = e].  Throwing [null]
    stores [null], the initial value. *)
Definition recorded (e : thrown) : option thrown :=
  match e with
  | Value JNull => None
  | _ => Some e
  end.

Definition recordError (e : thrown) (t : Transaction) : Transaction :=
  mkTransaction (numOps t) (recorded e) (resolve t) (reject t) (promise t).

(** [execute(func)], with [func] run without interleaving.  The state is the
    transaction together with what [func] works on.  [execute] is [async]:
    what [onOperationStarted] throws is the rejection of its promise. *)
Definition execute {St C} (func : Op (Transaction * St) C unit)
  : Op (Transaction * St) C unit :=
  fun ts =>
    match onOperationStarted (fst ts) with
    | inl e => mkResult ts [] (inl e)
    | inr t1 =>
        let r := func (t1, snd ts) in
        let t2 :=
          match outcome r with
          | inl e => recordError e (fst (state r))
          | inr _ => fst (state r)
          end in
        mkResult (onOperationEnded t2, snd (state r)) (trace r) (inr tt)
    end.

(** *** The transaction seen by operations that overlap

    Between the start and the end of one operation, others may start and
    end.  The transaction only sees three kinds of events: the synchronous
    start of [execute], and the end of an operation, reached from the [try]
    block or through the [catch] clause. *)
Inductive event : Type :=
| Started
| Succeeded
| Failed (e : thrown).

Definition step (t : Transaction) (ev : event) : thrown + Transaction :=
  match ev with
  | Started => onOperationStarted t
  | Succeeded => inr (onOperationEnded t)
  | Failed e => inr (onOperationEnded (recordError e t))
  end.

Fixpoint run (t : Transaction) (evs : list event) : thrown + Transaction :=
  match evs with
  | [] => inr t
  | ev :: r =>
      match step t ev with
      | inl e => inl e
      | inr t' => run t' r
      end
  end.

(** A schedule is a sequence of events in which an operation ends only after
    it started: [inFlight] counts the operations started and not ended. *)
Fixpoint schedule (inFlight : nat) (evs : list event) : bool :=
  match evs with
  | [] => true
  | Started :: r => schedule (S inFlight) r
  | _ :: r =>
      match inFlight with
      | O => false
      | S n => schedule n r
      end
  end.

(** ** The store *)

Record ISession : Type := mkISession {
  senderKey : string;
  sessionId : string;
  sessionData : JSON
}.

Record SessionExtended : Type := mkSessionExtended {
  extSenderKey : string;
  extSessionId : string;
  extSessionData : JSON;
  needsBackup : bool
}.

(** The state of the promise that [doTxn] returns, once nothing is left to
    run. *)
Inductive Settlement (T : Type) : Type :=
| StillPending
| FulfilledWith (value : T)
| RejectedWith (reason : thrown).
Arguments StillPending {T}.
Arguments FulfilledWith {T} value.
Arguments RejectedWith {T} reason.

(** [for (const x of l) body(x)] *)
Fixpoint forEach {St C X} (l : list X) (body : X -> Op St C unit) : Op St C unit :=
  match l with
  | [] => ret tt
  | x :: r => body x ;;; forEach r body
  end.

(** [decodeURIComponent] as a step of an operation *)
Definition decode {St C} (s : string) : Op St C string :=
  match JS.decodeURIComponent s with
  | Some d => ret d
  | None => throw URIError
  end.

(** An operation on the storage, run where the state also holds the
    transaction. *)
Definition onStorage {S C A} (m : Op S C A) : Op (Transaction * S) C A :=
  fun ts =>
    let r := m (snd ts) in
    mkResult (fst ts, state r) (trace r) (outcome r).

(** [(txn as Transaction).execute(func);] as a statement: the promise of
    [execute] is dropped. *)
Definition submit {St C} (func : Op (Transaction * St) C unit)
  : Op (Transaction * St) C unit :=
  unawaited (execute func) ;;; ret tt.

Section AsyncCryptoStore.

Context {S : Type} `{AsyncStore S} `{JSONCodec}.

(** The batch size is a constant of matrix-js-sdk. *)
Variable SESSION_BATCH_SIZE : nat.

Definition _getJsonItem {C} (key : string) : Op S C JSON :=
  item <- gets (fun s => getItem s key) ;;
  match item with
  | None => ret JNull
  | Some text =>
      match JSON_parse text with
      | Some v => ret v
      | None => throw SyntaxError
      end
  end.

Definition _setJsonItem {C} (key : string) (val : JSON) : Op S C unit :=
  modify (fun s => setItem s key (JSON_stringify val)).

Definition deleteAllData {C} : Op S C unit :=
  keys <- gets (fun s => filter (fun k => JS.startsWith k E2E_PREFIX) (getAllKeys s)) ;;
  forEach keys (fun key => modify (fun s => removeItem s key)).

Definition getEndToEndSession (deviceKey sessionId : string)
  : Op (Transaction * S) JSON unit :=
  submit (onStorage (
    session <- _getJsonItem (keyEndToEndSession deviceKey sessionId) ;;
    call session)).

Fixpoint getEndToEndSessions_loop (deviceKey : string) (ks : list string)
    (sessions : list (string * JSON)) : Op S JSON (list (string * JSON)) :=
  match ks with
  | [] => ret sessions
  | k :: r =>
      sessionId <- decode (JS.part (JS.split "/" k) 2) ;;
      v <- _getJsonItem (keyEndToEndSession deviceKey sessionId) ;;
      getEndToEndSessions_loop deviceKey r (Obj.set sessionId v sessions)
  end.

Definition getEndToEndSessions (deviceKey : string) : Op (Transaction * S) JSON unit :=
  submit (onStorage (
    keys <- gets getAllKeys ;;
    let prefix := prefixEndToEndSession deviceKey in
    sessions <- getEndToEndSessions_loop deviceKey
                  (filter (fun k => JS.startsWith k prefix) keys) [] ;;
    call (JObj sessions))).

Definition getAllEndToEndSessions : Op (Transaction * S) JSON unit :=
  submit (onStorage (
    keys <- gets getAllKeys ;;
    forEach (filter (fun k => JS.startsWith k END_TO_END_SESSION_PREFIX) keys)
      (fun k =>
         deviceKey <- decode (JS.part (JS.split "/" k) 1) ;;
         sessionId <- decode (JS.part (JS.split "/" k) 2) ;;
         sessionInfo <- _getJsonItem (keyEndToEndSession deviceKey sessionId) ;;
         call sessionInfo))).

Definition storeEndToEndSession {C} (deviceKey sessionId : string) (sessionInfo : JSON)
  : Op (Transaction * S) C unit :=
  submit (onStorage (_setJsonItem (keyEndToEndSession deviceKey sessionId) sessionInfo)).

Fixpoint getEndToEndSessionsBatch_loop {C} (keys : list string) (result : list JSON)
  : Op S C (option (list JSON)) :=
  match keys with
  | [] => ret (if (List.length result =? 0)%nat then None else Some result)
  | k :: r =>
      session <- _getJsonItem k ;;
      if negb (truthy session) then
        consoleError ("Could not find session " ++ k) ;;;
        getEndToEndSessionsBatch_loop r result
      else
        let result := (result ++ [session])%list in
        if (SESSION_BATCH_SIZE <=? List.length result)%nat then ret (Some result)
        else getEndToEndSessionsBatch_loop r result
  end.

Definition getEndToEndSessionsBatch {C} : Op S C (option (list JSON)) :=
  keys <- gets (fun s =>
            filter (fun k => JS.startsWith k END_TO_END_SESSION_PREFIX) (getAllKeys s)) ;;
  getEndToEndSessionsBatch_loop keys [].

Definition getEndToEndInboundGroupSession (senderCurve25519Key sessionId : string)
  : Op (Transaction * S) (JSON * JSON) unit :=
  submit (onStorage (
    groupSession <- _getJsonItem
                      (keyEndToEndInboundGroupSession senderCurve25519Key sessionId) ;;
    groupSessionWithheld <- _getJsonItem
                      (keyEndToEndInboundGroupSessionWithheld senderCurve25519Key sessionId) ;;
    call (groupSession, groupSessionWithheld))).

Definition getAllEndToEndInboundGroupSessions : Op (Transaction * S) (option ISession) unit :=
  submit (onStorage (
    keys <- gets (fun s =>
              filter (fun k => JS.startsWith k INBOUND_SESSION_PREFIX) (getAllKeys s)) ;;
    forEach keys
      (fun k =>
         let keyParts := JS.split "/" k in
         senderKey <- decode (JS.part keyParts 1) ;;
         sessionId <- decode (JS.part keyParts 2) ;;
         sessionData <- _getJsonItem k ;;
         call (Some (mkISession senderKey sessionId sessionData))) ;;;
    call None)).

Definition storeEndToEndInboundGroupSession {C}
    (senderCurve25519Key sessionId : string) (sessionData : JSON)
  : Op (Transaction * S) C unit :=
  submit (onStorage (_setJsonItem
            (keyEndToEndInboundGroupSession senderCurve25519Key sessionId) sessionData)).

Definition addEndToEndInboundGroupSession {C}
    (senderCurve25519Key sessionId : string) (sessionData : JSON)
  : Op (Transaction * S) C unit :=
  submit (
    existing <- onStorage (_getJsonItem
                  (keyEndToEndInboundGroupSession senderCurve25519Key sessionId)) ;;
    if negb (truthy existing) then
      storeEndToEndInboundGroupSession senderCurve25519Key sessionId sessionData
    else ret tt).

Definition storeEndToEndInboundGroupSessionWithheld {C}
    (senderCurve25519Key sessionId : string) (sessionData : JSON)
  : Op (Transaction * S) C unit :=
  submit (onStorage (_setJsonItem
            (keyEndToEndInboundGroupSessionWithheld senderCurve25519Key sessionId)
            sessionData)).

Fixpoint getSessionsNeedingBackup_loop {C} (limit : nat) (ks : list string)
    (sessions : list ISession) : Op S C (list ISession) :=
  match ks with
  | [] => ret sessions
  | k :: r =>
      let keyParts := JS.split "/" k in
      senderKey <- decode (JS.part keyParts 0) ;;
      sessionId <- decode (JS.part keyParts 1) ;;
      sessionData <- _getJsonItem (keyEndToEndInboundGroupSession senderKey sessionId) ;;
      if negb (truthy sessionData) then
        consoleError ("Could not find session data for inbound group session with "
                      ++ sessionId) ;;;
        getSessionsNeedingBackup_loop limit r sessions
      else
        let sessions := (sessions ++ [mkISession senderKey sessionId sessionData])%list in
        if negb (limit =? 0)%nat && (limit <=? List.length sessions)%nat then ret sessions
        else getSessionsNeedingBackup_loop limit r sessions
  end.

(** [limit] is a count. *)
Definition getSessionsNeedingBackup {C} (limit : nat) : Op S C (list ISession) :=
  stored <- _getJsonItem KEY_SESSIONS_NEEDING_BACKUP ;;
  let sessionsNeedingBackup := orElse stored (JObj []) in
  getSessionsNeedingBackup_loop limit (Obj.keys sessionsNeedingBackup) [].

Definition countSessionsNeedingBackup {C} : Op S C nat :=
  stored <- _getJsonItem KEY_SESSIONS_NEEDING_BACKUP ;;
  let sessionsNeedingBackup := orElse stored (JObj []) in
  ret (List.length (Obj.keys sessionsNeedingBackup)).

Fixpoint getEndToEndInboundGroupSessionsBatch_loop {C} (keys : list string)
    (result : list SessionExtended) : Op S C (option (list SessionExtended)) :=
  match keys with
  | [] => ret (if (List.length result =? 0)%nat then None else Some result)
  | k :: r =>
      let keyParts := JS.split "/" k in
      senderKey <- decode (JS.part keyParts 1) ;;
      sessionId <- decode (JS.part keyParts 2) ;;
      sessionData <- _getJsonItem k ;;
      p <- unawaited (getSessionsNeedingBackup 0) ;;
      let result :=
        (result ++ [mkSessionExtended senderKey sessionId sessionData (inPromise k p)])%list in
      if (SESSION_BATCH_SIZE <=? List.length result)%nat then ret (Some result)
      else getEndToEndInboundGroupSessionsBatch_loop r result
  end.

Definition getEndToEndInboundGroupSessionsBatch {C}
  : Op S C (option (list SessionExtended)) :=
  keys <- gets (fun s =>
            filter (fun k => JS.startsWith k INBOUND_SESSION_PREFIX) (getAllKeys s)) ;;
  getEndToEndInboundGroupSessionsBatch_loop keys [].

(** [doTxn(mode, stores, func)]: what [func] throws is thrown by [doTxn];
    otherwise the promise returned follows the promise of the transaction. *)
Definition doTxn {C T} (func : Op (Transaction * S) C T) : Op S C (Settlement T) :=
  fun s =>
    let r := func (newTransaction, s) in
    mkResult (snd (state r)) (trace r)
      match outcome r with
      | inl e => inl e
      | inr result =>
          inr match promise (fst (state r)) with
              | Pending => StillPending
              | Fulfilled => FulfilledWith result
              | Rejected e => RejectedWith e
              end
      end.

End AsyncCryptoStore.

(** ** A JSON codec

    The text form of the values of [JSON], as [JSON.stringify] writes it and
    [JSON.parse] reads it, for the values the model has: integers for
    numbers, and in strings the escapes of the characters below U+0080. *)

Module JSONText.

Definition quote : ascii := ascii_of_N 34.
Definition backslash : ascii := ascii_of_N 92.

Definition hex4 (c : ascii) : string :=
  String "0" (String "0"
    (String (if (JS.code c / 16 <? 10)%N then ascii_of_N (48 + JS.code c / 16)
             else ascii_of_N (87 + JS.code c / 16))
       (String (if (JS.code c mod 16 <? 10)%N then ascii_of_N (48 + JS.code c mod 16)
                else ascii_of_N (87 + JS.code c mod 16)) ""))).

Fixpoint escape (s : string) : string :=
  match s with
  | EmptyString => EmptyString
  | String c r =>
      if Ascii.eqb c quote then String backslash (String quote (escape r))
      else if Ascii.eqb c backslash then String backslash (String backslash (escape r))
      else if (JS.code c =? 8)%N then String backslash (String "b" (escape r))
      else if (JS.code c =? 9)%N then String backslash (String "t" (escape r))
      else if (JS.code c =? 10)%N then String backslash (String "n" (escape r))
      else if (JS.code c =? 12)%N then String backslash (String "f" (escape r))
      else if (JS.code c =? 13)%N then String backslash (String "r" (escape r))
      else if (JS.code c <? 32)%N then String backslash (String "u" (hex4 c ++ escape r))
      else String c (escape r)
  end.

Definition quoted (s : string) : string :=
  String quote (escape s ++ String quote "").

Definition number (n : Z) : string :=
  DecimalString.NilZero.string_of_int (Z.to_int n).

Fixpoint stringify (v : JSON) : string :=
  match v with
  | JNull => "null"
  | JBool true => "true"
  | JBool false => "false"
  | JNum n => number n
  | JStr s => quoted s
  | JArr l =>
      "[" ++ (fix elements (l : list JSON) : string :=
                match l with
                | [] => ""
                | [x] => stringify x
                | x :: r => stringify x ++ "," ++ elements r
                end) l ++ "]"
  | JObj m =>
      "{" ++ (fix members (m : list (string * JSON)) : string :=
                match m with
                | [] => ""
                | [(k, x)] => quoted k ++ ":" ++ stringify x
                | (k, x) :: r => quoted k ++ ":" ++ stringify x ++ "," ++ members r
                end) m ++ "}"
  end.

Definition whitespace (c : ascii) : bool :=
  (JS.code c =? 32)%N || (JS.code c =? 9)%N || (JS.code c =? 10)%N || (JS.code c =? 13)%N.

Fixpoint skip (s : string) : string :=
  match s with
  | String c r => if whitespace c then skip r else s
  | EmptyString => s
  end.

(** The characters of a string literal after its opening quote, and what
    follows the closing quote. *)
Fixpoint stringBody (s : string) : option (string * string) :=
  match s with
  | EmptyString => None
  | String c r =>
      if Ascii.eqb c quote then Some (EmptyString, r)
      else if Ascii.eqb c backslash then
        match r with
        | String e r' =>
            let plain (x : ascii) :=
              match stringBody r' with
              | Some (body, rest) => Some (String x body, rest)
              | None => None
              end in
            if Ascii.eqb e quote then plain quote
            else if Ascii.eqb e backslash then plain backslash
            else if Ascii.eqb e "/" then plain "/"%char
            else if Ascii.eqb e "b" then plain (ascii_of_N 8)
            else if Ascii.eqb e "t" then plain (ascii_of_N 9)
            else if Ascii.eqb e "n" then plain (ascii_of_N 10)
            else if Ascii.eqb e "f" then plain (ascii_of_N 12)
            else if Ascii.eqb e "r" then plain (ascii_of_N 13)
            else if Ascii.eqb e "u" then
              match r' with
              | String h1 (String h2 (String h3 (String h4 r''))) =>
                  match JS.hexValue h1, JS.hexValue h2, JS.hexValue h3, JS.hexValue h4 with
                  | Some 0%N, Some 0%N, Some a, Some b =>
                      if (16 * a + b <? 128)%N then
                        match stringBody r'' with
                        | Some (body, rest) =>
                            Some (String (ascii_of_N (16 * a + b)) body, rest)
                        | None => None
                        end
                      else None
                  | _, _, _, _ => None
                  end
              | _ => None
              end
            else None
        | EmptyString => None
        end
      else if (JS.code c <? 32)%N then None
      else
        match stringBody r with
        | Some (body, rest) => Some (String c body, rest)
        | None => None
        end
  end.

Fixpoint digitsOf (s : string) : string * string :=
  match s with
  | String c r =>
      if JS.between 48 57 c then let (d, rest) := digitsOf r in (String c d, rest)
      else (EmptyString, s)
  | EmptyString => (EmptyString, s)
  end.

Definition natural (s : string) : option (N * string) :=
  let (d, rest) := digitsOf s in
  match d with
  | EmptyString => None
  | String c EmptyString => Some ((JS.code c - 48)%N, rest)
  | String c _ =>
      if Ascii.eqb c "0" then None
      else match Obj.digits d 0 with
           | Some n => Some (n, rest)
           | None => None
           end
  end.

Definition startsNumber (r : string) : bool :=
  match r with
  | String c _ => Ascii.eqb c "." || Ascii.eqb c "e" || Ascii.eqb c "E"
  | EmptyString => false
  end.

Definition numberLiteral (s : string) : option (JSON * string) :=
  match s with
  | String c r =>
      if Ascii.eqb c "-" then
        match natural r with
        | Some (n, rest) => if startsNumber rest then None else Some (JNum (- Z.of_N n), rest)
        | None => None
        end
      else
        match natural s with
        | Some (n, rest) => if startsNumber rest then None else Some (JNum (Z.of_N n), rest)
        | None => None
        end
  | EmptyString => None
  end.

Definition keyword (w : string) (v : JSON) (s : string) : option (JSON * string) :=
  if String.prefix w s then Some (v, JS.slice (String.length w) s) else None.

Fixpoint value (fuel : nat) (s : string) : option (JSON * string) :=
  match fuel with
  | O => None
  | S fuel' =>
      match skip s with
      | EmptyString => None
      | String c r =>
          if Ascii.eqb c "n" then keyword "null" JNull (String c r)
          else if Ascii.eqb c "t" then keyword "true" (JBool true) (String c r)
          else if Ascii.eqb c "f" then keyword "false" (JBool false) (String c r)
          else if Ascii.eqb c quote then
            match stringBody r with
            | Some (body, rest) => Some (JStr body, rest)
            | None => None
            end
          else if Ascii.eqb c "[" then
            match skip r with
            | String c' r' =>
                if Ascii.eqb c' "]" then Some (JArr [], r')
                else match elements fuel' r with
                     | Some (l, rest) => Some (JArr l, rest)
                     | None => None
                     end
            | EmptyString => None
            end
          else if Ascii.eqb c "{" then
            match skip r with
            | String c' r' =>
                if Ascii.eqb c' "}" then Some (JObj [], r')
                else match members fuel' r with
                     | Some (m, rest) => Some (JObj m, rest)
                     | None => None
                     end
            | EmptyString => None
            end
          else numberLiteral (String c r)
      end
  end
with elements (fuel : nat) (s : string) : option (list JSON * string) :=
  match fuel with
  | O => None
  | S fuel' =>
      match value fuel' s with
      | Some (v, rest) =>
          match skip rest with
          | String c r =>
              if Ascii.eqb c "]" then Some ([v], r)
              else if Ascii.eqb c "," then
                match elements fuel' r with
                | Some (l, rest') => Some (v :: l, rest')
                | None => None
                end
              else None
          | EmptyString => None
          end
      | None => None
      end
  end
with members (fuel : nat) (s : string) : option (list (string * JSON) * string) :=
  match fuel with
  | O => None
  | S fuel' =>
      match skip s with
      | String q r =>
          if Ascii.eqb q quote then
            match stringBody r with
            | Some (k, rest) =>
                match skip rest with
                | String colon r1 =>
                    if Ascii.eqb colon ":" then
                      match value fuel' r1 with
                      | Some (v, rest1) =>
                          match skip rest1 with
                          | String c r2 =>
                              if Ascii.eqb c "}" then Some ([(k, v)], r2)
                              else if Ascii.eqb c "," then
                                match members fuel' r2 with
                                | Some (m, rest') => Some ((k, v) :: m, rest')
                                | None => None
                                end
                              else None
                          | EmptyString => None
                          end
                      | None => None
                      end
                    else None
                | EmptyString => None
                end
            | None => None
            end
          else None
      | EmptyString => None
      end
  end.

Definition parse (s : string) : option JSON :=
  match value (S (String.length s)) s with
  | Some (v, rest) =>
      match skip rest with
      | EmptyString => Some v
      | _ => None
      end
  | None => None
  end.

End JSONText.

#[export] Instance JSONText_codec : JSONCodec := {
  JSON_stringify := JSONText.stringify;
  JSON_parse := JSONText.parse
}.

(** ** Vocabulary of the properties *)

(** The error of the first, and of the last, operation that failed. *)
Fixpoint firstFailure (evs : list event) : option thrown :=
  match evs with
  | [] => None
  | Failed e :: _ => Some e
  | _ :: r => firstFailure r
  end.

Fixpoint lastFailure (evs : list event) : option thrown :=
  match evs with
  | [] => None
  | Failed e :: r =>
      match lastFailure r with
      | Some e' => Some e'
      | None => Some e
      end
  | _ :: r => lastFailure r
  end.

(** The content of the field [error] after the events [evs]. *)
Fixpoint errorAfter (slot : option thrown) (evs : list event) : option thrown :=
  match evs with
  | [] => slot
  | Failed e :: r => errorAfter (recorded e) r
  | _ :: r => errorAfter slot r
  end.

(** [this.error ? this.reject(this.error) : this.resolve()] on a pending
    promise *)
Definition verdict (slot : option thrown) : PromiseState :=
  match slot with
  | Some e => if truthyThrown e then Rejected e else Fulfilled
  | None => Fulfilled
  end.

(** "The promise rejects with the error of the first operation that failed,
    and resolves if none failed", for the schedule [evs]. *)
Definition rejectsWithFirstFailure (evs : list event) : Prop :=
  forall t,
    run newTransaction evs = inr t -> numOps t = 0%Z ->
    promise t = match firstFailure evs with
                | Some e => Rejected e
                | None => Fulfilled
                end.

(** A callback called once for each of [n] entries and then once more with
    the sentinel. *)
Definition endsWithSentinel {C} (sentinel : C) (n : nat) (cs : list C) : Prop :=
  exists l, List.length l = n /\ cs = (l ++ [sentinel])%list.

(** What [encodeURIComponent] writes, character by character: an unescaped
    character as it is, any other octet as an escape. *)
Fixpoint written (s : string) : list JS.token :=
  match s with
  | EmptyString => []
  | String c r => (if JS.uriUnescaped c then JS.Lit c else JS.Esc c) :: written r
  end.

Section Vocabulary.

Context {S : Type} `{AsyncStore S} `{JSONCodec}.

(** What [_getJsonItem] reads under a key: [null] for an absent key, the
    parsed text otherwise; [None] when the text does not parse. *)
Definition stored (s : S) (key : string) : option JSON :=
  match getItem s key with
  | None => Some JNull
  | Some text => JSON_parse text
  end.

Definition sessionKeys (s : S) : list string :=
  filter (fun k => JS.startsWith k END_TO_END_SESSION_PREFIX) (getAllKeys s).

Definition groupSessionKeys (s : S) : list string :=
  filter (fun k => JS.startsWith k INBOUND_SESSION_PREFIX) (getAllKeys s).

(** The inbound group session read from the key [k]: the two identifiers
    decoded from the key and the data stored under it. *)
Definition groupSessionAt (s : S) (k : string) : option ISession :=
  match JS.decodeURIComponent (JS.part (JS.split "/" k) 1),
        JS.decodeURIComponent (JS.part (JS.split "/" k) 2),
        stored s k with
  | Some senderKey, Some sessionId, Some sessionData =>
      Some (mkISession senderKey sessionId sessionData)
  | _, _, _ => None
  end.

(** A marked session joined with its data, when the data is there. *)
Definition joined (s : S) (p : string * string) : list ISession :=
  match stored s (keyEndToEndInboundGroupSession (fst p) (snd p)) with
  | Some sessionData =>
      if truthy sessionData then [mkISession (fst p) (snd p) sessionData] else []
  | None => []
  end.

(** The line written for a marked session without data. *)
Definition missing (s : S) (p : string * string) : list string :=
  match stored s (keyEndToEndInboundGroupSession (fst p) (snd p)) with
  | Some sessionData =>
      if truthy sessionData then []
      else ["Could not find session data for inbound group session with " ++ snd p]
  | None => []
  end.

(** The names in the map of sessions needing backup, as [Object.keys] lists
    them; [None] when the stored text does not parse. *)
Definition markedNames (s : S) : option (list string) :=
  match stored s KEY_SESSIONS_NEEDING_BACKUP with
  | Some v => Some (Obj.keys (orElse v (JObj [])))
  | None => None
  end.

End Vocabulary.

(** [limit] entries at most, and all of them when [limit] is 0. *)
Definition limitTo {A} (limit : nat) (l : list A) : list A :=
  if (limit =? 0)%nat then l else firstn limit l.

Definition unmarked (e : ISession) : SessionExtended :=
  mkSessionExtended (senderKey e) (sessionId e) (sessionData e) false.

(** ** Example data

    The stores of the test suite ([spec/AsyncCryptoStore.spec.ts]), over the
    mock backend and the JSON text codec. *)

Module Scenario.

Definition session1 : JSON := JObj [("sessionId", JStr "some-id")].
Definition session2 : JSON := JObj [("sessionId", JStr "another-id")].

Definition groupSession1 : JSON :=
  JObj [("room_id", JStr "some/id"); ("session", JStr "some/session");
        ("forwardingCurve25519KeyChain", JArr [])].

Definition groupSession2 : JSON :=
  JObj [("room_id", JStr "some-id"); ("session", JStr "another-session");
        ("forwardingCurve25519KeyChain", JArr [])].

(** Nothing but an unrelated key. *)
Definition unrelated : MockAsyncStore.t :=
  MockAsyncStore.set MockAsyncStore.clear "someOtherData" "preciousData".

(** The store after a transaction that runs [op]. *)
Definition after {T} (op : Op (Transaction * MockAsyncStore.t) unit T)
    (s : MockAsyncStore.t) : MockAsyncStore.t :=
  state (doTxn op s).

(** Two sessions of the device [dev1], one of [dev2]. *)
Definition withSessions : MockAsyncStore.t :=
  after (storeEndToEndSession "dev2" "sess1" session1)
    (after (storeEndToEndSession "dev1" "sess2" session2)
       (after (storeEndToEndSession "dev1" "sess1" session1) unrelated)).

(** Two inbound group sessions of the sender [bob]. *)
Definition withGroupSessions : MockAsyncStore.t :=
  after (storeEndToEndInboundGroupSession "bob" "two" groupSession2)
    (after (storeEndToEndInboundGroupSession "bob" "one" groupSession1) unrelated).

(** The same, with [bob]'s session [one] and a session [gone], of which there
    is no data, marked as needing backup. *)
Definition withBackup : MockAsyncStore.t :=
  MockAsyncStore.set withGroupSessions KEY_SESSIONS_NEEDING_BACKUP
    (JSONText.stringify
       (JObj [(backupName "bob" "gone", JBool true); (backupName "bob" "one", JBool true)])).

End Scenario.

(** ** The rest of the store *)

Definition OUTGOING_KEY_REQUEST_PREFIX : string := E2E_PREFIX ++ "outgoingkeyrequest/".
Definition SECRET_STORE_PRIVATE_KEY_PREFIX : string := E2E_PREFIX ++ "ssss_cache.".
Definition ROOMS_PREFIX : string := E2E_PREFIX ++ "rooms/".
Definition SHARED_HISTORY_INBOUND_SESSIONS_PREFIX : string :=
  E2E_PREFIX ++ "sharedhistory.inboundgroupsessions/".
Definition PARKED_SHARED_HISTORY_PREFIX : string := E2E_PREFIX ++ "sharedhistory.parked/".

Definition KEY_END_TO_END_ACCOUNT : string := E2E_PREFIX ++ "account".
Definition KEY_CROSS_SIGNING_KEYS : string := E2E_PREFIX ++ "cross_signing_keys".
Definition KEY_NOTIFIED_ERROR_DEVICES : string := E2E_PREFIX ++ "notified_error_devices".
Definition KEY_DEVICE_DATA : string := E2E_PREFIX ++ "device_data".
Definition KEY_END_TO_END_MIGRATION_STATE : string := E2E_PREFIX ++ "migration".

Definition keyOutgoingKeyRequest (requestId : string) : string :=
  OUTGOING_KEY_REQUEST_PREFIX ++ JS.encodeURIComponent requestId.

Definition keySecretStorePrivateKey (type : string) : string :=
  SECRET_STORE_PRIVATE_KEY_PREFIX ++ JS.encodeURIComponent type.

Definition keyEndToEndRoom (roomId : string) : string := ROOMS_PREFIX ++ roomId.

Definition keySharedHistoryInboundGroupSessions (roomId : string) : string :=
  SHARED_HISTORY_INBOUND_SESSIONS_PREFIX ++ JS.encodeURIComponent roomId.

Definition keyParkedSharedHistory (roomId : string) : string :=
  PARKED_SHARED_HISTORY_PREFIX ++ JS.encodeURIComponent roomId.

(** [v ?? d] *)
Definition nullish (v d : JSON) : JSON :=
  match v with
  | JNull => d
  | _ => v
  end.

(** A TypeError raised by the engine: an Error object, whose message depends
    on the engine and is not modelled. *)
Definition typeError : thrown := Error "TypeError".

Module Own.

(** [m[k]] for an own property of an object *)
Fixpoint get (k : string) (m : list (string * JSON)) : option JSON :=
  match m with
  | [] => None
  | (k', v) :: r => if String.eqb k' k then Some v else get k r
  end.

(** [delete m[k]] *)
Definition delete (k : string) (m : list (string * JSON)) : list (string * JSON) :=
  filter (fun p => negb (String.eqb (fst p) k)) m.

End Own.

(** [v[name] = true] in strict code (the body of a class), for a [name] that
    contains ["/"] and so is neither an array index nor [length]: a property
    of an object is set, an array gets a property that [JSON.stringify] does
    not write, and a primitive value makes the assignment throw. *)
Definition assignTrue {St C} (name : string) (v : JSON) : Op St C JSON :=
  match v with
  | JObj m => ret (JObj (Obj.set name (JBool true) m))
  | JArr l => ret (JArr l)
  | _ => throw typeError
  end.

(** [delete v[name]] for such a [name]: only an object has it. *)
Definition deleteName (name : string) (v : JSON) : JSON :=
  match v with
  | JObj m => JObj (Own.delete name m)
  | _ => v
  end.

(** [v.push(x)]: only an array has the method. *)
Definition push {St C} (x : JSON) (v : JSON) : Op St C JSON :=
  match v with
  | JArr l => ret (JArr (l ++ [x]))
  | _ => throw typeError
  end.

Section AsyncCryptoStoreRest.

Context {S : Type} `{AsyncStore S} `{JSONCodec}.

(** [MigrationState.NOT_STARTED] is a constant of matrix-js-sdk. *)
Variable NOT_STARTED : JSON.

Definition getMigrationState {C} : Op S C JSON :=
  stored <- _getJsonItem KEY_END_TO_END_MIGRATION_STATE ;;
  ret (nullish stored NOT_STARTED).

Definition setMigrationState {C} (migrationState : JSON) : Op S C unit :=
  _setJsonItem KEY_END_TO_END_MIGRATION_STATE migrationState.

Definition getAccount : Op (Transaction * S) JSON unit :=
  submit (onStorage (
    accountPickle <- _getJsonItem KEY_END_TO_END_ACCOUNT ;;
    call accountPickle)).

Definition storeAccount {C} (accountPickle : JSON) : Op (Transaction * S) C unit :=
  submit (onStorage (_setJsonItem KEY_END_TO_END_ACCOUNT accountPickle)).

Definition getCrossSigningKeys : Op (Transaction * S) JSON unit :=
  submit (onStorage (
    keys <- _getJsonItem KEY_CROSS_SIGNING_KEYS ;;
    call keys)).

Definition getSecretStorePrivateKey (type : string) : Op (Transaction * S) JSON unit :=
  submit (onStorage (
    key <- _getJsonItem (keySecretStorePrivateKey type) ;;
    call key)).

Definition storeCrossSigningKeys {C} (keys : JSON) : Op (Transaction * S) C unit :=
  submit (onStorage (_setJsonItem KEY_CROSS_SIGNING_KEYS keys)).

Definition storeSecretStorePrivateKey {C} (type : string) (key : JSON)
  : Op (Transaction * S) C unit :=
  submit (onStorage (_setJsonItem (keySecretStorePrivateKey type) key)).

Definition countEndToEndSessions : Op (Transaction * S) nat unit :=
  submit (onStorage (
    keys <- gets getAllKeys ;;
    let count :=
      List.length (filter (fun k => JS.startsWith k END_TO_END_SESSION_PREFIX) keys) in
    call count)).

(** A component that is [undefined] is [None]. *)
Definition deleteEndToEndSessionsBatch {C}
    (sessions : list (option string * option string)) : Op S C unit :=
  forEach sessions
    (fun session =>
       match session with
       | (Some deviceKey, Some sessionId) =>
           modify (fun s => removeItem s (keyEndToEndSession deviceKey sessionId))
       | _ => ret tt
       end).

Definition countEndToEndInboundGroupSessions {C} : Op S C nat :=
  keys <- gets getAllKeys ;;
  ret (List.length (filter (fun k => JS.startsWith k INBOUND_SESSION_PREFIX) keys)).

Definition deleteEndToEndInboundGroupSessionsBatch {C}
    (sessions : list (string * string)) : Op S C unit :=
  forEach sessions
    (fun session =>
       modify (fun s =>
         removeItem s (keyEndToEndInboundGroupSession (fst session) (snd session)))).

Definition getEndToEndDeviceData : Op (Transaction * S) JSON unit :=
  submit (onStorage (
    deviceData <- _getJsonItem KEY_DEVICE_DATA ;;
    call deviceData)).

Definition storeEndToEndDeviceData {C} (deviceData : JSON) : Op (Transaction * S) C unit :=
  submit (onStorage (_setJsonItem KEY_DEVICE_DATA deviceData)).

Definition storeEndToEndRoom {C} (roomId : string) (roomInfo : JSON)
  : Op (Transaction * S) C unit :=
  submit (onStorage (_setJsonItem (keyEndToEndRoom roomId) roomInfo)).

Fixpoint getEndToEndRooms_loop (keys : list string) (result : list (string * JSON))
  : Op S JSON (list (string * JSON)) :=
  match keys with
  | [] => ret result
  | k :: r =>
      let roomId := JS.slice (String.length ROOMS_PREFIX) k in
      roomInfo <- _getJsonItem k ;;
      getEndToEndRooms_loop r (Obj.set roomId roomInfo result)
  end.

Definition getEndToEndRooms : Op (Transaction * S) JSON unit :=
  submit (onStorage (
    keys <- gets (fun s => filter (fun k => JS.startsWith k ROOMS_PREFIX) (getAllKeys s)) ;;
    result <- getEndToEndRooms_loop keys [] ;;
    call (JObj result))).

Fixpoint unmarkSessionsNeedingBackup_loop (sessions : list ISession) (m : JSON) : JSON :=
  match sessions with
  | [] => m
  | session :: r =>
      unmarkSessionsNeedingBackup_loop r
        (deleteName (backupName (senderKey session) (sessionId session)) m)
  end.

Definition unmarkSessionsNeedingBackup {C} (sessions : list ISession) : Op S C unit :=
  stored <- _getJsonItem KEY_SESSIONS_NEEDING_BACKUP ;;
  let sessionsNeedingBackup := orElse stored (JObj []) in
  _setJsonItem KEY_SESSIONS_NEEDING_BACKUP
    (unmarkSessionsNeedingBackup_loop sessions sessionsNeedingBackup).

Fixpoint markSessionsNeedingBackup_loop {C} (sessions : list ISession) (m : JSON)
  : Op S C JSON :=
  match sessions with
  | [] => ret m
  | session :: r =>
      m' <- assignTrue (backupName (senderKey session) (sessionId session)) m ;;
      markSessionsNeedingBackup_loop r m'
  end.

Definition markSessionsNeedingBackup {C} (sessions : list ISession) : Op S C unit :=
  stored <- _getJsonItem KEY_SESSIONS_NEEDING_BACKUP ;;
  let sessionsNeedingBackup := orElse stored (JObj []) in
  marked <- markSessionsNeedingBackup_loop sessions sessionsNeedingBackup ;;
  _setJsonItem KEY_SESSIONS_NEEDING_BACKUP marked.

Definition addSharedHistoryInboundGroupSession {C} (roomId senderKey sessionId : string)
  : Op S C unit :=
  let key := keySharedHistoryInboundGroupSessions roomId in
  stored <- _getJsonItem key ;;
  sessions <- push (JArr [JStr senderKey; JStr sessionId]) (nullish stored (JArr [])) ;;
  _setJsonItem key sessions.

Definition getSharedHistoryInboundGroupSessions {C} (roomId : string) : Op S C JSON :=
  stored <- _getJsonItem (keySharedHistoryInboundGroupSessions roomId) ;;
  ret (nullish stored (JArr [])).

Definition addParkedSharedHistory {C} (roomId : string) (data : JSON) : Op S C unit :=
  stored <- _getJsonItem (keyParkedSharedHistory roomId) ;;
  parked <- push data (nullish stored (JArr [])) ;;
  _setJsonItem (keyParkedSharedHistory roomId) parked.

Definition takeParkedSharedHistory {C} (roomId : string) : Op S C JSON :=
  let key := keyParkedSharedHistory roomId in
  stored <- _getJsonItem key ;;
  let parked := nullish stored (JArr []) in
  modify (fun s => removeItem s key) ;;;
  ret parked.

End AsyncCryptoStoreRest.

(** ** Outgoing room key requests *)

(** [v.name] for a [name] that no prototype defines and that is neither an
    index nor [length], so that only an object can have it: [None] is
    [undefined], and reading a property of [null] throws. *)
Definition prop {St C} (name : string) (v : JSON) : Op St C (option JSON) :=
  match v with
  | JNull => throw typeError
  | JObj m => ret (Own.get name m)
  | _ => ret None
  end.

(** The same, read from what may be [undefined]. *)
Definition propOf {St C} (name : string) (v : option JSON) : Op St C (option JSON) :=
  match v with
  | Some v => prop name v
  | None => throw typeError
  end.

(** [x === s] for a string [s] *)
Definition isString (x : option JSON) (s : string) : bool :=
  match x with
  | Some (JStr t) => String.eqb t s
  | _ => false
  end.

(** [x === n] for a number [n]; [l.includes(x)] compares alike. *)
Definition isNumber (x : option JSON) (n : Z) : bool :=
  match x with
  | Some (JNum m) => (m =? n)%Z
  | _ => false
  end.

(** [Object.assign(v, updates)] on an object [v], where [updates] is given by
    its own enumerable properties in their order.  The requests that reach
    it have a [state], so they are objects. *)
Definition assign (updates : list (string * JSON)) (v : JSON) : JSON :=
  match v with
  | JObj m => JObj (fold_left (fun m p => Obj.set (fst p) (snd p) m) updates m)
  | _ => v
  end.

Section OutgoingRoomKeyRequests.

Context {S : Type} `{AsyncStore S} `{JSONCodec}.

Definition _getAllOutgoingKeyRequestKeys {C} : Op S C (list string) :=
  gets (fun s => filter (fun k => JS.startsWith k OUTGOING_KEY_REQUEST_PREFIX) (getAllKeys s)).

(** The request body is given by the two fields that are read, which are
    strings. *)
Fixpoint getOutgoingRoomKeyRequest_loop {C} (room_id session_id : string)
    (keys : list string) : Op S C JSON :=
  match keys with
  | [] => ret JNull
  | key :: r =>
      req <- _getJsonItem key ;;
      body <- prop "requestBody" req ;;
      room <- propOf "room_id" body ;;
      if isString room room_id then
        session <- propOf "session_id" body ;;
        if isString session session_id then ret req
        else getOutgoingRoomKeyRequest_loop room_id session_id r
      else getOutgoingRoomKeyRequest_loop room_id session_id r
  end.

Definition getOutgoingRoomKeyRequest {C} (room_id session_id : string) : Op S C JSON :=
  keys <- _getAllOutgoingKeyRequestKeys ;;
  getOutgoingRoomKeyRequest_loop room_id session_id keys.

(** [request] is given by the fields that are read, which are strings, and
    by the value that [JSON.stringify] writes for it. *)
Definition getOrAddOutgoingRoomKeyRequest {C} (requestId room_id session_id : string)
    (request : JSON) : Op S C JSON :=
  req <- getOutgoingRoomKeyRequest room_id session_id ;;
  if truthy req then ret req
  else
    _setJsonItem (keyOutgoingKeyRequest requestId) request ;;;
    ret request.

Fixpoint getOutgoingRoomKeyRequestByState_loop {C} (wantedStates : list Z)
    (keys : list string) : Op S C JSON :=
  match keys with
  | [] => ret JNull
  | key :: r =>
      req <- _getJsonItem key ;;
      state <- prop "state" req ;;
      if existsb (isNumber state) wantedStates then ret req
      else getOutgoingRoomKeyRequestByState_loop wantedStates r
  end.

Definition getOutgoingRoomKeyRequestByState {C} (wantedStates : list Z) : Op S C JSON :=
  keys <- _getAllOutgoingKeyRequestKeys ;;
  getOutgoingRoomKeyRequestByState_loop wantedStates keys.

Definition updateOutgoingRoomKeyRequest {C} (requestId : string) (expectedState : Z)
    (updates : list (string * JSON)) : Op S C JSON :=
  let key := keyOutgoingKeyRequest requestId in
  req <- _getJsonItem key ;;
  if negb (truthy req) then ret JNull
  else
    state <- prop "state" req ;;
    if negb (isNumber state expectedState) then ret JNull
    else
      let req := assign updates req in
      _setJsonItem key req ;;;
      ret req.

Definition deleteOutgoingRoomKeyRequest {C} (requestId : string) (expectedState : Z)
  : Op S C JSON :=
  let key := keyOutgoingKeyRequest requestId in
  req <- _getJsonItem key ;;
  if negb (truthy req) then ret JNull
  else
    state <- prop "state" req ;;
    if negb (isNumber state expectedState) then ret JNull
    else
      modify (fun s => removeItem s key) ;;;
      ret req.

End OutgoingRoomKeyRequests.

(** ** Vocabulary of the further properties *)

(** A backend that lists a key once keeps doing so. *)
Class KeysListedOnce (S : Type) `{AsyncStore S} : Prop := {
  setItem_NoDup : forall s k v,
    NoDup (getAllKeys s) -> NoDup (getAllKeys (setItem s k v));
  removeItem_NoDup : forall s k,
    NoDup (getAllKeys s) -> NoDup (getAllKeys (removeItem s k))
}.

Section FurtherVocabulary.

Context {S : Type} `{AsyncStore S} `{JSONCodec}.

(** The session that [getEndToEndSessions] reads for the key [k] of a
    device: the identifier decoded from the key, and what is stored under
    the key built again from it. *)
Definition sessionAt (s : S) (deviceKey k : string) : option (string * JSON) :=
  match JS.decodeURIComponent (JS.part (JS.split "/" k) 2) with
  | Some sessionId =>
      match stored s (keyEndToEndSession deviceKey sessionId) with
      | Some v => Some (sessionId, v)
      | None => None
      end
  | None => None
  end.

Definition roomKeys (s : S) : list string :=
  filter (fun k => JS.startsWith k ROOMS_PREFIX) (getAllKeys s).

(** The map of sessions needing backup that the operations work on. *)
Definition backupMap (s : S) : option JSON :=
  match stored s KEY_SESSIONS_NEEDING_BACKUP with
  | Some v => Some (orElse v (JObj []))
  | None => None
  end.

End FurtherVocabulary.

(** The map in which exactly the sessions [marked] are marked, in order. *)
Definition markedMap (marked : list (string * string)) : list (string * JSON) :=
  map (fun p => (backupName (fst p) (snd p), JBool true)) marked.

Definition identifiers (session : ISession) : string * string :=
  (senderKey session, sessionId session).

Definition sessionName (session : ISession) : string :=
  backupName (senderKey session) (sessionId session).

(** The map of sessions needing backup after the assignments of
    [markSessionsNeedingBackup], and after the deletions of
    [unmarkSessionsNeedingBackup]. *)
Definition marking (sessions : list ISession) (m : list (string * JSON))
  : list (string * JSON) :=
  fold_left (fun m session => Obj.set (sessionName session) (JBool true) m) sessions m.

Definition unmarking (sessions : list ISession) (m : list (string * JSON))
  : list (string * JSON) :=
  fold_left (fun m session => Own.delete (sessionName session) m) sessions m.

(** A reading operation sees the same in two states. *)
Definition readsAlike {S C : Type} (get : Op (Transaction * S) C unit) (s1 s2 : S) : Prop :=
  trace (doTxn get s1) = trace (doTxn get s2)
  /\ outcome (doTxn get s1) = outcome (doTxn get s2).

(** The keys that [deleteEndToEndSessionsBatch] removes: those of the entries
    with both components. *)
Definition namedSessionKeys (sessions : list (option string * option string))
  : list string :=
  flat_map (fun session =>
              match session with
              | (Some deviceKey, Some sessionId) => [keyEndToEndSession deviceKey sessionId]
              | _ => []
              end) sessions.

(** Whether the key [k] of a session names the session [sessionId]. *)
Definition namesSession (sessionId k : string) : bool :=
  match JS.decodeURIComponent (JS.part (JS.split "/" k) 2) with
  | Some id => String.eqb id sessionId
  | None => false
  end.

(** The operations started and not ended after the events [evs]. *)
Fixpoint inFlight (evs : list event) : Z :=
  match evs with
  | [] => 0
  | Started :: r => inFlight r + 1
  | _ :: r => inFlight r - 1
  end.

(** An operation that leaves the state as it found it, whatever it returns
    or throws. *)
Definition readOnly {St C A} (m : Op St C A) : Prop :=
  forall s, state (m s) = s.

(** Whether a stored request is for the room and the session. *)
Definition requestIsFor (room_id session_id : string) (req : JSON) : bool :=
  match req with
  | JObj m =>
      match Own.get "requestBody" m with
      | Some (JObj body) =>
          isString (Own.get "room_id" body) room_id
          && isString (Own.get "session_id" body) session_id
      | _ => false
      end
  | _ => false
  end.

(** Whether a stored request has a body to look into. *)
Definition hasRequestBody (req : JSON) : bool :=
  match req with
  | JObj m =>
      match Own.get "requestBody" m with
      | Some JNull | None => false
      | Some _ => true
      end
  | _ => false
  end.

(** Whether the state of a stored request is among the states given. *)
Definition stateAmong (wantedStates : list Z) (req : JSON) : bool :=
  match req with
  | JObj m => existsb (isNumber (Own.get "state" m)) wantedStates
  | _ => false
  end.

Section RequestVocabulary.

Context {S : Type} `{AsyncStore S} `{JSONCodec}.

Definition requestKeys (s : S) : list string :=
  filter (fun k => JS.startsWith k OUTGOING_KEY_REQUEST_PREFIX) (getAllKeys s).

(** What is stored under a key satisfies [p]. *)
Definition storedIs (p : JSON -> bool) (s : S) (k : string) : bool :=
  match stored s k with
  | Some v => p v
  | None => false
  end.

End RequestVocabulary.

(** The lines that [getEndToEndSessionsBatch] writes for the keys [ks] with
    the values [values]: one for each value that is falsy. *)
Fixpoint notFound (ks : list string) (values : list JSON) : list string :=
  match ks, values with
  | k :: ks', v :: values' =>
      ((if truthy v then [] else [("Could not find session " ++ k)%string])
       ++ notFound ks' values')%list
  | _, _ => []
  end.

(** ** Further example data *)

Module Further.

Definition roomInfo : JSON := JObj [("algorithm", JStr "m.megolm.v1.aes-sha2")].

Definition request : JSON :=
  JObj [("requestId", JStr "req1");
        ("requestBody", JObj [("room_id", JStr "!room"); ("session_id", JStr "sess")]);
        ("state", JNum 0)].

(** A store with one outgoing request. *)
Definition withRequest : MockAsyncStore.t :=
  MockAsyncStore.set Scenario.unrelated (keyOutgoingKeyRequest "req1")
    (JSONText.stringify request).

(** A session whose text does not parse. *)
Definition withBrokenSession : MockAsyncStore.t :=
  MockAsyncStore.set Scenario.unrelated (keyEndToEndSession "dev1" "sess1") "{oops".

(** Two inbound group sessions and a key that cannot be decoded. *)
Definition withBrokenKey : MockAsyncStore.t :=
  MockAsyncStore.set Scenario.withGroupSessions
    (INBOUND_SESSION_PREFIX ++ "%/x") (JSONText.stringify Scenario.groupSession1).

(** Three sessions and a key of a session that holds [null]. *)
Definition withMissingSession : MockAsyncStore.t :=
  MockAsyncStore.set Scenario.withSessions (keyEndToEndSession "dev3" "sess9") "null".

End Further.

(** * Properties *)

(** ** The primitives on examples *)

Example encodeURIComponent_slash :
  JS.encodeURIComponent "this/that" = "this%2Fthat"
  /\ keyEndToEndInboundGroupSession "this/that" "here/there"
     = "crypto.inboundgroupsessions/this%2Fthat/here%2Fthere".
Proof. split; reflexivity. Qed.

Example decodeURIComponent_cases :
  JS.decodeURIComponent "this%2fthat" = Some "this/that"
  /\ JS.decodeURIComponent "%C3%A9" = Some (String (ascii_of_N 195) (String (ascii_of_N 169) ""))
  /\ JS.decodeURIComponent "%C3" = None
  /\ JS.decodeURIComponent "%" = None
  /\ JS.decodeURIComponent "%ED%A0%80" = None
  /\ JS.decodeURIComponent (JS.part (JS.split "/" "crypto.sessions/a") 2) = Some "undefined".
Proof. repeat split; reflexivity. Qed.

Example split_cases :
  JS.split "/" "crypto.sessions/a/b" = ["crypto.sessions"; "a"; "b"]
  /\ JS.split "/" "" = [""]
  /\ JS.split "/" "a/" = ["a"; ""].
Proof. repeat split; reflexivity. Qed.

Example keys_order :
  Obj.keys (JObj [("b", JNull); ("10", JNull); ("a", JNull); ("2", JNull); ("01", JNull)])
  = ["2"; "10"; "b"; "a"; "01"].
Proof. reflexivity. Qed.

Example JSON_text :
  JSON_stringify Scenario.groupSession1
  = String.concat (String JSONText.quote "")
      ["{"; "room_id"; ":"; "some/id"; ","; "session"; ":"; "some/session"; ",";
       "forwardingCurve25519KeyChain"; ":[]}"]
  /\ JSON_parse (JSON_stringify Scenario.groupSession1) = Some Scenario.groupSession1
  /\ JSON_parse "{" = None.
Proof. repeat split; vm_compute; reflexivity. Qed.

(** ** Transaction *)

Lemma errorAfter_lastFailure : forall evs slot,
  errorAfter slot evs =
  match lastFailure evs with
  | Some e => recorded e
  | None => slot
  end.
Proof.
  induction evs as [|ev r IH]; intro slot; simpl.
  - reflexivity.
  - destruct ev; simpl; rewrite IH; try reflexivity.
    destruct (lastFailure r); reflexivity.
Qed.

Lemma verdict_recorded : forall e,
  verdict (recorded e) = if truthyThrown e then Rejected e else Fulfilled.
Proof.
  intros [| |m|v]; try reflexivity.
  destruct v; reflexivity.
Qed.

Lemma onOperationStarted_open : forall t,
  resolve t = true ->
  onOperationStarted t =
  inr (mkTransaction (numOps t + 1) (error t) (resolve t) (reject t) (promise t)).
Proof. intros t Hr. unfold onOperationStarted. rewrite Hr. reflexivity. Qed.

Lemma onOperationStarted_completed : forall t,
  resolve t = false ->
  onOperationStarted t =
  inl (Error "Tried to start a new operation on a completed transaction").
Proof. intros t Hr. unfold onOperationStarted. rewrite Hr. reflexivity. Qed.

Lemma onOperationEnded_last : forall t,
  numOps t = 1%Z -> resolve t = true -> reject t = true -> promise t = Pending ->
  onOperationEnded t = mkTransaction 0 (error t) false false (verdict (error t)).
Proof.
  intros t Hn Hr Hj Hp. unfold onOperationEnded, verdict.
  rewrite Hn, Hr, Hj, Hp. simpl.
  destruct (error t) as [e|]; [destruct (truthyThrown e)|]; reflexivity.
Qed.

Lemma onOperationEnded_more : forall t,
  numOps t <> 1%Z ->
  onOperationEnded t =
  mkTransaction (numOps t - 1) (error t) (resolve t) (reject t) (promise t).
Proof.
  intros t Hn. unfold onOperationEnded.
  destruct (Z.eqb_spec (numOps t - 1) 0) as [E|E]; [lia | reflexivity].
Qed.

(** A transaction that has been settled refuses every event that a schedule
    allows next. *)
Lemma run_after_settlement : forall evs t t',
  resolve t = false -> numOps t = 0%Z ->
  schedule 0 evs = true -> run t evs = inr t' -> evs = [].
Proof.
  intros [|ev r] t t' Hr Hn Hs Hrun; [reflexivity|].
  destruct ev; simpl in Hs; try discriminate.
  simpl in Hrun. rewrite (onOperationStarted_completed _ Hr) in Hrun. discriminate.
Qed.

(** What a schedule does to a transaction that is still open. *)
Lemma run_open : forall evs n t t',
  resolve t = true -> reject t = true -> promise t = Pending ->
  numOps t = Z.of_nat n ->
  schedule n evs = true -> run t evs = inr t' ->
  (numOps t' = 0%Z -> (n = 0 /\ evs = []) \/ promise t' = verdict (errorAfter (error t) evs))
  /\ (numOps t' <> 0%Z -> promise t' = Pending /\ resolve t' = true).
Proof.
  induction evs as [|ev r IH]; intros n t t' Hr Hj Hp Hn Hs Hrun.
  - simpl in Hrun. injection Hrun as <-. split.
    + intro H0. left. split; [lia | reflexivity].
    + intros _. auto.
  - assert (Hend : forall t0, resolve t0 = true -> reject t0 = true ->
               promise t0 = Pending -> numOps t0 = Z.of_nat n ->
               forall m, n = S m -> schedule m r = true ->
               run (onOperationEnded t0) r = inr t' ->
               (numOps t' = 0%Z -> promise t' = verdict (errorAfter (error t0) r))
               /\ (numOps t' <> 0%Z -> promise t' = Pending /\ resolve t' = true)).
    { intros t0 Hr0 Hj0 Hp0 Hn0 m Hm Hsm Hrun0.
      destruct m as [|m].
      - rewrite onOperationEnded_last in Hrun0 by (auto; lia).
        assert (r = []) as ->
          by (eapply run_after_settlement; [| | exact Hsm | exact Hrun0]; reflexivity).
        simpl in Hrun0. injection Hrun0 as <-. simpl. split; [auto | intro; lia].
      - rewrite onOperationEnded_more in Hrun0 by lia.
        destruct (IH (S m)
                    (mkTransaction (numOps t0 - 1) (error t0) (resolve t0) (reject t0)
                       (promise t0))
                    t' Hr0 Hj0 Hp0 ltac:(simpl; lia) Hsm Hrun0) as [A B].
        split; [|exact B].
        intro H0. destruct (A H0) as [[? _]|E]; [discriminate | exact E]. }
    destruct ev as [| |e]; simpl in Hs, Hrun.
    + rewrite (onOperationStarted_open _ Hr) in Hrun.
      destruct (IH (S n)
                  (mkTransaction (numOps t + 1) (error t) (resolve t) (reject t) (promise t))
                  t' Hr Hj Hp ltac:(simpl; lia) Hs Hrun) as [A B].
      split; [|exact B].
      intro H0. right. destruct (A H0) as [[? _]|E]; [discriminate | exact E].
    + destruct n as [|m]; [discriminate|].
      destruct (Hend t Hr Hj Hp Hn m eq_refl Hs Hrun) as [A B].
      split; [intro H0; right; simpl; auto | exact B].
    + destruct n as [|m]; [discriminate|].
      destruct (Hend (recordError e t) Hr Hj Hp Hn m eq_refl Hs Hrun) as [A B].
      split; [intro H0; right; simpl; auto | exact B].
Qed.

(** C1 (as amended).  When the operations registered on a transaction have all
    ended, the promise of the transaction is rejected with the error of the
    operation that failed last, provided that error is a truthy value, and
    is resolved otherwise, in particular when no operation failed. *)
Theorem transaction_settles_with_last_failure : forall evs t,
  evs <> [] -> schedule 0 evs = true ->
  run newTransaction evs = inr t -> numOps t = 0%Z ->
  promise t = match lastFailure evs with
              | Some e => if truthyThrown e then Rejected e else Fulfilled
              | None => Fulfilled
              end.
Proof.
  intros evs t Hne Hs Hrun H0.
  destruct (run_open evs 0 newTransaction t eq_refl eq_refl eq_refl eq_refl Hs Hrun)
    as [A _].
  destruct (A H0) as [[_ E]|E]; [contradiction|].
  rewrite E, errorAfter_lastFailure. simpl.
  destruct (lastFailure evs) as [e|]; [apply verdict_recorded | reflexivity].
Qed.

Lemma transaction_settles_with_last_failure_witness :
  exists t,
    run newTransaction
      [Started; Started; Failed (Error "first"); Started; Succeeded;
       Failed (Error "last")] = inr t
    /\ promise t = Rejected (Error "last").
Proof.
  eexists. split; [reflexivity|].
  apply (transaction_settles_with_last_failure
           [Started; Started; Failed (Error "first"); Started; Succeeded;
            Failed (Error "last")]);
    [discriminate | reflexivity | reflexivity | reflexivity].
Defined.

(** C1 (as stated) fails: two operations fail one after the other, and the
    promise is rejected with the error of the second. *)
Lemma first_failure_is_overwritten :
  ~ rejectsWithFirstFailure [Started; Started; Failed (Error "first"); Failed (Error "second")].
Proof.
  intro H. specialize (H _ eq_refl eq_refl). simpl in H. discriminate.
Qed.

(** A settled transaction keeps [resolve] at [null], whatever happens
    next. *)
Lemma settled_has_no_resolve : forall evs t t',
  (promise t <> Pending -> resolve t = false) ->
  run t evs = inr t' ->
  promise t' <> Pending -> resolve t' = false.
Proof.
  induction evs as [|ev r IH]; intros t t' Hinv Hrun.
  - simpl in Hrun. injection Hrun as <-. exact Hinv.
  - simpl in Hrun. destruct (step t ev) as [e|t1] eqn:E; [discriminate|].
    apply (IH t1 t'); [|exact Hrun].
    assert (Hended : forall t0, (promise t0 <> Pending -> resolve t0 = false) ->
              promise (onOperationEnded t0) <> Pending ->
              resolve (onOperationEnded t0) = false).
    { intros t0 H0. unfold onOperationEnded.
      destruct (numOps t0 - 1 =? 0)%Z; simpl; auto. }
    destruct ev as [| |e]; simpl in E.
    + unfold onOperationStarted in E.
      destruct (resolve t) eqn:Hr; simpl in E; [|discriminate].
      injection E as <-. simpl. intro Hp. discriminate (Hinv Hp).
    + injection E as <-. apply Hended, Hinv.
    + injection E as <-. apply Hended. exact Hinv.
Qed.

(** C7.  Once a transaction has settled, [execute] throws
    "Tried to start a new operation on a completed transaction" (as the
    rejection of the promise of [execute], which is [async]); the operation
    is not run: the transaction and the state are as before and nothing is
    observed. *)
Theorem execute_after_settlement_throws :
  forall (St C : Type) evs t (func : Op (Transaction * St) C unit) (s : St),
    run newTransaction evs = inr t ->
    promise t <> Pending ->
    execute func (t, s) =
    mkResult (t, s) []
      (inl (Error "Tried to start a new operation on a completed transaction")).
Proof.
  intros St C evs t func s Hrun Hp.
  assert (Hr : resolve t = false).
  { apply (settled_has_no_resolve evs newTransaction t); auto.
    intro H. exfalso. apply H. reflexivity. }
  unfold execute. simpl. rewrite (onOperationStarted_completed _ Hr). reflexivity.
Qed.

Lemma execute_after_settlement_throws_witness :
  let t := mkTransaction 0 None false false Fulfilled in
  run newTransaction [Started; Succeeded] = inr t /\
  execute (St := unit) (C := unit) (call tt) (t, tt) =
  mkResult (t, tt) []
    (inl (Error "Tried to start a new operation on a completed transaction")).
Proof.
  split; [reflexivity|].
  apply (execute_after_settlement_throws unit unit [Started; Succeeded]);
    [reflexivity | discriminate].
Defined.

(** The methods of the store call [execute] and drop its promise: on a
    settled transaction they return normally and do nothing. *)
Lemma submit_after_settlement_does_nothing :
  forall (St C : Type) evs t (func : Op (Transaction * St) C unit) (s : St),
    run newTransaction evs = inr t ->
    promise t <> Pending ->
    submit func (t, s) = mkResult (t, s) [] (inr tt).
Proof.
  intros St C evs t func s Hrun Hp.
  assert (Hr : resolve t = false).
  { apply (settled_has_no_resolve evs newTransaction t); auto.
    intro H. exfalso. apply H. reflexivity. }
  unfold submit, unawaited, execute, bind, ret. cbn [fst snd state trace outcome].
  rewrite (onOperationStarted_completed _ Hr). reflexivity.
Qed.

(** C10.  When the function given to [doTxn] registers no operation (it only
    works on the storage), the promise that [doTxn] returns stays pending;
    and a pending promise is only settled by the end of an operation that
    brings the counter to zero. *)
Theorem doTxn_without_operation_stays_pending :
  forall (S C T : Type) (func : Op S C T) (s : S),
    outcome (doTxn (onStorage func) s) =
      match outcome (func s) with
      | inl e => inl e
      | inr _ => inr StillPending
      end
    /\ (forall t ev t',
          promise t = Pending -> step t ev = inr t' -> promise t' <> Pending ->
          ev <> Started /\ numOps t' = 0%Z).
Proof.
  intros S C T func s. split.
  - unfold doTxn, onStorage. simpl. destruct (outcome (func s)); reflexivity.
  - intros t ev t' Hp Hstep Hset.
    assert (Hended : forall t0, promise t0 = Pending ->
              promise (onOperationEnded t0) <> Pending ->
              numOps (onOperationEnded t0) = 0%Z).
    { intros t0 H0. unfold onOperationEnded.
      destruct (Z.eqb_spec (numOps t0 - 1) 0) as [E|E]; simpl; [auto | congruence]. }
    destruct ev as [| |e]; simpl in Hstep.
    + unfold onOperationStarted in Hstep.
      destruct (negb (resolve t)); [discriminate|].
      injection Hstep as <-. simpl in Hset. contradiction.
    + injection Hstep as <-. split; [discriminate | apply Hended; assumption].
    + injection Hstep as <-. split; [discriminate | apply Hended; assumption].
Qed.

Lemma doTxn_without_operation_stays_pending_witness :
  outcome (doTxn (C := unit) (onStorage (gets (fun s : MockAsyncStore.t => MockAsyncStore.keys s)))
             MockAsyncStore.clear) = inr StillPending
  /\ numOps (mkTransaction 0 None false false Fulfilled) = 0%Z.
Proof.
  destruct (doTxn_without_operation_stays_pending MockAsyncStore.t unit (list string)
              (gets (fun s : MockAsyncStore.t => MockAsyncStore.keys s))
              MockAsyncStore.clear) as [A B].
  split; [exact A|].
  apply (B (mkTransaction 1 None true true Pending) Succeeded);
    [reflexivity | reflexivity | discriminate].
Defined.

(** ** The monad of operations *)

Lemma bind_value : forall St C A B (m : Op St C A) (k : A -> Op St C B) s s' a,
  m s = mkResult s' [] (inr a) -> bind m k s = k a s'.
Proof.
  intros St C A B m k s s' a E. unfold bind. rewrite E. simpl.
  destruct (k a s'); reflexivity.
Qed.

Lemma bind_observed : forall St C A B (m : Op St C A) (k : A -> Op St C B) s s' t a,
  m s = mkResult s' t (inr a) ->
  bind m k s = mkResult (state (k a s')) (t ++ trace (k a s')) (outcome (k a s')).
Proof. intros St C A B m k s s' t a E. unfold bind. rewrite E. reflexivity. Qed.

Lemma bind_thrown : forall St C A B (m : Op St C A) (k : A -> Op St C B) s s' t e,
  m s = mkResult s' t (inl e) -> bind m k s = mkResult s' t (inl e).
Proof. intros St C A B m k s s' t e E. unfold bind. rewrite E. reflexivity. Qed.

Lemma calls_app : forall C (t1 t2 : list (observation C)),
  calls (t1 ++ t2) = (calls t1 ++ calls t2)%list.
Proof.
  induction t1 as [|o r IH]; intro t2; simpl; [reflexivity|].
  destruct o; simpl; rewrite IH; reflexivity.
Qed.

Lemma logged_app : forall C (t1 t2 : list (observation C)),
  logged (t1 ++ t2) = (logged t1 ++ logged t2)%list.
Proof.
  induction t1 as [|o r IH]; intro t2; simpl; [reflexivity|].
  destruct o; simpl; rewrite IH; reflexivity.
Qed.

(** An operation run without interleaving is the schedule of its start
    followed by its end. *)
Lemma execute_is_a_schedule : forall (S C : Type) (body : Op S C unit) t (s : S),
  resolve t = true ->
  inr (fst (state (execute (onStorage body) (t, s)))) =
  run t [Started;
         match outcome (body s) with
         | inl e => Failed e
         | inr _ => Succeeded
         end].
Proof.
  intros S C body t s Hr. unfold execute, onStorage. cbn [fst snd run step].
  rewrite (onOperationStarted_open t Hr). cbn [fst snd state outcome].
  destruct (outcome (body s)); reflexivity.
Qed.

(** A transaction with one operation that works on the storage: the promise
    of [doTxn] is settled by the end of that operation. *)
Lemma doTxn_submit : forall (S C : Type) (body : Op S C unit) (s : S),
  doTxn (submit (onStorage body)) s =
  mkResult (state (body s)) (trace (body s))
    (inr match outcome (body s) with
         | inl e => if truthyThrown e then RejectedWith e else FulfilledWith tt
         | inr _ => FulfilledWith tt
         end).
Proof.
  intros S C body s.
  unfold doTxn, submit, unawaited, execute, onStorage, bind, ret. simpl.
  rewrite app_nil_r.
  destruct (body s) as [s' t [e|[]]]; simpl; [|reflexivity].
  destruct e as [| |m|v]; try reflexivity.
  destruct v as [|b|n|x|l|m]; try reflexivity; simpl.
  - destruct b; reflexivity.
  - destruct (n =? 0)%Z; reflexivity.
  - destruct (String.eqb x ""); reflexivity.
Qed.

Section StoreProperties.

Context {S : Type} `{LawfulAsyncStore S} `{JSONCodec}.

Variable SESSION_BATCH_SIZE : nat.

Lemma _getJsonItem_stored : forall C (s : S) key,
  _getJsonItem (C := C) key s =
  mkResult s []
    match stored s key with
    | Some v => inr v
    | None => inl SyntaxError
    end.
Proof.
  intros C s key. unfold _getJsonItem, stored, bind, gets. simpl.
  destruct (getItem s key) as [text|]; [|reflexivity].
  destruct (JSON_parse text); reflexivity.
Qed.

Lemma decode_result : forall St C (s : St) x,
  decode (C := C) x s =
  mkResult s []
    match JS.decodeURIComponent x with
    | Some d => inr d
    | None => inl URIError
    end.
Proof. intros. unfold decode. destruct (JS.decodeURIComponent x); reflexivity. Qed.

(** *** Deleting the namespace *)

Lemma forEach_removeItem : forall C ks (s : S),
  forEach (C := C) ks (fun key => modify (fun s => removeItem s key)) s =
  mkResult (fold_left removeItem ks s) [] (inr tt).
Proof.
  induction ks as [|k r IH]; intro s; simpl; [reflexivity|].
  rewrite bind_value with (s' := removeItem s k) (a := tt) by reflexivity.
  apply IH.
Qed.

Lemma getItem_fold_removeItem : forall ks (s : S) k,
  getItem (fold_left removeItem ks s) k =
  if existsb (fun x => String.eqb x k) ks then None else getItem s k.
Proof.
  induction ks as [|x r IH]; intros s k; simpl; [reflexivity|].
  rewrite IH, getItem_removeItem.
  destruct (String.eqb x k); simpl; [|reflexivity].
  destruct (existsb (fun x0 => String.eqb x0 k) r); reflexivity.
Qed.

Lemma deleteAllData_result : forall C (s : S),
  deleteAllData (C := C) s =
  mkResult
    (fold_left removeItem
       (filter (fun k => JS.startsWith k E2E_PREFIX) (getAllKeys s)) s)
    [] (inr tt).
Proof.
  intros C s. unfold deleteAllData.
  erewrite bind_value by reflexivity. apply forEach_removeItem.
Qed.

(** C5.  After [deleteAllData], no key that starts with ["crypto."] is left,
    and a key that does not start with it is present exactly when it was,
    with the value it had. *)
Theorem deleteAllData_frame : forall C (s : S),
  let r := deleteAllData (C := C) s in
  outcome r = inr tt
  /\ (forall k, JS.startsWith k E2E_PREFIX = true ->
        getItem (state r) k = None /\ ~ In k (getAllKeys (state r)))
  /\ (forall k, JS.startsWith k E2E_PREFIX = false ->
        getItem (state r) k = getItem s k
        /\ (In k (getAllKeys (state r)) <-> In k (getAllKeys s))).
Proof.
  intros C s r. subst r. rewrite deleteAllData_result. simpl.
  set (ks := filter (fun k => JS.startsWith k E2E_PREFIX) (getAllKeys s)).
  split; [reflexivity|]. split.
  - intros k Hk.
    assert (E : getItem (fold_left removeItem ks s) k = None).
    { rewrite getItem_fold_removeItem.
      destruct (existsb (fun x => String.eqb x k) ks) eqn:Ex; [reflexivity|].
      destruct (getItem s k) as [v|] eqn:G; [|reflexivity].
      exfalso.
      assert (Hin : In k ks).
      { apply filter_In. split; [|exact Hk].
        apply getAllKeys_getItem. rewrite G. discriminate. }
      assert (Ht : existsb (fun x => String.eqb x k) ks = true).
      { apply existsb_exists. exists k. split; [exact Hin | apply String.eqb_refl]. }
      congruence. }
    split; [exact E|].
    intro Hin. apply getAllKeys_getItem in Hin. contradiction.
  - intros k Hk.
    assert (E : getItem (fold_left removeItem ks s) k = getItem s k).
    { rewrite getItem_fold_removeItem.
      destruct (existsb (fun x => String.eqb x k) ks) eqn:Ex; [|reflexivity].
      exfalso. apply existsb_exists in Ex. destruct Ex as [x [Hin Hx]].
      apply String.eqb_eq in Hx. subst x.
      apply filter_In in Hin. destruct Hin as [_ Hp]. congruence. }
    split; [exact E|].
    rewrite !getAllKeys_getItem, E. reflexivity.
Qed.

End StoreProperties.

(** ** Strings and percent-encoding *)

Ltac each_byte c :=
  destruct c as [[] [] [] [] [] [] [] []].

Lemma hexValue_hexHigh : forall c, JS.hexValue (JS.hexHigh c) = Some (JS.code c / 16)%N.
Proof. intro c. each_byte c; reflexivity. Qed.

Lemma hexValue_hexLow : forall c, JS.hexValue (JS.hexLow c) = Some (JS.code c mod 16)%N.
Proof. intro c. each_byte c; reflexivity. Qed.

Lemma byte_of_hex : forall c,
  ascii_of_N (16 * (JS.code c / 16) + JS.code c mod 16) = c.
Proof.
  intro c. rewrite <- N.div_mod by discriminate. apply ascii_N_embedding.
Qed.

Lemma uriUnescaped_not_special : forall c,
  JS.uriUnescaped c = true ->
  Ascii.eqb c "%" = false /\ Ascii.eqb c "/" = false /\ (JS.code c <? 128)%N = true.
Proof. intro c. each_byte c; intro E; try discriminate E; repeat split. Qed.

Lemma hex_not_slash : forall c,
  Ascii.eqb (JS.hexHigh c) "/" = false /\ Ascii.eqb (JS.hexLow c) "/" = false.
Proof. intro c. each_byte c; split; reflexivity. Qed.

Lemma unescape_encodeURIComponent : forall s,
  JS.unescape (JS.encodeURIComponent s) = Some (written s).
Proof.
  induction s as [|c r IH]; simpl; [reflexivity|].
  destruct (JS.uriUnescaped c) eqn:U.
  - destruct (uriUnescaped_not_special c U) as [P _].
    simpl. rewrite P, IH. reflexivity.
  - cbn [JS.unescape Ascii.eqb Bool.eqb andb].
    rewrite hexValue_hexHigh, hexValue_hexLow, byte_of_hex, IH. reflexivity.
Qed.

Lemma high_octet_escaped : forall c,
  (JS.code c <? 128)%N = false -> JS.uriUnescaped c = false.
Proof.
  intros c Hc. destruct (JS.uriUnescaped c) eqn:U; [|reflexivity].
  destruct (uriUnescaped_not_special c U) as [_ [_ L]]. congruence.
Qed.

Lemma sequenceLength_high : forall c n,
  JS.sequenceLength c = S (S n) -> (JS.code c <? 128)%N = false.
Proof.
  intros c n. unfold JS.sequenceLength.
  destruct (JS.code c <? 128)%N; [discriminate | reflexivity].
Qed.

Lemma sequenceLength_low : forall c,
  JS.sequenceLength c = 1 -> (JS.code c <? 128)%N = true.
Proof.
  intros c. unfold JS.sequenceLength.
  destruct (JS.code c <? 128)%N; [reflexivity|].
  destruct (JS.code c <? 192)%N; [discriminate|].
  destruct (JS.code c <? 224)%N; [discriminate|].
  destruct (JS.code c <? 240)%N; [discriminate|].
  destruct (JS.code c <? 248)%N; discriminate.
Qed.

Lemma continuation_high : forall c,
  JS.continuation c = true -> (JS.code c <? 128)%N = false.
Proof.
  intros c. unfold JS.continuation, JS.between. intro E.
  apply andb_true_iff in E. destruct E as [L _].
  apply N.leb_le in L. apply N.ltb_ge. exact L.
Qed.

Lemma valid2_continuation : forall b1 b2,
  JS.valid2 b1 b2 = true -> JS.continuation b2 = true.
Proof.
  intros b1 b2 E. unfold JS.valid2 in E. apply andb_true_iff in E. tauto.
Qed.

Lemma between_continuation : forall lo hi c,
  (128 <=? lo)%N = true -> (hi <=? 191)%N = true ->
  JS.between lo hi c = true -> JS.continuation c = true.
Proof.
  intros lo hi c Hlo Hhi E. unfold JS.continuation, JS.between in *.
  apply andb_true_iff in E. destruct E as [A B].
  apply N.leb_le in Hlo, Hhi, A, B.
  apply andb_true_iff. split; apply N.leb_le; lia.
Qed.

Lemma valid3_continuation : forall b1 b2 b3,
  JS.valid3 b1 b2 b3 = true ->
  JS.continuation b2 = true /\ JS.continuation b3 = true.
Proof.
  intros b1 b2 b3 E. unfold JS.valid3 in E.
  apply andb_true_iff in E. destruct E as [E E3]. split; [|exact E3].
  repeat (apply orb_true_iff in E; destruct E as [E|E]);
    apply andb_true_iff in E; destruct E as [_ E]; try exact E;
    eapply between_continuation; try exact E; reflexivity.
Qed.

Lemma valid4_continuation : forall b1 b2 b3 b4,
  JS.valid4 b1 b2 b3 b4 = true ->
  JS.continuation b2 = true /\ JS.continuation b3 = true /\ JS.continuation b4 = true.
Proof.
  intros b1 b2 b3 b4 E. unfold JS.valid4 in E.
  apply andb_true_iff in E. destruct E as [E E4].
  apply andb_true_iff in E. destruct E as [E E3].
  split; [|split; assumption].
  repeat (apply orb_true_iff in E; destruct E as [E|E]);
    apply andb_true_iff in E; destruct E as [_ E]; try exact E;
    eapply between_continuation; try exact E; reflexivity.
Qed.

Lemma written_high : forall c r,
  (JS.code c <? 128)%N = false -> written (String c r) = JS.Esc c :: written r.
Proof. intros c r Hc. simpl. rewrite (high_octet_escaped c Hc). reflexivity. Qed.

Lemma octets_written_upto : forall n s,
  String.length s <= n ->
  JS.well_formed_utf8 s = true -> JS.octets (written s) = Some s.
Proof.
  induction n as [|n IH]; intros s Hlen Hwf.
  - destruct s; [reflexivity | simpl in Hlen; lia].
  - destruct s as [|b1 r]; [reflexivity|].
    simpl in Hlen. simpl in Hwf.
    destruct (JS.sequenceLength b1) as [|[|[|[|[|k]]]]] eqn:L; try discriminate Hwf.
    + (* one octet *)
      assert (Hr : JS.octets (written r) = Some r) by (apply IH; [lia | exact Hwf]).
      simpl. destruct (JS.uriUnescaped b1); simpl; [|rewrite L]; rewrite Hr; reflexivity.
    + (* two octets *)
      destruct r as [|b2 r2]; [discriminate|].
      apply andb_true_iff in Hwf. destruct Hwf as [V Hwf].
      assert (Hr : JS.octets (written r2) = Some r2)
        by (apply IH; [simpl in Hlen; lia | exact Hwf]).
      rewrite written_high by (eapply sequenceLength_high; exact L).
      rewrite written_high
        by (apply continuation_high; eapply valid2_continuation; exact V).
      simpl. rewrite L, V, Hr. reflexivity.
    + (* three octets *)
      destruct r as [|b2 [|b3 r3]]; try discriminate.
      apply andb_true_iff in Hwf. destruct Hwf as [V Hwf].
      assert (Hr : JS.octets (written r3) = Some r3)
        by (apply IH; [simpl in Hlen; lia | exact Hwf]).
      destruct (valid3_continuation _ _ _ V) as [C2 C3].
      rewrite written_high by (eapply sequenceLength_high; exact L).
      rewrite written_high by (apply continuation_high; exact C2).
      rewrite written_high by (apply continuation_high; exact C3).
      simpl. rewrite L, V, Hr. reflexivity.
    + (* four octets *)
      destruct r as [|b2 [|b3 [|b4 r4]]]; try discriminate.
      apply andb_true_iff in Hwf. destruct Hwf as [V Hwf].
      assert (Hr : JS.octets (written r4) = Some r4)
        by (apply IH; [simpl in Hlen; lia | exact Hwf]).
      destruct (valid4_continuation _ _ _ _ V) as [C2 [C3 C4]].
      rewrite written_high by (eapply sequenceLength_high; exact L).
      rewrite written_high by (apply continuation_high; exact C2).
      rewrite written_high by (apply continuation_high; exact C3).
      rewrite written_high by (apply continuation_high; exact C4).
      simpl. rewrite L, V, Hr. reflexivity.
Qed.

(** Decoding undoes encoding. *)
Lemma decode_encodeURIComponent : forall s,
  JS.well_formed_utf8 s = true ->
  JS.decodeURIComponent (JS.encodeURIComponent s) = Some s.
Proof.
  intros s Hwf. unfold JS.decodeURIComponent.
  rewrite unescape_encodeURIComponent.
  apply (octets_written_upto (String.length s)); [lia | exact Hwf].
Qed.

(** The separator does not occur in an encoded component. *)
Lemma split_encodeURIComponent : forall s,
  JS.split "/" (JS.encodeURIComponent s) = [JS.encodeURIComponent s].
Proof.
  induction s as [|c r IH]; [reflexivity|].
  simpl. destruct (JS.uriUnescaped c) eqn:U.
  - destruct (uriUnescaped_not_special c U) as [_ [P _]].
    simpl. rewrite P, IH. reflexivity.
  - destruct (hex_not_slash c) as [P Q].
    simpl. rewrite P, Q, IH. reflexivity.
Qed.

Lemma split_append : forall a b,
  JS.split "/" a = [a] ->
  JS.split "/" (a ++ String "/" b) = a :: JS.split "/" b.
Proof.
  induction a as [|c a IH]; intros b Ha; [reflexivity|].
  simpl in Ha. simpl.
  destruct (Ascii.eqb c "/") eqn:E; [discriminate|].
  assert (Ha' : JS.split "/" a = [a]).
  { destruct (JS.split "/" a) as [|h t] eqn:Sa.
    - destruct a; simpl in Sa; [discriminate|].
      destruct (Ascii.eqb a "/"); [discriminate|].
      destruct (JS.split "/" a0); discriminate.
    - injection Ha as -> ->. reflexivity. }
  rewrite (IH b Ha'). reflexivity.
Qed.

Lemma append_assoc : forall a b c : string, ((a ++ b) ++ c = a ++ b ++ c)%string.
Proof.
  induction a as [|x a IH]; intros b c; simpl; [reflexivity|].
  rewrite IH. reflexivity.
Qed.

Lemma startsWith_append : forall p x, JS.startsWith (p ++ x) p = true.
Proof.
  unfold JS.startsWith. induction p as [|c p IH]; intro x; simpl.
  - destruct x; reflexivity.
  - destruct (ascii_dec c c) as [_|N]; [apply IH | contradiction].
Qed.

Lemma split_keyEndToEndInboundGroupSession : forall senderKey sessionId,
  JS.split "/" (keyEndToEndInboundGroupSession senderKey sessionId) =
  ["crypto.inboundgroupsessions";
   JS.encodeURIComponent senderKey; JS.encodeURIComponent sessionId].
Proof.
  intros a b.
  change (keyEndToEndInboundGroupSession a b)
    with ("crypto.inboundgroupsessions"
          ++ String "/" (JS.encodeURIComponent a ++ String "/" (JS.encodeURIComponent b))).
  rewrite split_append by reflexivity.
  rewrite split_append by apply split_encodeURIComponent.
  rewrite split_encodeURIComponent. reflexivity.
Qed.

Lemma split_backupName : forall senderKey sessionId,
  JS.split "/" (backupName senderKey sessionId) =
  [JS.encodeURIComponent senderKey; JS.encodeURIComponent sessionId].
Proof.
  intros a b. unfold backupName.
  change (JS.encodeURIComponent a ++ "/" ++ JS.encodeURIComponent b)
    with (JS.encodeURIComponent a ++ String "/" (JS.encodeURIComponent b)).
  rewrite split_append by apply split_encodeURIComponent.
  rewrite split_encodeURIComponent. reflexivity.
Qed.

Lemma split_keyEndToEndSession : forall deviceKey sessionKey,
  JS.split "/" (keyEndToEndSession deviceKey sessionKey) =
  ["crypto.sessions";
   JS.encodeURIComponent deviceKey; JS.encodeURIComponent sessionKey].
Proof.
  intros a b. unfold keyEndToEndSession, prefixEndToEndSession.
  rewrite !append_assoc.
  change (END_TO_END_SESSION_PREFIX ++ JS.encodeURIComponent a ++ "/" ++ JS.encodeURIComponent b)
    with ("crypto.sessions"
          ++ String "/" (JS.encodeURIComponent a ++ String "/" (JS.encodeURIComponent b))).
  rewrite split_append by reflexivity.
  rewrite split_append by apply split_encodeURIComponent.
  rewrite split_encodeURIComponent. reflexivity.
Qed.

Lemma keyEndToEndInboundGroupSession_prefix : forall senderKey sessionId,
  JS.startsWith (keyEndToEndInboundGroupSession senderKey sessionId)
    INBOUND_SESSION_PREFIX = true.
Proof. intros. apply startsWith_append. Qed.

Lemma group_key_is_not_withheld_key : forall a b c d,
  String.eqb (keyEndToEndInboundGroupSession a b)
    (keyEndToEndInboundGroupSessionWithheld c d) = false.
Proof. intros. reflexivity. Qed.

(** ** Reading the store *)

Section Reading.

Context {S : Type} `{LawfulAsyncStore S} `{JSONCodec}.

Lemma bind_decode : forall St C B (k : string -> Op St C B) x s,
  bind (decode x) k s =
  match JS.decodeURIComponent x with
  | Some d => k d s
  | None => mkResult s [] (inl URIError)
  end.
Proof.
  intros. destruct (JS.decodeURIComponent x) as [d|] eqn:D.
  - apply bind_value. unfold decode. rewrite D. reflexivity.
  - unfold bind, decode. rewrite D. reflexivity.
Qed.

Lemma bind_getJsonItem : forall C B (k : JSON -> Op S C B) key s,
  bind (_getJsonItem key) k s =
  match stored s key with
  | Some v => k v s
  | None => mkResult s [] (inl SyntaxError)
  end.
Proof.
  intros. destruct (stored s key) as [v|] eqn:D.
  - apply bind_value. rewrite _getJsonItem_stored, D. reflexivity.
  - unfold bind. rewrite _getJsonItem_stored, D. reflexivity.
Qed.

Lemma bind_gets : forall St C A B (f : St -> A) (k : A -> Op St C B) s,
  bind (gets f) k s = k (f s) s.
Proof. intros. apply bind_value. reflexivity. Qed.

Lemma bind_call : forall St C B (c : C) (k : unit -> Op St C B) s,
  bind (call c) k s =
  mkResult (state (k tt s)) (Call c :: trace (k tt s)) (outcome (k tt s)).
Proof. intros. reflexivity. Qed.

Lemma bind_consoleError : forall St C B m (k : unit -> Op St C B) s,
  bind (consoleError m) k s =
  mkResult (state (k tt s)) (ConsoleError m :: trace (k tt s)) (outcome (k tt s)).
Proof. intros. reflexivity. Qed.

Lemma stored_setItem_same : forall (s : S) key text,
  stored (setItem s key text) key = JSON_parse text.
Proof.
  intros. unfold stored. rewrite getItem_setItem, String.eqb_refl. reflexivity.
Qed.

Lemma stored_setItem_other : forall (s : S) key text k,
  String.eqb key k = false -> stored (setItem s key text) k = stored s k.
Proof.
  intros s key text k E. unfold stored. rewrite getItem_setItem, E. reflexivity.
Qed.

(** *** Listing the inbound group sessions *)

Lemma groupSessionAt_call : forall (s : S) k e,
  groupSessionAt s k = Some e ->
  (senderKey <- decode (JS.part (JS.split "/" k) 1) ;;
   sessionId <- decode (JS.part (JS.split "/" k) 2) ;;
   sessionData <- _getJsonItem k ;;
   call (Some (mkISession senderKey sessionId sessionData))) s =
  mkResult s [Call (Some e)] (inr tt).
Proof.
  intros s k e E. unfold groupSessionAt in E.
  rewrite bind_decode.
  destruct (JS.decodeURIComponent (JS.part (JS.split "/" k) 1)) as [a|]; [|discriminate].
  rewrite bind_decode.
  destruct (JS.decodeURIComponent (JS.part (JS.split "/" k) 2)) as [b|]; [|discriminate].
  rewrite bind_getJsonItem.
  destruct (stored s k) as [d|]; [|discriminate].
  injection E as <-. reflexivity.
Qed.

Lemma forEach_groupSessions : forall ks (s : S) entries,
  map (groupSessionAt s) ks = map Some entries ->
  forEach ks
    (fun k =>
       senderKey <- decode (JS.part (JS.split "/" k) 1) ;;
       sessionId <- decode (JS.part (JS.split "/" k) 2) ;;
       sessionData <- _getJsonItem k ;;
       call (Some (mkISession senderKey sessionId sessionData))) s =
  mkResult s (map (fun e => Call (Some e)) entries) (inr tt).
Proof.
  induction ks as [|k r IH]; intros s entries E.
  - destruct entries; [reflexivity | discriminate].
  - destruct entries as [|e es]; [discriminate|].
    simpl in E. injection E as Ek Er.
    cbn [forEach].
    erewrite bind_observed by (apply groupSessionAt_call; exact Ek).
    cbv beta. rewrite (IH s es Er). reflexivity.
Qed.

Lemma getAllEndToEndInboundGroupSessions_result : forall (s : S) entries,
  map (groupSessionAt s) (groupSessionKeys s) = map Some entries ->
  doTxn getAllEndToEndInboundGroupSessions s =
  mkResult s (map (fun e => Call (Some e)) entries ++ [Call None])
    (inr (FulfilledWith tt)).
Proof.
  intros s entries E. unfold getAllEndToEndInboundGroupSessions.
  rewrite doTxn_submit.
  rewrite bind_gets. fold (groupSessionKeys s). cbv zeta.
  erewrite bind_observed by (apply forEach_groupSessions; exact E).
  reflexivity.
Qed.

Lemma calls_entries : forall A C (f : A -> C) (l : list A),
  calls (map (fun e => Call (f e)) l) = map f l.
Proof. induction l as [|x r IH]; simpl; [reflexivity | rewrite IH; reflexivity]. Qed.

Lemma all_read : forall A B (f : A -> option B) l,
  (forall x, In x l -> f x <> None) -> exists ys, map f l = map Some ys.
Proof.
  induction l as [|x r IH]; intro Hall.
  - exists []. reflexivity.
  - destruct IH as [ys E]; [intros; apply Hall; right; assumption|].
    destruct (f x) as [y|] eqn:Fx.
    + exists (y :: ys). simpl. rewrite Fx, E. reflexivity.
    + exfalso. apply (Hall x); [left; reflexivity | exact Fx].
Qed.

(** *** One inbound group session *)

Lemma getEndToEndInboundGroupSession_result : forall (s : S) a b g w,
  stored s (keyEndToEndInboundGroupSession a b) = Some g ->
  stored s (keyEndToEndInboundGroupSessionWithheld a b) = Some w ->
  doTxn (getEndToEndInboundGroupSession a b) s =
  mkResult s [Call (g, w)] (inr (FulfilledWith tt)).
Proof.
  intros s a b g w Eg Ew. unfold getEndToEndInboundGroupSession.
  rewrite doTxn_submit, bind_getJsonItem, Eg, bind_getJsonItem, Ew. reflexivity.
Qed.

Lemma storeEndToEndInboundGroupSession_result : forall C (s : S) a b data,
  doTxn (C := C) (storeEndToEndInboundGroupSession a b data) s =
  mkResult (setItem s (keyEndToEndInboundGroupSession a b) (JSON_stringify data)) []
    (inr (FulfilledWith tt)).
Proof.
  intros. unfold storeEndToEndInboundGroupSession. rewrite doTxn_submit. reflexivity.
Qed.

Lemma submit_open : forall St C (func : Op (Transaction * St) C unit) t (s : St),
  resolve t = true ->
  submit func (t, s) =
  let r := func (mkTransaction (numOps t + 1) (error t) (resolve t) (reject t) (promise t), s) in
  mkResult
    (onOperationEnded
       match outcome r with
       | inl e => recordError e (fst (state r))
       | inr _ => fst (state r)
       end,
     snd (state r))
    (trace r) (inr tt).
Proof.
  intros St C func t s Hr.
  unfold submit, unawaited, execute, bind, ret.
  cbn [fst snd state trace outcome].
  rewrite (onOperationStarted_open t Hr).
  cbn [fst snd state trace outcome]. rewrite app_nil_r. reflexivity.
Qed.

Lemma onStorage_getJsonItem : forall C (s : S) t key v,
  stored s key = Some v ->
  onStorage (C := C) (_getJsonItem key) (t, s) = mkResult (t, s) [] (inr v).
Proof.
  intros C s t key v E. unfold onStorage. cbn [fst snd].
  rewrite _getJsonItem_stored, E. reflexivity.
Qed.

Lemma addEndToEndInboundGroupSession_result : forall C (s : S) a b data existing,
  stored s (keyEndToEndInboundGroupSession a b) = Some existing ->
  doTxn (C := C) (addEndToEndInboundGroupSession a b data) s =
  mkResult
    (if truthy existing then s
     else setItem s (keyEndToEndInboundGroupSession a b) (JSON_stringify data))
    [] (inr (FulfilledWith tt)).
Proof.
  intros C s a b data existing E.
  unfold doTxn, addEndToEndInboundGroupSession.
  rewrite submit_open by reflexivity. cbv zeta.
  rewrite (bind_value _ _ _ _ _ _ _ _ _ (onStorage_getJsonItem C s _ _ _ E)).
  destruct (truthy existing); cbn [negb].
  - reflexivity.
  - unfold storeEndToEndInboundGroupSession.
    rewrite submit_open by reflexivity. reflexivity.
Qed.

(** C3.  Where no session is stored yet for [senderKey] and [sessionId],
    adding [V1] and then adding [V2] leaves [V1]: both transactions resolve
    and [getEndToEndInboundGroupSession] then calls back with [V1]. *)
Theorem add_is_write_once : forall C (s : S) senderKey sessionId V1 V2 withheld,
  getItem s (keyEndToEndInboundGroupSession senderKey sessionId) = None ->
  truthy V1 = true ->
  JSON_parse (JSON_stringify V1) = Some V1 ->
  stored s (keyEndToEndInboundGroupSessionWithheld senderKey sessionId) = Some withheld ->
  let r1 := doTxn (C := C) (addEndToEndInboundGroupSession senderKey sessionId V1) s in
  let r2 := doTxn (C := C) (addEndToEndInboundGroupSession senderKey sessionId V2) (state r1) in
  let r3 := doTxn (getEndToEndInboundGroupSession senderKey sessionId) (state r2) in
  outcome r1 = inr (FulfilledWith tt)
  /\ outcome r2 = inr (FulfilledWith tt)
  /\ calls (trace r3) = [(V1, withheld)]
  /\ outcome r3 = inr (FulfilledWith tt).
Proof.
  intros C s a b V1 V2 w Habsent Ht Hcodec Hw. cbv zeta.
  assert (E0 : stored s (keyEndToEndInboundGroupSession a b) = Some JNull)
    by (unfold stored; rewrite Habsent; reflexivity).
  rewrite (addEndToEndInboundGroupSession_result C s a b V1 JNull E0).
  cbn [state truthy outcome].
  set (s1 := setItem s (keyEndToEndInboundGroupSession a b) (JSON_stringify V1)).
  assert (Es : stored s1 (keyEndToEndInboundGroupSession a b) = Some V1)
    by (unfold s1; rewrite stored_setItem_same; exact Hcodec).
  assert (Ew : stored s1 (keyEndToEndInboundGroupSessionWithheld a b) = Some w)
    by (unfold s1; rewrite stored_setItem_other
          by apply group_key_is_not_withheld_key; exact Hw).
  rewrite (addEndToEndInboundGroupSession_result C s1 a b V2 V1 Es), Ht.
  cbn [state outcome].
  rewrite (getEndToEndInboundGroupSession_result s1 a b V1 w Es Ew).
  repeat split; reflexivity.
Qed.

(** C4.  A session stored under identifiers that may contain the separator
    is listed with exactly these identifiers and its data, the listing ends
    with the sentinel, and reading it by its identifiers gives the data. *)
Theorem group_session_round_trip :
  forall C (s : S) senderKey sessionId data withheld,
    JS.well_formed_utf8 senderKey = true ->
    JS.well_formed_utf8 sessionId = true ->
    JSON_parse (JSON_stringify data) = Some data ->
    (forall k, In k (groupSessionKeys s) -> groupSessionAt s k <> None) ->
    stored s (keyEndToEndInboundGroupSessionWithheld senderKey sessionId) = Some withheld ->
    let r1 := doTxn (C := C) (storeEndToEndInboundGroupSession senderKey sessionId data) s in
    let r2 := doTxn getAllEndToEndInboundGroupSessions (state r1) in
    let r3 := doTxn (getEndToEndInboundGroupSession senderKey sessionId) (state r1) in
    outcome r1 = inr (FulfilledWith tt)
    /\ In (Some (mkISession senderKey sessionId data)) (calls (trace r2))
    /\ last (calls (trace r2)) (Some (mkISession "" "" JNull)) = None
    /\ calls (trace r3) = [(data, withheld)].
Proof.
  intros C s a b data w Wa Wb Hcodec Hall Hw. cbv zeta.
  rewrite storeEndToEndInboundGroupSession_result. cbn [state outcome].
  set (key := keyEndToEndInboundGroupSession a b) in *.
  set (s1 := setItem s key (JSON_stringify data)).
  assert (Es : stored s1 key = Some data)
    by (unfold s1; rewrite stored_setItem_same; exact Hcodec).
  assert (Ew : stored s1 (keyEndToEndInboundGroupSessionWithheld a b) = Some w)
    by (unfold s1; rewrite stored_setItem_other
          by apply group_key_is_not_withheld_key; exact Hw).
  assert (Hat : groupSessionAt s1 key = Some (mkISession a b data)).
  { unfold groupSessionAt, key. rewrite split_keyEndToEndInboundGroupSession.
    unfold JS.part. cbn [nth].
    rewrite (decode_encodeURIComponent a Wa), (decode_encodeURIComponent b Wb).
    fold key. rewrite Es. reflexivity. }
  assert (Hin : In key (groupSessionKeys s1)).
  { apply filter_In. split; [|apply keyEndToEndInboundGroupSession_prefix].
    apply getAllKeys_getItem. unfold s1.
    rewrite getItem_setItem, String.eqb_refl. discriminate. }
  assert (Hall1 : forall k, In k (groupSessionKeys s1) -> groupSessionAt s1 k <> None).
  { intros k Hk. destruct (String.eqb key k) eqn:Ek.
    - apply String.eqb_eq in Ek. subst k. rewrite Hat. discriminate.
    - apply filter_In in Hk. destruct Hk as [Hk Hp].
      apply getAllKeys_getItem in Hk. unfold s1 in Hk.
      rewrite getItem_setItem, Ek in Hk.
      assert (Hk0 : In k (groupSessionKeys s))
        by (apply filter_In; split; [apply getAllKeys_getItem; exact Hk | exact Hp]).
      specialize (Hall k Hk0).
      unfold groupSessionAt in *. unfold s1.
      rewrite (stored_setItem_other s key _ k Ek). exact Hall. }
  destruct (all_read _ _ (groupSessionAt s1) _ Hall1) as [entries Hentries].
  rewrite (getAllEndToEndInboundGroupSessions_result s1 entries Hentries).
  rewrite (getEndToEndInboundGroupSession_result s1 a b data w Es Ew).
  cbn [trace].
  rewrite calls_app, (calls_entries _ _ Some). cbn [calls].
  split; [reflexivity|]. split; [|split; [|reflexivity]].
  - apply in_or_app. left. rewrite <- Hentries, <- Hat.
    apply in_map. exact Hin.
  - apply last_last.
Qed.

End Reading.

(** ** The mock backend *)

Lemma MockAsyncStore_get_set : forall data k v k',
  MockAsyncStore.get (MockAsyncStore.set data k v) k' =
  if String.eqb k k' then Some v else MockAsyncStore.get data k'.
Proof.
  induction data as [|[k0 v0] r IH]; intros k v k'; simpl.
  - destruct (String.eqb k k'); reflexivity.
  - destruct (String.eqb k0 k) eqn:E0; simpl.
    + apply String.eqb_eq in E0. subst k0.
      destruct (String.eqb k k'); reflexivity.
    + rewrite IH. destruct (String.eqb k0 k') eqn:E1; [|reflexivity].
      apply String.eqb_eq in E1. subst k'.
      rewrite String.eqb_sym, E0. reflexivity.
Qed.

Lemma MockAsyncStore_get_delete : forall data k k',
  MockAsyncStore.get (MockAsyncStore.delete data k) k' =
  if String.eqb k k' then None else MockAsyncStore.get data k'.
Proof.
  induction data as [|[k0 v0] r IH]; intros k k'.
  - simpl. destruct (String.eqb k k'); reflexivity.
  - change (MockAsyncStore.delete ((k0, v0) :: r) k)
      with (if negb (String.eqb k0 k)
            then (k0, v0) :: MockAsyncStore.delete r k
            else MockAsyncStore.delete r k).
    destruct (String.eqb k0 k) eqn:E0; cbn [negb MockAsyncStore.get]; rewrite IH.
    + apply String.eqb_eq in E0. subst k0.
      destruct (String.eqb k k'); reflexivity.
    + destruct (String.eqb k0 k') eqn:E1; [|reflexivity].
      apply String.eqb_eq in E1. subst k'.
      rewrite String.eqb_sym, E0. reflexivity.
Qed.

Lemma MockAsyncStore_keys_get : forall data k,
  In k (MockAsyncStore.keys data) <-> MockAsyncStore.get data k <> None.
Proof.
  induction data as [|[k0 v0] r IH]; intro k; simpl.
  - split; [contradiction | intro N; apply N; reflexivity].
  - destruct (String.eqb k0 k) eqn:E.
    + apply String.eqb_eq in E. split; [discriminate | intros _; left; exact E].
    + apply String.eqb_neq in E. rewrite <- IH.
      split; [intros [A|A]; [contradiction | exact A] | intro A; right; exact A].
Qed.

#[export] Instance MockAsyncStore_lawful : LawfulAsyncStore MockAsyncStore.t.
Proof.
  split.
  - exact MockAsyncStore_get_set.
  - exact MockAsyncStore_get_delete.
  - exact MockAsyncStore_keys_get.
Qed.

(** ** Listings *)

Section Listings.

Context {S : Type} `{LawfulAsyncStore S} `{JSONCodec}.

Lemma getEndToEndSessions_loop_result : forall deviceKey sessions acc (s : S),
  Forall (fun e => JS.well_formed_utf8 (fst e) = true
                   /\ stored s (keyEndToEndSession deviceKey (fst e)) = Some (snd e))
    sessions ->
  getEndToEndSessions_loop deviceKey
    (map (fun e => keyEndToEndSession deviceKey (fst e)) sessions) acc s =
  mkResult s []
    (inr (fold_left (fun m e => Obj.set (fst e) (snd e) m) sessions acc)).
Proof.
  induction sessions as [|[id v] r IH]; intros acc s Hall; [reflexivity|].
  inversion Hall as [|x l [Wid Ev] Hr]; subst. cbn [fst snd] in *.
  cbn [map getEndToEndSessions_loop fold_left fst snd].
  rewrite bind_decode, split_keyEndToEndSession. unfold JS.part. cbn [nth].
  rewrite (decode_encodeURIComponent id Wid).
  rewrite bind_getJsonItem, Ev.
  apply IH. exact Hr.
Qed.

(** C2 (as amended).  [getAllEndToEndInboundGroupSessions] calls back once
    for each inbound group session, in the order of the key listing, and
    then once with [null]; [getEndToEndSessions] calls back once only, with
    the map from the session identifiers of the device to the sessions. *)
Theorem listing_deliveries : forall (s : S),
  (forall entries,
     map (groupSessionAt s) (groupSessionKeys s) = map Some entries ->
     let r := doTxn getAllEndToEndInboundGroupSessions s in
     calls (trace r) = (map Some entries ++ [None])%list
     /\ outcome r = inr (FulfilledWith tt))
  /\ (forall deviceKey sessions,
        filter (fun k => JS.startsWith k (prefixEndToEndSession deviceKey)) (getAllKeys s)
        = map (fun e => keyEndToEndSession deviceKey (fst e)) sessions ->
        Forall (fun e => JS.well_formed_utf8 (fst e) = true
                         /\ stored s (keyEndToEndSession deviceKey (fst e)) = Some (snd e))
          sessions ->
        let r := doTxn (getEndToEndSessions deviceKey) s in
        calls (trace r) =
          [JObj (fold_left (fun m e => Obj.set (fst e) (snd e) m) sessions [])]
        /\ outcome r = inr (FulfilledWith tt)).
Proof.
  intro s. split.
  - intros entries E. cbv zeta.
    rewrite (getAllEndToEndInboundGroupSessions_result s entries E). cbn [trace outcome].
    rewrite calls_app, (calls_entries _ _ Some). split; reflexivity.
  - intros deviceKey sessions Ek Hall. cbv zeta.
    unfold getEndToEndSessions. rewrite doTxn_submit.
    rewrite bind_gets. cbv zeta. rewrite Ek.
    rewrite (bind_value _ _ _ _ _ _ _ _ _
               (getEndToEndSessions_loop_result deviceKey sessions [] s Hall)).
    split; reflexivity.
Qed.

Lemma forEach_sessions : forall (sessions : list (string * string * JSON)) (s : S),
  Forall (fun e => JS.well_formed_utf8 (fst (fst e)) = true
                   /\ JS.well_formed_utf8 (snd (fst e)) = true
                   /\ stored s (keyEndToEndSession (fst (fst e)) (snd (fst e)))
                      = Some (snd e))
    sessions ->
  forEach (map (fun e => keyEndToEndSession (fst (fst e)) (snd (fst e))) sessions)
    (fun k =>
       deviceKey <- decode (JS.part (JS.split "/" k) 1) ;;
       sessionId <- decode (JS.part (JS.split "/" k) 2) ;;
       sessionInfo <- _getJsonItem (keyEndToEndSession deviceKey sessionId) ;;
       call sessionInfo) s =
  mkResult s (map (fun e => Call (snd e)) sessions) (inr tt).
Proof.
  induction sessions as [|[[d i] v] r IH]; intros s Hall; [reflexivity|].
  inversion Hall as [|x l [Wd [Wi Ev]] Hr]; subst. cbn [fst snd] in *.
  cbn [map forEach fst snd].
  assert (Step :
    (deviceKey <- decode (JS.part (JS.split "/" (keyEndToEndSession d i)) 1) ;;
     sessionId <- decode (JS.part (JS.split "/" (keyEndToEndSession d i)) 2) ;;
     sessionInfo <- _getJsonItem (keyEndToEndSession deviceKey sessionId) ;;
     call sessionInfo) s = mkResult s [Call v] (inr tt)).
  { rewrite bind_decode, split_keyEndToEndSession. unfold JS.part. cbn [nth].
    rewrite (decode_encodeURIComponent d Wd).
    rewrite bind_decode, (decode_encodeURIComponent i Wi).
    rewrite bind_getJsonItem, Ev. reflexivity. }
  rewrite (bind_observed _ _ _ _ _ _ _ _ _ _ Step).
  rewrite (IH s Hr). reflexivity.
Qed.

(** [getAllEndToEndSessions] calls back once for each session, and not once
    more: the list of its calls is the list of the stored sessions. *)
Lemma getAllEndToEndSessions_calls : forall (s : S) (sessions : list (string * string * JSON)),
  sessionKeys s = map (fun e => keyEndToEndSession (fst (fst e)) (snd (fst e))) sessions ->
  Forall (fun e => JS.well_formed_utf8 (fst (fst e)) = true
                   /\ JS.well_formed_utf8 (snd (fst e)) = true
                   /\ stored s (keyEndToEndSession (fst (fst e)) (snd (fst e)))
                      = Some (snd e))
    sessions ->
  calls (trace (doTxn getAllEndToEndSessions s)) = map snd sessions.
Proof.
  intros s sessions Ek Hall. unfold getAllEndToEndSessions.
  rewrite doTxn_submit. cbn [trace].
  rewrite bind_gets. fold (sessionKeys s). rewrite Ek.
  rewrite (forEach_sessions sessions s Hall). cbn [trace].
  apply (calls_entries _ _ snd).
Qed.

End Listings.

Lemma listing_deliveries_witness :
  calls (trace (doTxn getAllEndToEndInboundGroupSessions Scenario.withGroupSessions)) =
    [Some (mkISession "bob" "one" Scenario.groupSession1);
     Some (mkISession "bob" "two" Scenario.groupSession2); None]
  /\ calls (trace (doTxn (getEndToEndSessions "dev1") Scenario.withSessions)) =
       [JObj [("sess1", Scenario.session1); ("sess2", Scenario.session2)]].
Proof.
  destruct (listing_deliveries Scenario.withSessions) as [_ B].
  destruct (listing_deliveries Scenario.withGroupSessions) as [A _].
  split.
  - apply (A [mkISession "bob" "one" Scenario.groupSession1;
              mkISession "bob" "two" Scenario.groupSession2]).
    vm_compute. reflexivity.
  - apply (B "dev1" [("sess1", Scenario.session1); ("sess2", Scenario.session2)]).
    + vm_compute. reflexivity.
    + repeat constructor; vm_compute; reflexivity.
Defined.

(** C2 (as stated) fails for [getEndToEndSessions]: with two sessions stored
    for the device there is one call, and it does not carry [null]. *)
Lemma getEndToEndSessions_has_no_sentinel :
  ~ endsWithSentinel JNull
      (List.length
         (filter (fun k => JS.startsWith k (prefixEndToEndSession "dev1"))
            (getAllKeys Scenario.withSessions)))
      (calls (trace (doTxn (getEndToEndSessions "dev1") Scenario.withSessions))).
Proof.
  intros [l [Hl E]]. vm_compute in Hl. vm_compute in E.
  destruct l as [|x [|y [|z l]]]; simpl in Hl; try discriminate Hl.
  discriminate E.
Qed.

(** ** Batches and sessions needing backup *)

Lemma startsWith_split : forall p k,
  JS.startsWith k p = true -> exists r, k = (p ++ r)%string.
Proof.
  unfold JS.startsWith. induction p as [|c p IH]; intros k E.
  - exists k. reflexivity.
  - destruct k as [|d k]; simpl in E; [discriminate|].
    destruct (ascii_dec c d) as [->|N]; [|discriminate].
    destruct (IH k E) as [r ->]. exists r. reflexivity.
Qed.

(** No property of a Promise object is named like a key of an inbound group
    session. *)
Lemma inPromise_group_key : forall k p,
  JS.startsWith k INBOUND_SESSION_PREFIX = true -> inPromise k p = false.
Proof.
  intros k p E. destruct (startsWith_split _ _ E) as [r ->]. reflexivity.
Qed.

Lemma firstn_exact : forall A (l1 l2 : list A) n,
  List.length l1 = n -> firstn n (l1 ++ l2) = l1.
Proof.
  intros A l1 l2 n <-. rewrite firstn_app, Nat.sub_diag, firstn_all. simpl.
  apply app_nil_r.
Qed.

Section Batches.

Context {S : Type} `{LawfulAsyncStore S} `{JSONCodec}.

Variable SESSION_BATCH_SIZE : nat.

(** *** Sessions needing backup *)

Lemma getSessionsNeedingBackup_loop_state : forall C limit ks acc (s : S),
  state (getSessionsNeedingBackup_loop (C := C) limit ks acc s) = s.
Proof.
  induction ks as [|k r IH]; intros acc s; [reflexivity|].
  cbn [getSessionsNeedingBackup_loop]. cbv zeta.
  rewrite bind_decode.
  destruct (JS.decodeURIComponent (JS.part (JS.split "/" k) 0)) as [a|]; [|reflexivity].
  rewrite bind_decode.
  destruct (JS.decodeURIComponent (JS.part (JS.split "/" k) 1)) as [b|]; [|reflexivity].
  rewrite bind_getJsonItem.
  destruct (stored s (keyEndToEndInboundGroupSession a b)) as [d|]; [|reflexivity].
  destruct (truthy d); cbn [negb].
  - match goal with |- context [if ?c then _ else _] => destruct c end;
      [reflexivity | apply IH].
  - rewrite bind_consoleError. cbn [state]. apply IH.
Qed.

Lemma getSessionsNeedingBackup_state : forall C limit (s : S),
  state (getSessionsNeedingBackup (C := C) limit s) = s.
Proof.
  intros C limit s. unfold getSessionsNeedingBackup.
  rewrite bind_getJsonItem.
  destruct (stored s KEY_SESSIONS_NEEDING_BACKUP); [|reflexivity].
  apply getSessionsNeedingBackup_loop_state.
Qed.

Lemma getSessionsNeedingBackup_unfold : forall C limit (s : S) names,
  markedNames s = Some names ->
  getSessionsNeedingBackup (C := C) limit s =
  getSessionsNeedingBackup_loop limit names [] s.
Proof.
  intros C limit s names E. unfold getSessionsNeedingBackup, markedNames in *.
  rewrite bind_getJsonItem.
  destruct (stored s KEY_SESSIONS_NEEDING_BACKUP); [|discriminate].
  injection E as <-. reflexivity.
Qed.

Lemma getSessionsNeedingBackup_loop_outcome : forall C limit marked acc (s : S),
  (forall p, In p marked ->
     JS.well_formed_utf8 (fst p) = true /\ JS.well_formed_utf8 (snd p) = true
     /\ stored s (keyEndToEndInboundGroupSession (fst p) (snd p)) <> None) ->
  limit = 0 \/ List.length acc < limit ->
  outcome (getSessionsNeedingBackup_loop (C := C) limit
             (map (fun p => backupName (fst p) (snd p)) marked) acc s) =
  inr (limitTo limit (acc ++ flat_map (joined s) marked)%list).
Proof.
  induction marked as [|[a b] r IH]; intros acc s Hall Hacc.
  - cbn. rewrite app_nil_r. unfold limitTo.
    destruct (Nat.eqb_spec limit 0) as [E|E]; [reflexivity|].
    rewrite firstn_all2 by lia. reflexivity.
  - destruct (Hall (a, b) (or_introl eq_refl)) as [Wa [Wb Hd]]. cbn [fst snd] in *.
    assert (Hr : forall p, In p r ->
              JS.well_formed_utf8 (fst p) = true /\ JS.well_formed_utf8 (snd p) = true
              /\ stored s (keyEndToEndInboundGroupSession (fst p) (snd p)) <> None)
      by (intros p Hp; apply Hall; right; exact Hp).
    cbn [map getSessionsNeedingBackup_loop flat_map fst snd]. cbv zeta.
    rewrite split_backupName. unfold JS.part. cbn [nth].
    rewrite bind_decode, (decode_encodeURIComponent a Wa).
    rewrite bind_decode, (decode_encodeURIComponent b Wb).
    rewrite bind_getJsonItem. unfold joined at 1. cbn [fst snd].
    destruct (stored s (keyEndToEndInboundGroupSession a b)) as [d|]; [|contradiction].
    destruct (truthy d); cbn [negb].
    + destruct (negb (limit =? 0)%nat
                && (limit <=? List.length (acc ++ [mkISession a b d]))%nat) eqn:Stop.
      * apply andb_true_iff in Stop. destruct Stop as [L0 L1].
        apply negb_true_iff in L0. apply Nat.eqb_neq in L0. apply Nat.leb_le in L1.
        rewrite length_app in L1. cbn in L1.
        cbn [ret outcome]. unfold limitTo.
        destruct (Nat.eqb_spec limit 0) as [E|_]; [contradiction|].
        change (acc ++ [mkISession a b d] ++ flat_map (joined s) r)%list
          with (acc ++ (mkISession a b d :: flat_map (joined s) r))%list.
        rewrite (app_assoc acc [mkISession a b d] (flat_map (joined s) r)
                 : (acc ++ mkISession a b d :: flat_map (joined s) r
                    = (acc ++ [mkISession a b d]) ++ flat_map (joined s) r)%list).
        rewrite firstn_exact; [reflexivity|].
        rewrite length_app. cbn. lia.
      * rewrite IH; [|exact Hr|].
        -- rewrite <- app_assoc. reflexivity.
        -- apply andb_false_iff in Stop. destruct Stop as [L0|L1].
           ++ left. apply negb_false_iff in L0. apply Nat.eqb_eq in L0. exact L0.
           ++ right. apply Nat.leb_gt in L1. exact L1.
    + rewrite bind_consoleError. cbn [outcome app].
      apply IH; assumption.
Qed.

Lemma getSessionsNeedingBackup_loop_logged : forall C marked acc (s : S),
  (forall p, In p marked ->
     JS.well_formed_utf8 (fst p) = true /\ JS.well_formed_utf8 (snd p) = true
     /\ stored s (keyEndToEndInboundGroupSession (fst p) (snd p)) <> None) ->
  logged (trace (getSessionsNeedingBackup_loop (C := C) 0
                   (map (fun p => backupName (fst p) (snd p)) marked) acc s)) =
  flat_map (missing s) marked.
Proof.
  induction marked as [|[a b] r IH]; intros acc s Hall; [reflexivity|].
  destruct (Hall (a, b) (or_introl eq_refl)) as [Wa [Wb Hd]]. cbn [fst snd] in *.
  assert (Hr : forall p, In p r ->
            JS.well_formed_utf8 (fst p) = true /\ JS.well_formed_utf8 (snd p) = true
            /\ stored s (keyEndToEndInboundGroupSession (fst p) (snd p)) <> None)
    by (intros p Hp; apply Hall; right; exact Hp).
  cbn [map getSessionsNeedingBackup_loop flat_map fst snd]. cbv zeta.
  rewrite split_backupName. unfold JS.part. cbn [nth].
  rewrite bind_decode, (decode_encodeURIComponent a Wa).
  rewrite bind_decode, (decode_encodeURIComponent b Wb).
  rewrite bind_getJsonItem. unfold missing at 1. cbn [fst snd].
  destruct (stored s (keyEndToEndInboundGroupSession a b)) as [d|]; [|contradiction].
  destruct (truthy d); cbn [negb Nat.eqb andb app].
  - apply IH. exact Hr.
  - rewrite bind_consoleError. cbn [trace logged]. rewrite IH by exact Hr. reflexivity.
Qed.

Lemma getSessionsNeedingBackup_loop_bound : forall C limit ks acc (s : S) l,
  List.length acc < limit ->
  outcome (getSessionsNeedingBackup_loop (C := C) limit ks acc s) = inr l ->
  List.length l <= limit.
Proof.
  induction ks as [|k r IH]; intros acc s l Hacc E.
  - cbn in E. injection E as <-. lia.
  - cbn [getSessionsNeedingBackup_loop] in E. cbv zeta in E.
    rewrite bind_decode in E.
    destruct (JS.decodeURIComponent (JS.part (JS.split "/" k) 0)) as [a|];
      [|discriminate].
    rewrite bind_decode in E.
    destruct (JS.decodeURIComponent (JS.part (JS.split "/" k) 1)) as [b|];
      [|discriminate].
    rewrite bind_getJsonItem in E.
    destruct (stored s (keyEndToEndInboundGroupSession a b)) as [d|]; [|discriminate].
    destruct (truthy d); cbn [negb] in E.
    + destruct (Nat.leb_spec limit (List.length (acc ++ [mkISession a b d]))) as [L|L].
      * destruct (Nat.eqb_spec limit 0) as [Z|Z]; [lia|]. cbn [negb andb] in E.
        injection E as <-. rewrite length_app in *. cbn in *. lia.
      * rewrite andb_false_r in E. apply (IH _ s l L E).
    + rewrite bind_consoleError in E. cbn [outcome] in E. apply (IH acc s l Hacc E).
Qed.

(** C8.  [getSessionsNeedingBackup] returns the marked sessions that have
    data, each with its data, in the order of the map and cut to [limit]
    entries when [limit] is not 0; a marked session without data is skipped
    with a line on the console.  [countSessionsNeedingBackup] returns the
    number of marked sessions, and depends on nothing but the map. *)
Theorem sessions_needing_backup : forall C (s : S) marked limit,
  markedNames s = Some (map (fun p => backupName (fst p) (snd p)) marked) ->
  (forall p, In p marked ->
     JS.well_formed_utf8 (fst p) = true /\ JS.well_formed_utf8 (snd p) = true
     /\ stored s (keyEndToEndInboundGroupSession (fst p) (snd p)) <> None) ->
  outcome (getSessionsNeedingBackup (C := C) limit s) =
    inr (limitTo limit (flat_map (joined s) marked))
  /\ logged (trace (getSessionsNeedingBackup (C := C) 0 s)) = flat_map (missing s) marked
  /\ (forall (s0 : S) l,
        limit <> 0 ->
        outcome (getSessionsNeedingBackup (C := C) limit s0) = inr l ->
        List.length l <= limit)
  /\ outcome (countSessionsNeedingBackup (C := C) s) = inr (List.length marked)
  /\ (forall s' : S,
        getItem s' KEY_SESSIONS_NEEDING_BACKUP = getItem s KEY_SESSIONS_NEEDING_BACKUP ->
        outcome (countSessionsNeedingBackup (C := C) s')
        = outcome (countSessionsNeedingBackup (C := C) s)).
Proof.
  intros C s marked limit Hnames Hall. repeat split.
  - rewrite (getSessionsNeedingBackup_unfold C limit s _ Hnames).
    rewrite (getSessionsNeedingBackup_loop_outcome C limit marked [] s Hall).
    + reflexivity.
    + destruct limit; [left; reflexivity | right; cbn; lia].
  - rewrite (getSessionsNeedingBackup_unfold C 0 s _ Hnames).
    apply getSessionsNeedingBackup_loop_logged. exact Hall.
  - intros s0 l Hlimit E. unfold getSessionsNeedingBackup in E.
    rewrite bind_getJsonItem in E.
    destruct (stored s0 KEY_SESSIONS_NEEDING_BACKUP); [|discriminate].
    eapply getSessionsNeedingBackup_loop_bound; [|exact E]. cbn. lia.
  - unfold countSessionsNeedingBackup, markedNames in *.
    rewrite bind_getJsonItem.
    destruct (stored s KEY_SESSIONS_NEEDING_BACKUP); [|discriminate].
    injection Hnames as ->. cbn [ret outcome]. rewrite length_map. reflexivity.
  - intros s' E. unfold countSessionsNeedingBackup.
    rewrite !bind_getJsonItem. unfold stored. rewrite E.
    destruct (getItem s KEY_SESSIONS_NEEDING_BACKUP) as [text|];
      [destruct (JSON_parse text)|]; reflexivity.
Qed.

End Batches.

(** *** Batch retrieval *)

Section BatchRetrieval.

Context {S : Type} `{LawfulAsyncStore S} `{JSONCodec}.

Variable SESSION_BATCH_SIZE : nat.

Lemma sessions_batch_step : forall C k r acc (s : S) v,
  stored s k = Some v ->
  outcome (getEndToEndSessionsBatch_loop (C := C) SESSION_BATCH_SIZE (k :: r) acc s) =
  if truthy v then
    if (SESSION_BATCH_SIZE <=? List.length (acc ++ [v]))%nat then inr (Some (acc ++ [v])%list)
    else outcome (getEndToEndSessionsBatch_loop (C := C) SESSION_BATCH_SIZE r (acc ++ [v]) s)
  else outcome (getEndToEndSessionsBatch_loop (C := C) SESSION_BATCH_SIZE r acc s).
Proof.
  intros C k r acc s v E.
  cbn [getEndToEndSessionsBatch_loop]. rewrite bind_getJsonItem, E.
  destruct (truthy v); cbn [negb].
  - destruct (SESSION_BATCH_SIZE <=? List.length (acc ++ [v]))%nat; reflexivity.
  - rewrite bind_consoleError. reflexivity.
Qed.

Lemma sessions_batch_unreadable : forall C k r acc (s : S),
  stored s k = None ->
  outcome (getEndToEndSessionsBatch_loop (C := C) SESSION_BATCH_SIZE (k :: r) acc s) =
  inl SyntaxError.
Proof.
  intros C k r acc s E.
  cbn [getEndToEndSessionsBatch_loop]. rewrite bind_getJsonItem, E. reflexivity.
Qed.

Lemma sessions_batch_bound : forall C ks acc (s : S) l,
  List.length acc < SESSION_BATCH_SIZE ->
  outcome (getEndToEndSessionsBatch_loop (C := C) SESSION_BATCH_SIZE ks acc s) = inr (Some l) ->
  List.length l <= SESSION_BATCH_SIZE.
Proof.
  induction ks as [|k r IH]; intros acc s l Hacc E.
  - cbn in E. destruct (List.length acc =? 0)%nat; [discriminate|].
    injection E as <-. lia.
  - destruct (stored s k) as [v|] eqn:Ek.
    + rewrite (sessions_batch_step C k r acc s v Ek) in E.
      destruct (truthy v); [|apply (IH acc s l Hacc E)].
      destruct (Nat.leb_spec SESSION_BATCH_SIZE (List.length (acc ++ [v]))) as [L|L].
      * injection E as <-. rewrite length_app in *. cbn in *. lia.
      * apply (IH (acc ++ [v])%list s l L E).
    + rewrite (sessions_batch_unreadable C k r acc s Ek) in E. discriminate.
Qed.

Lemma sessions_batch_exact : forall C ks acc (s : S) sessions,
  map (stored s) ks = map Some sessions ->
  Forall (fun v => truthy v = true) sessions ->
  List.length acc < SESSION_BATCH_SIZE ->
  outcome (getEndToEndSessionsBatch_loop (C := C) SESSION_BATCH_SIZE ks acc s) =
  inr (if (List.length (acc ++ sessions) =? 0)%nat then None
       else Some (firstn SESSION_BATCH_SIZE (acc ++ sessions))).
Proof.
  induction ks as [|k r IH]; intros acc s sessions E Ht Hacc.
  - destruct sessions; [|discriminate]. cbn [getEndToEndSessionsBatch_loop ret outcome].
    rewrite app_nil_r, firstn_all2 by lia. reflexivity.
  - destruct sessions as [|v vs]; [discriminate|].
    cbn [map] in E. injection E as Ek Er.
    inversion Ht as [|x l Hv Hvs]; subst.
    rewrite (sessions_batch_step C k r acc s v Ek), Hv.
    rewrite (app_assoc acc [v] vs : (acc ++ v :: vs = (acc ++ [v]) ++ vs)%list).
    destruct (Nat.leb_spec SESSION_BATCH_SIZE (List.length (acc ++ [v]))) as [L|L].
    + assert (Hlen : List.length (acc ++ [v]) = SESSION_BATCH_SIZE)
        by (rewrite length_app in *; cbn in *; lia).
      rewrite (firstn_exact _ _ _ _ Hlen).
      destruct (Nat.eqb_spec (List.length ((acc ++ [v]) ++ vs)) 0) as [Z|_];
        [|reflexivity].
      rewrite !length_app in Z. cbn in Z. lia.
    + apply IH; assumption.
Qed.

(** The call [this.getSessionsNeedingBackup(0)] that is not awaited changes
    nothing; its promise is all that the caller uses. *)
Lemma bind_unawaited_backup :
  forall C B (k : PromiseObject -> Op S C B) (s : S),
    outcome (bind (unawaited (getSessionsNeedingBackup 0)) k s) = outcome (k APromise s).
Proof.
  intros C B k s. unfold bind, unawaited. cbn [outcome state].
  rewrite getSessionsNeedingBackup_state. reflexivity.
Qed.

Lemma group_batch_step : forall C k r acc (s : S) e,
  groupSessionAt s k = Some e ->
  outcome (getEndToEndInboundGroupSessionsBatch_loop (C := C) SESSION_BATCH_SIZE
             (k :: r) acc s) =
  let result :=
    (acc ++ [mkSessionExtended (senderKey e) (sessionId e) (sessionData e)
               (inPromise k APromise)])%list in
  if (SESSION_BATCH_SIZE <=? List.length result)%nat then inr (Some result)
  else outcome (getEndToEndInboundGroupSessionsBatch_loop (C := C) SESSION_BATCH_SIZE
                  r result s).
Proof.
  intros C k r acc s e E. unfold groupSessionAt in E.
  cbn [getEndToEndInboundGroupSessionsBatch_loop]. cbv zeta.
  rewrite bind_decode.
  destruct (JS.decodeURIComponent (JS.part (JS.split "/" k) 1)) as [a|]; [|discriminate].
  rewrite bind_decode.
  destruct (JS.decodeURIComponent (JS.part (JS.split "/" k) 2)) as [b|]; [|discriminate].
  rewrite bind_getJsonItem.
  destruct (stored s k) as [d|]; [|discriminate].
  injection E as <-. rewrite bind_unawaited_backup. cbn [senderKey sessionId sessionData].
  match goal with |- context [if ?c then _ else _] => destruct c end; reflexivity.
Qed.

Lemma group_batch_unreadable : forall C k r acc (s : S),
  groupSessionAt s k = None ->
  exists e,
    outcome (getEndToEndInboundGroupSessionsBatch_loop (C := C) SESSION_BATCH_SIZE
               (k :: r) acc s) = inl e.
Proof.
  intros C k r acc s E. unfold groupSessionAt in E.
  cbn [getEndToEndInboundGroupSessionsBatch_loop]. cbv zeta.
  rewrite bind_decode.
  destruct (JS.decodeURIComponent (JS.part (JS.split "/" k) 1)) as [a|];
    [|exists URIError; reflexivity].
  rewrite bind_decode.
  destruct (JS.decodeURIComponent (JS.part (JS.split "/" k) 2)) as [b|];
    [|exists URIError; reflexivity].
  rewrite bind_getJsonItem.
  destruct (stored s k) as [d|]; [discriminate | exists SyntaxError; reflexivity].
Qed.

Lemma group_batch_bound : forall C ks acc (s : S) l,
  List.length acc < SESSION_BATCH_SIZE ->
  outcome (getEndToEndInboundGroupSessionsBatch_loop (C := C) SESSION_BATCH_SIZE ks acc s)
  = inr (Some l) ->
  List.length l <= SESSION_BATCH_SIZE.
Proof.
  induction ks as [|k r IH]; intros acc s l Hacc E.
  - cbn in E. destruct (List.length acc =? 0)%nat; [discriminate|].
    injection E as <-. lia.
  - destruct (groupSessionAt s k) as [e|] eqn:Ek.
    + rewrite (group_batch_step C k r acc s e Ek) in E. cbv zeta in E.
      match type of E with
      | context [(SESSION_BATCH_SIZE <=? List.length ?x)%nat] =>
          destruct (Nat.leb_spec SESSION_BATCH_SIZE (List.length x)) as [L|L]
      end.
      * injection E as <-. rewrite length_app in *. cbn in *. lia.
      * apply (IH _ s l L E).
    + destruct (group_batch_unreadable C k r acc s Ek) as [e Ee].
      rewrite Ee in E. discriminate.
Qed.

Lemma group_batch_exact : forall C ks acc (s : S) entries,
  map (groupSessionAt s) ks = map Some entries ->
  (forall k, In k ks -> JS.startsWith k INBOUND_SESSION_PREFIX = true) ->
  List.length acc < SESSION_BATCH_SIZE ->
  outcome (getEndToEndInboundGroupSessionsBatch_loop (C := C) SESSION_BATCH_SIZE ks acc s) =
  inr (if (List.length (acc ++ map unmarked entries) =? 0)%nat then None
       else Some (firstn SESSION_BATCH_SIZE (acc ++ map unmarked entries))).
Proof.
  induction ks as [|k r IH]; intros acc s entries E Hp Hacc.
  - destruct entries; [|discriminate].
    cbn [getEndToEndInboundGroupSessionsBatch_loop ret outcome map].
    rewrite app_nil_r, firstn_all2 by lia. reflexivity.
  - destruct entries as [|e es]; [discriminate|].
    cbn [map] in E. injection E as Ek Er.
    rewrite (group_batch_step C k r acc s e Ek). cbv zeta.
    rewrite (inPromise_group_key k APromise (Hp k (or_introl eq_refl))).
    fold (unmarked e). cbn [map].
    rewrite (app_assoc acc [unmarked e] (map unmarked es)
             : (acc ++ unmarked e :: map unmarked es
                = (acc ++ [unmarked e]) ++ map unmarked es)%list).
    destruct (Nat.leb_spec SESSION_BATCH_SIZE (List.length (acc ++ [unmarked e]))) as [L|L].
    + assert (Hlen : List.length (acc ++ [unmarked e]) = SESSION_BATCH_SIZE)
        by (rewrite length_app in *; cbn in *; lia).
      rewrite (firstn_exact _ _ _ _ Hlen).
      destruct (Nat.eqb_spec (List.length ((acc ++ [unmarked e]) ++ map unmarked es)) 0)
        as [Z|_]; [|reflexivity].
      rewrite !length_app in Z. cbn in Z. lia.
    + apply IH; [exact Er | intros k' Hk'; apply Hp; right; exact Hk' | exact L].
Qed.

Lemma group_batch_unmarked : forall C ks acc (s : S) l,
  (forall k, In k ks -> JS.startsWith k INBOUND_SESSION_PREFIX = true) ->
  Forall (fun x => needsBackup x = false) acc ->
  outcome (getEndToEndInboundGroupSessionsBatch_loop (C := C) SESSION_BATCH_SIZE ks acc s)
  = inr (Some l) ->
  Forall (fun x => needsBackup x = false) l.
Proof.
  induction ks as [|k r IH]; intros acc s l Hp Hacc E.
  - cbn in E. destruct (List.length acc =? 0)%nat; [discriminate|].
    injection E as <-. exact Hacc.
  - destruct (groupSessionAt s k) as [e|] eqn:Ek.
    + rewrite (group_batch_step C k r acc s e Ek) in E. cbv zeta in E.
      rewrite (inPromise_group_key k APromise (Hp k (or_introl eq_refl))) in E.
      assert (Hacc' : Forall (fun x => needsBackup x = false)
                        (acc ++ [mkSessionExtended (senderKey e) (sessionId e)
                                   (sessionData e) false]))
        by (apply Forall_app; split; [exact Hacc | repeat constructor]).
      match type of E with
      | context [if ?c then _ else _] => destruct c
      end.
      * injection E as <-. exact Hacc'.
      * eapply IH; [intros k' Hk'; apply Hp; right; exact Hk' | exact Hacc' | exact E].
    + destruct (group_batch_unreadable C k r acc s Ek) as [e Ee].
      rewrite Ee in E. discriminate.
Qed.

Lemma groupSessionKeys_prefix : forall (s : S) k,
  In k (groupSessionKeys s) -> JS.startsWith k INBOUND_SESSION_PREFIX = true.
Proof. intros s k Hk. apply filter_In in Hk. tauto. Qed.

(** C6.  With a positive batch size, a batch is [null] when no key lies
    under the prefix, it is the list of all the entries when there are fewer
    of them than the batch size, and it never has more entries than the
    batch size: for sessions, whose stored values are session objects, and
    for inbound group sessions. *)
Theorem batch_retrieval : forall C (s : S),
  0 < SESSION_BATCH_SIZE ->
  (sessionKeys s = [] ->
   outcome (getEndToEndSessionsBatch (C := C) SESSION_BATCH_SIZE s) = inr None)
  /\ (forall sessions,
        map (stored s) (sessionKeys s) = map Some sessions ->
        Forall (fun v => truthy v = true) sessions ->
        0 < List.length sessions < SESSION_BATCH_SIZE ->
        outcome (getEndToEndSessionsBatch (C := C) SESSION_BATCH_SIZE s)
        = inr (Some sessions))
  /\ (forall l,
        outcome (getEndToEndSessionsBatch (C := C) SESSION_BATCH_SIZE s) = inr (Some l) ->
        List.length l <= SESSION_BATCH_SIZE)
  /\ (groupSessionKeys s = [] ->
      outcome (getEndToEndInboundGroupSessionsBatch (C := C) SESSION_BATCH_SIZE s)
      = inr None)
  /\ (forall entries,
        map (groupSessionAt s) (groupSessionKeys s) = map Some entries ->
        0 < List.length entries < SESSION_BATCH_SIZE ->
        outcome (getEndToEndInboundGroupSessionsBatch (C := C) SESSION_BATCH_SIZE s)
        = inr (Some (map unmarked entries)))
  /\ (forall l,
        outcome (getEndToEndInboundGroupSessionsBatch (C := C) SESSION_BATCH_SIZE s)
        = inr (Some l) ->
        List.length l <= SESSION_BATCH_SIZE).
Proof.
  intros C s Hpos.
  unfold getEndToEndSessionsBatch, getEndToEndInboundGroupSessionsBatch.
  rewrite !bind_gets. fold (sessionKeys s). fold (groupSessionKeys s).
  repeat split.
  - intros ->. reflexivity.
  - intros sessions E Ht [L0 L1].
    rewrite (sessions_batch_exact C _ [] s sessions E Ht Hpos). cbn [app].
    destruct sessions as [|v vs]; [cbn in L0; lia|].
    cbn [List.length Nat.eqb]. rewrite firstn_all2 by lia. reflexivity.
  - intros l E. apply (sessions_batch_bound C _ [] s l Hpos E).
  - intros ->. reflexivity.
  - intros entries E [L0 L1].
    rewrite (group_batch_exact C _ [] s entries E (groupSessionKeys_prefix s) Hpos).
    cbn [app].
    destruct entries as [|e es]; [cbn in L0; lia|].
    cbn [map List.length Nat.eqb].
    rewrite firstn_all2 by (cbn; rewrite length_map; cbn in L1; lia). reflexivity.
  - intros l E. apply (group_batch_bound C _ [] s l Hpos E).
Qed.

(** C9.  Every entry of a batch of inbound group sessions has [needsBackup]
    false, whatever the store holds: the key is looked up in the Promise
    object of a call that is not awaited. *)
Theorem batch_never_needs_backup : forall C (s : S) l,
  outcome (getEndToEndInboundGroupSessionsBatch (C := C) SESSION_BATCH_SIZE s)
  = inr (Some l) ->
  Forall (fun x => needsBackup x = false) l.
Proof.
  intros C s l E. unfold getEndToEndInboundGroupSessionsBatch in E.
  rewrite bind_gets in E. fold (groupSessionKeys s) in E.
  apply (group_batch_unmarked C _ [] s l (groupSessionKeys_prefix s) (Forall_nil _) E).
Qed.

End BatchRetrieval.

(** ** The properties on the example data *)

Lemma add_is_write_once_witness :
  let s1 := state (doTxn (C := unit)
                     (addEndToEndInboundGroupSession "senderkey1" "sessid1"
                        Scenario.groupSession1) Scenario.unrelated) in
  let s2 := state (doTxn (C := unit)
                     (addEndToEndInboundGroupSession "senderkey1" "sessid1"
                        Scenario.groupSession2) s1) in
  calls (trace (doTxn (getEndToEndInboundGroupSession "senderkey1" "sessid1") s2)) =
  [(Scenario.groupSession1, JNull)].
Proof.
  destruct (add_is_write_once unit Scenario.unrelated "senderkey1" "sessid1"
              Scenario.groupSession1 Scenario.groupSession2 JNull)
    as [_ [_ [A _]]];
    [vm_compute; reflexivity | vm_compute; reflexivity | vm_compute; reflexivity
    | vm_compute; reflexivity | exact A].
Defined.

Lemma group_session_round_trip_witness :
  let s1 := state (doTxn (C := unit)
                     (storeEndToEndInboundGroupSession "this/that" "here/there"
                        Scenario.groupSession1) Scenario.withGroupSessions) in
  In (Some (mkISession "this/that" "here/there" Scenario.groupSession1))
    (calls (trace (doTxn getAllEndToEndInboundGroupSessions s1)))
  /\ calls (trace (doTxn (getEndToEndInboundGroupSession "this/that" "here/there") s1)) =
     [(Scenario.groupSession1, JNull)].
Proof.
  destruct (group_session_round_trip unit Scenario.withGroupSessions
              "this/that" "here/there" Scenario.groupSession1 JNull)
    as [_ [A [_ B]]];
    [vm_compute; reflexivity | vm_compute; reflexivity | vm_compute; reflexivity
    | | vm_compute; reflexivity | split; [exact A | exact B]].
  intros k Hk. vm_compute in Hk.
  destruct Hk as [<-|[<-|[]]]; vm_compute; discriminate.
Defined.

Lemma deleteAllData_frame_witness :
  let s' := state (deleteAllData (C := unit) Scenario.withSessions) in
  getItem s' (keyEndToEndSession "dev1" "sess1") = None
  /\ getItem s' "someOtherData" = Some "preciousData".
Proof.
  destruct (deleteAllData_frame unit Scenario.withSessions) as [_ [A B]].
  split.
  - exact (proj1 (A (keyEndToEndSession "dev1" "sess1") eq_refl)).
  - exact (proj1 (B "someOtherData" eq_refl)).
Defined.

Lemma batch_retrieval_witness :
  (outcome (getEndToEndSessionsBatch (C := unit) 50 Scenario.unrelated) = inr None
   /\ outcome (getEndToEndSessionsBatch (C := unit) 50 Scenario.withSessions) =
      inr (Some [Scenario.session1; Scenario.session2; Scenario.session1])
   /\ outcome (getEndToEndInboundGroupSessionsBatch (C := unit) 50
                 Scenario.withGroupSessions) =
      inr (Some [mkSessionExtended "bob" "one" Scenario.groupSession1 false;
                 mkSessionExtended "bob" "two" Scenario.groupSession2 false]))
  /\ (List.length [Scenario.session1; Scenario.session2] <= 2
      /\ outcome (getEndToEndInboundGroupSessionsBatch (C := unit) 2 Scenario.withSessions)
         = inr None
      /\ List.length [mkSessionExtended "bob" "one" Scenario.groupSession1 false;
                      mkSessionExtended "bob" "two" Scenario.groupSession2 false] <= 2).
Proof.
  destruct (batch_retrieval 50 unit Scenario.unrelated ltac:(lia)) as [A _].
  destruct (batch_retrieval 50 unit Scenario.withSessions ltac:(lia)) as [_ [B _]].
  destruct (batch_retrieval 50 unit Scenario.withGroupSessions ltac:(lia))
    as [_ [_ [_ [_ [D _]]]]].
  destruct (batch_retrieval 2 unit Scenario.withSessions ltac:(lia))
    as [_ [_ [A2 [B2 _]]]].
  destruct (batch_retrieval 2 unit Scenario.withGroupSessions ltac:(lia))
    as [_ [_ [_ [_ [_ D2]]]]].
  split; [split; [|split] | split; [|split]].
  - apply A. reflexivity.
  - apply (B [Scenario.session1; Scenario.session2; Scenario.session1]).
    + vm_compute. reflexivity.
    + repeat constructor.
    + cbn. lia.
  - apply (D [mkISession "bob" "one" Scenario.groupSession1;
              mkISession "bob" "two" Scenario.groupSession2]).
    + vm_compute. reflexivity.
    + cbn. lia.
  - apply A2. vm_compute. reflexivity.
  - apply B2. vm_compute. reflexivity.
  - apply D2. vm_compute. reflexivity.
Defined.

Lemma sessions_needing_backup_witness :
  outcome (getSessionsNeedingBackup (C := unit) 1 Scenario.withBackup) =
    inr [mkISession "bob" "one" Scenario.groupSession1]
  /\ List.length [mkISession "bob" "one" Scenario.groupSession1] <= 1
  /\ logged (trace (getSessionsNeedingBackup (C := unit) 0 Scenario.withBackup)) =
     ["Could not find session data for inbound group session with gone"]
  /\ outcome (countSessionsNeedingBackup (C := unit) Scenario.withBackup) = inr 2
  /\ outcome (countSessionsNeedingBackup (C := unit)
                (MockAsyncStore.delete Scenario.withBackup
                   (keyEndToEndInboundGroupSession "bob" "one"))) = inr 2.
Proof.
  destruct (sessions_needing_backup unit Scenario.withBackup
              [("bob", "gone"); ("bob", "one")] 1) as [A [B [L [D E]]]].
  - vm_compute. reflexivity.
  - intros p [<-|[<-|[]]]; vm_compute; repeat split; discriminate.
  - split; [exact A | split; [| split; [exact B | split; [exact D |]]]].
    + apply (L Scenario.withBackup); [discriminate | vm_compute; reflexivity].
    + eapply eq_trans; [apply E; vm_compute; reflexivity | exact D].
Defined.

Lemma batch_never_needs_backup_witness :
  Forall (fun x => needsBackup x = false)
    [mkSessionExtended "bob" "one" Scenario.groupSession1 false;
     mkSessionExtended "bob" "two" Scenario.groupSession2 false].
Proof.
  apply (batch_never_needs_backup 50 unit Scenario.withBackup).
  vm_compute. reflexivity.
Defined.

(** * Further properties *)

(** ** Keys *)

Lemma append_inv_head : forall p a b : string, (p ++ a = p ++ b)%string -> a = b.
Proof.
  induction p as [|c p IH]; intros a b E; simpl in E; [exact E|].
  injection E as E. apply IH. exact E.
Qed.

Lemma encodeURIComponent_injective : forall a b,
  JS.well_formed_utf8 a = true -> JS.well_formed_utf8 b = true ->
  JS.encodeURIComponent a = JS.encodeURIComponent b -> a = b.
Proof.
  intros a b Wa Wb E.
  assert (X : Some a = Some b)
    by (rewrite <- (decode_encodeURIComponent a Wa), <- (decode_encodeURIComponent b Wb), E;
        reflexivity).
  injection X as X. exact X.
Qed.

Lemma split_keyEndToEndInboundGroupSessionWithheld : forall senderKey sessionId,
  JS.split "/" (keyEndToEndInboundGroupSessionWithheld senderKey sessionId) =
  ["crypto.inboundgroupsessions.withheld";
   JS.encodeURIComponent senderKey; JS.encodeURIComponent sessionId].
Proof.
  intros a b.
  change (keyEndToEndInboundGroupSessionWithheld a b)
    with ("crypto.inboundgroupsessions.withheld"
          ++ String "/" (JS.encodeURIComponent a ++ String "/" (JS.encodeURIComponent b))).
  rewrite split_append by reflexivity.
  rewrite split_append by apply split_encodeURIComponent.
  rewrite split_encodeURIComponent. reflexivity.
Qed.

Lemma keyEndToEndSession_injective : forall a b c d,
  JS.well_formed_utf8 a = true -> JS.well_formed_utf8 b = true ->
  JS.well_formed_utf8 c = true -> JS.well_formed_utf8 d = true ->
  keyEndToEndSession a b = keyEndToEndSession c d -> a = c /\ b = d.
Proof.
  intros a b c d Wa Wb Wc Wd E.
  apply (f_equal (JS.split "/")) in E. rewrite !split_keyEndToEndSession in E.
  injection E as E1 E2. split; apply encodeURIComponent_injective; assumption.
Qed.

Lemma keyEndToEndInboundGroupSession_injective : forall a b c d,
  JS.well_formed_utf8 a = true -> JS.well_formed_utf8 b = true ->
  JS.well_formed_utf8 c = true -> JS.well_formed_utf8 d = true ->
  keyEndToEndInboundGroupSession a b = keyEndToEndInboundGroupSession c d ->
  a = c /\ b = d.
Proof.
  intros a b c d Wa Wb Wc Wd E.
  apply (f_equal (JS.split "/")) in E.
  rewrite !split_keyEndToEndInboundGroupSession in E.
  injection E as E1 E2. split; apply encodeURIComponent_injective; assumption.
Qed.

Lemma eqb_of_injective : forall (f : string -> string) a b,
  (f a = f b -> a = b) -> a <> b -> String.eqb (f a) (f b) = false.
Proof.
  intros f a b Hinj Hne. apply String.eqb_neq. intro E. apply Hne, Hinj, E.
Qed.

(** X1.  Two different pairs of identifiers never get the same key, whatever
    characters they contain, for sessions, inbound group sessions and
    withheld records; and two different identifiers never get the same key
    for the kinds with one identifier. *)
Theorem keys_do_not_collide : forall a b c d,
  JS.well_formed_utf8 a = true -> JS.well_formed_utf8 b = true ->
  JS.well_formed_utf8 c = true -> JS.well_formed_utf8 d = true ->
  (keyEndToEndSession a b = keyEndToEndSession c d -> a = c /\ b = d)
  /\ (keyEndToEndInboundGroupSession a b = keyEndToEndInboundGroupSession c d ->
      a = c /\ b = d)
  /\ (keyEndToEndInboundGroupSessionWithheld a b
      = keyEndToEndInboundGroupSessionWithheld c d -> a = c /\ b = d)
  /\ (keySecretStorePrivateKey a = keySecretStorePrivateKey c -> a = c)
  /\ (keyOutgoingKeyRequest a = keyOutgoingKeyRequest c -> a = c)
  /\ (keySharedHistoryInboundGroupSessions a = keySharedHistoryInboundGroupSessions c ->
      a = c)
  /\ (keyParkedSharedHistory a = keyParkedSharedHistory c -> a = c)
  /\ (backupName a b = backupName c d -> a = c /\ b = d).
Proof.
  intros a b c d Wa Wb Wc Wd.
  assert (One : forall p, (p ++ JS.encodeURIComponent a = p ++ JS.encodeURIComponent c)%string
                          -> a = c).
  { intros p E. apply append_inv_head in E.
    apply encodeURIComponent_injective; assumption. }
  assert (Two : forall (key : string -> string -> string) (head : string),
            (forall x y, JS.split "/" (key x y)
                         = [head; JS.encodeURIComponent x; JS.encodeURIComponent y]) ->
            key a b = key c d -> a = c /\ b = d).
  { intros key head Hsplit E. apply (f_equal (JS.split "/")) in E.
    rewrite !Hsplit in E. injection E as E1 E2.
    split; apply encodeURIComponent_injective; assumption. }
  split; [apply (Two _ _ split_keyEndToEndSession)|].
  split; [apply (Two _ _ split_keyEndToEndInboundGroupSession)|].
  split; [apply (Two _ _ split_keyEndToEndInboundGroupSessionWithheld)|].
  split; [apply One|]. split; [apply One|]. split; [apply One|]. split; [apply One|].
  intro E. apply (f_equal (JS.split "/")) in E. rewrite !split_backupName in E.
  injection E as E1 E2. split; apply encodeURIComponent_injective; assumption.
Qed.

Lemma keys_do_not_collide_witness :
  String.eqb (keyEndToEndInboundGroupSession "a/b" "c")
    (keyEndToEndInboundGroupSession "a" "b/c") = false.
Proof.
  apply String.eqb_neq. intro E.
  destruct (keys_do_not_collide "a/b" "c" "a" "b/c" eq_refl eq_refl eq_refl eq_refl)
    as [_ [A _]].
  destruct (A E) as [E1 _]. discriminate E1.
Defined.

(** ** One value under one key *)

Section OneKey.

Context {S : Type} `{LawfulAsyncStore S} `{JSONCodec}.

Lemma txn_get : forall (s : S) key v,
  stored s key = Some v ->
  doTxn (submit (onStorage (x <- _getJsonItem key ;; call x))) s =
  mkResult s [Call v] (inr (FulfilledWith tt)).
Proof.
  intros s key v E. rewrite doTxn_submit, bind_getJsonItem, E. reflexivity.
Qed.

Lemma txn_get_unreadable : forall (s : S) key,
  stored s key = None ->
  doTxn (submit (onStorage (x <- _getJsonItem key ;; call x))) s =
  mkResult s [] (inr (RejectedWith SyntaxError)).
Proof.
  intros s key E. rewrite doTxn_submit, bind_getJsonItem, E. reflexivity.
Qed.

Lemma txn_set : forall C (s : S) key v,
  doTxn (C := C) (submit (onStorage (_setJsonItem key v))) s =
  mkResult (setItem s key (JSON_stringify v)) [] (inr (FulfilledWith tt)).
Proof. intros. rewrite doTxn_submit. reflexivity. Qed.

Lemma stored_absent : forall (s : S) key,
  getItem s key = None -> stored s key = Some JNull.
Proof. intros s key E. unfold stored. rewrite E. reflexivity. Qed.

Lemma stored_written : forall (s : S) key v,
  JSON_parse (JSON_stringify v) = Some v ->
  stored (setItem s key (JSON_stringify v)) key = Some v.
Proof. intros s key v E. rewrite stored_setItem_same. exact E. Qed.

Lemma stored_removeItem_same : forall (s : S) key,
  stored (removeItem s key) key = Some JNull.
Proof.
  intros. unfold stored. rewrite getItem_removeItem, String.eqb_refl. reflexivity.
Qed.

Lemma stored_removeItem_other : forall (s : S) key k,
  String.eqb key k = false -> stored (removeItem s key) k = stored s k.
Proof.
  intros s key k E. unfold stored. rewrite getItem_removeItem, E. reflexivity.
Qed.

(** X2.  [storeEndToEndSession] overwrites: whatever was stored for the
    device and the session before, [getEndToEndSession] then calls back
    with the value stored last; the other sessions read as before; and a
    session that is not stored reads as [null]. *)
Theorem session_store_then_get : forall C (s : S) deviceKey sessionId V,
  JSON_parse (JSON_stringify V) = Some V ->
  let r := doTxn (C := C) (storeEndToEndSession deviceKey sessionId V) s in
  outcome r = inr (FulfilledWith tt)
  /\ doTxn (getEndToEndSession deviceKey sessionId) (state r) =
     mkResult (state r) [Call V] (inr (FulfilledWith tt))
  /\ (forall d i,
        JS.well_formed_utf8 deviceKey = true -> JS.well_formed_utf8 sessionId = true ->
        JS.well_formed_utf8 d = true -> JS.well_formed_utf8 i = true ->
        (d, i) <> (deviceKey, sessionId) ->
        trace (doTxn (getEndToEndSession d i) (state r))
        = trace (doTxn (getEndToEndSession d i) s)
        /\ outcome (doTxn (getEndToEndSession d i) (state r))
           = outcome (doTxn (getEndToEndSession d i) s))
  /\ (getItem s (keyEndToEndSession deviceKey sessionId) = None ->
      calls (trace (doTxn (getEndToEndSession deviceKey sessionId) s)) = [JNull]).
Proof.
  intros C s d0 i0 V Hcodec. cbv zeta.
  unfold storeEndToEndSession, getEndToEndSession.
  rewrite txn_set. cbn [state outcome].
  split; [reflexivity|]. split; [|split].
  - apply txn_get, stored_written, Hcodec.
  - intros d i W1 W2 W3 W4 Hne.
    assert (Ek : String.eqb (keyEndToEndSession d0 i0) (keyEndToEndSession d i) = false).
    { apply String.eqb_neq. intro E.
      destruct (keyEndToEndSession_injective _ _ _ _ W1 W2 W3 W4 E) as [-> ->].
      apply Hne. reflexivity. }
    rewrite !doTxn_submit, !bind_getJsonItem.
    rewrite (stored_setItem_other s _ _ _ Ek).
    destruct (stored s (keyEndToEndSession d i)); split; reflexivity.
  - intro Habsent. rewrite (txn_get s _ JNull (stored_absent s _ Habsent)). reflexivity.
Qed.

(** X3.  [storeEndToEndInboundGroupSession] overwrites, unlike [add]; a
    withheld record stored for the same identifiers is delivered beside the
    session and leaves it as it is. *)
Theorem group_session_store_overwrites :
  forall C (s : S) senderKey sessionId V1 V2 W,
    JSON_parse (JSON_stringify V2) = Some V2 ->
    JSON_parse (JSON_stringify W) = Some W ->
    let s1 := state (doTxn (C := C)
                       (storeEndToEndInboundGroupSession senderKey sessionId V1) s) in
    let s2 := state (doTxn (C := C)
                       (storeEndToEndInboundGroupSession senderKey sessionId V2) s1) in
    let s3 := state (doTxn (C := C)
                       (storeEndToEndInboundGroupSessionWithheld senderKey sessionId W) s2) in
    (forall withheld,
       stored s (keyEndToEndInboundGroupSessionWithheld senderKey sessionId) = Some withheld ->
       calls (trace (doTxn (getEndToEndInboundGroupSession senderKey sessionId) s2))
       = [(V2, withheld)])
    /\ calls (trace (doTxn (getEndToEndInboundGroupSession senderKey sessionId) s3))
       = [(V2, W)].
Proof.
  intros C s a b V1 V2 W H2 HW. cbv zeta.
  unfold storeEndToEndInboundGroupSessionWithheld.
  rewrite !storeEndToEndInboundGroupSession_result, txn_set. cbn [state].
  set (k := keyEndToEndInboundGroupSession a b).
  set (kw := keyEndToEndInboundGroupSessionWithheld a b).
  assert (Ekw : String.eqb k kw = false) by apply group_key_is_not_withheld_key.
  assert (Ewk : String.eqb kw k = false) by (rewrite String.eqb_sym; exact Ekw).
  split.
  - intros w Hw.
    rewrite (getEndToEndInboundGroupSession_result _ a b V2 w); [reflexivity| |].
    + apply stored_written, H2.
    + fold k kw. rewrite !stored_setItem_other by exact Ekw. exact Hw.
  - rewrite (getEndToEndInboundGroupSession_result _ a b V2 W); [reflexivity| |].
    + fold k kw. rewrite stored_setItem_other by exact Ewk. apply stored_written, H2.
    + apply stored_written, HW.
Qed.

End OneKey.

(** ** The values without identifiers *)

Section Singletons.

Context {S : Type} `{LawfulAsyncStore S} `{JSONCodec}.

Variable NOT_STARTED : JSON.

Lemma readsAlike_get : forall (s1 s2 : S) key,
  stored s1 key = stored s2 key ->
  readsAlike (submit (onStorage (x <- _getJsonItem key ;; call x))) s1 s2.
Proof.
  intros s1 s2 key E. unfold readsAlike.
  rewrite !doTxn_submit, !bind_getJsonItem, E.
  destruct (stored s2 key); split; reflexivity.
Qed.

Lemma readsAlike_after_set : forall (s : S) key k text,
  String.eqb key k = false ->
  readsAlike (submit (onStorage (x <- _getJsonItem k ;; call x))) (setItem s key text) s.
Proof.
  intros s key k text E. apply readsAlike_get, stored_setItem_other, E.
Qed.

(** X4.  The account pickle, the cross-signing keys and the device data are
    each read back as stored last, and storing one of them leaves the other
    two as they read before. *)
Theorem singletons_round_trip : forall C (s : S) V,
  JSON_parse (JSON_stringify V) = Some V ->
  (let s' := state (doTxn (C := C) (storeAccount V) s) in
   calls (trace (doTxn getAccount s')) = [V]
   /\ readsAlike getCrossSigningKeys s' s /\ readsAlike getEndToEndDeviceData s' s)
  /\ (let s' := state (doTxn (C := C) (storeCrossSigningKeys V) s) in
      calls (trace (doTxn getCrossSigningKeys s')) = [V]
      /\ readsAlike getAccount s' s /\ readsAlike getEndToEndDeviceData s' s)
  /\ (let s' := state (doTxn (C := C) (storeEndToEndDeviceData V) s) in
      calls (trace (doTxn getEndToEndDeviceData s')) = [V]
      /\ readsAlike getAccount s' s /\ readsAlike getCrossSigningKeys s' s).
Proof.
  intros C s V Hcodec. cbv zeta.
  unfold storeAccount, storeCrossSigningKeys, storeEndToEndDeviceData,
    getAccount, getCrossSigningKeys, getEndToEndDeviceData.
  rewrite !txn_set. cbn [state].
  repeat split;
    try (rewrite (txn_get _ _ V (stored_written _ _ V Hcodec)); reflexivity);
    apply readsAlike_after_set; reflexivity.
Qed.

(** X5.  A secret-storage key is read back under the type it was stored
    under; the keys of the other types, and the account pickle, read as
    before. *)
Theorem secret_store_round_trip : forall C (s : S) type key,
  JSON_parse (JSON_stringify key) = Some key ->
  let s' := state (doTxn (C := C) (storeSecretStorePrivateKey type key) s) in
  calls (trace (doTxn (getSecretStorePrivateKey type) s')) = [key]
  /\ (forall other,
        JS.well_formed_utf8 type = true -> JS.well_formed_utf8 other = true ->
        other <> type ->
        readsAlike (getSecretStorePrivateKey other) s' s)
  /\ readsAlike getAccount s' s
  /\ readsAlike getCrossSigningKeys s' s.
Proof.
  intros C s type key Hcodec. cbv zeta.
  unfold storeSecretStorePrivateKey, getSecretStorePrivateKey, getAccount,
    getCrossSigningKeys.
  rewrite txn_set. cbn [state].
  split; [|split; [|split]].
  - rewrite (txn_get _ _ key (stored_written _ _ key Hcodec)). reflexivity.
  - intros other W1 W2 Hne. apply readsAlike_after_set.
    apply String.eqb_neq. intro E. apply Hne. symmetry.
    apply append_inv_head in E. apply encodeURIComponent_injective; assumption.
  - apply readsAlike_after_set. reflexivity.
  - apply readsAlike_after_set. reflexivity.
Qed.

(** X6.  [getMigrationState] returns [NOT_STARTED] when nothing is stored,
    and after [setMigrationState] the state that was set, the state [null]
    counting as none. *)
Theorem migration_state_round_trip : forall C (s : S) m,
  JSON_parse (JSON_stringify m) = Some m ->
  (getItem s KEY_END_TO_END_MIGRATION_STATE = None ->
   outcome (getMigrationState (C := C) NOT_STARTED s) = inr NOT_STARTED)
  /\ outcome (getMigrationState (C := C) NOT_STARTED
                (state (setMigrationState (C := C) m s)))
     = inr (nullish m NOT_STARTED).
Proof.
  intros C s m Hcodec. unfold getMigrationState, setMigrationState. split.
  - intro Habsent. rewrite bind_getJsonItem, (stored_absent s _ Habsent). reflexivity.
  - cbn [_setJsonItem modify state].
    rewrite bind_getJsonItem, (stored_written s _ m Hcodec). reflexivity.
Qed.

End Singletons.

(** ** Counting *)


Lemma MockAsyncStore_keys_set : forall data k v,
  MockAsyncStore.keys (MockAsyncStore.set data k v) =
  match MockAsyncStore.get data k with
  | Some _ => MockAsyncStore.keys data
  | None => (MockAsyncStore.keys data ++ [k])%list
  end.
Proof.
  induction data as [|[k0 v0] r IH]; intros k v; [reflexivity|].
  cbn [MockAsyncStore.set MockAsyncStore.get].
  destruct (String.eqb k0 k); [reflexivity|].
  cbn [MockAsyncStore.keys map fst] in *. rewrite IH.
  destruct (MockAsyncStore.get r k); reflexivity.
Qed.

Lemma MockAsyncStore_keys_delete : forall data k,
  MockAsyncStore.keys (MockAsyncStore.delete data k) =
  filter (fun x => negb (String.eqb x k)) (MockAsyncStore.keys data).
Proof.
  induction data as [|[k0 v0] r IH]; intro k; [reflexivity|].
  unfold MockAsyncStore.delete, MockAsyncStore.keys in *. cbn [filter map fst].
  destruct (String.eqb k0 k); cbn [negb map fst]; rewrite IH; reflexivity.
Qed.

#[export] Instance MockAsyncStore_lists_keys_once : KeysListedOnce MockAsyncStore.t.
Proof.
  split.
  - intros data k v Hn. change (NoDup (MockAsyncStore.keys (MockAsyncStore.set data k v))).
    rewrite MockAsyncStore_keys_set.
    destruct (MockAsyncStore.get data k) eqn:G; [exact Hn|].
    apply NoDup_app; [exact Hn | repeat constructor; intros [] |].
    intros x Hx [<-|[]]. apply MockAsyncStore_keys_get in Hx. contradiction.
  - intros data k Hn. change (NoDup (MockAsyncStore.keys (MockAsyncStore.delete data k))).
    rewrite MockAsyncStore_keys_delete. apply NoDup_filter. exact Hn.
Qed.

Section Counting.

Context {S : Type} `{LawfulAsyncStore S} `{!KeysListedOnce S} `{JSONCodec}.

Lemma count_same : forall (p : string -> bool) (s1 s2 : S),
  NoDup (getAllKeys s1) -> NoDup (getAllKeys s2) ->
  (forall x, p x = true -> (getItem s1 x <> None <-> getItem s2 x <> None)) ->
  List.length (filter p (getAllKeys s1)) = List.length (filter p (getAllKeys s2)).
Proof.
  intros p s1 s2 N1 N2 Hsame. apply Permutation_length.
  apply NoDup_Permutation; try (apply NoDup_filter; assumption).
  intro x. rewrite !filter_In, !getAllKeys_getItem.
  split; intros [A B]; (split; [apply (Hsame x B); exact A | exact B]).
Qed.

Lemma count_fresh : forall (p : string -> bool) (s : S) k text,
  NoDup (getAllKeys s) -> getItem s k = None -> p k = true ->
  List.length (filter p (getAllKeys (setItem s k text))) =
  Datatypes.S (List.length (filter p (getAllKeys s))).
Proof.
  intros p s k text N Habsent Hp.
  change (Datatypes.S (List.length (filter p (getAllKeys s))))
    with (List.length (k :: filter p (getAllKeys s))).
  apply Permutation_length. apply NoDup_Permutation.
  - apply NoDup_filter, setItem_NoDup, N.
  - constructor; [|apply NoDup_filter, N].
    rewrite filter_In, getAllKeys_getItem. intros [A _]. contradiction.
  - intro x. cbn [In]. rewrite !filter_In, !getAllKeys_getItem, getItem_setItem.
    destruct (String.eqb k x) eqn:E.
    + apply String.eqb_eq in E. subst x. split; [intros _; left; reflexivity|].
      intros _. split; [discriminate | exact Hp].
    + apply String.eqb_neq in E. split; [intros A; right; exact A|].
      intros [A|A]; [contradiction | exact A].
Qed.

Lemma count_setItem : forall (p : string -> bool) (s : S) k text,
  NoDup (getAllKeys s) ->
  List.length (filter p (getAllKeys (setItem s k text))) =
  match getItem s k with
  | Some _ => List.length (filter p (getAllKeys s))
  | None => if p k then Datatypes.S (List.length (filter p (getAllKeys s)))
            else List.length (filter p (getAllKeys s))
  end.
Proof.
  intros p s k text N.
  assert (Same : (getItem s k <> None \/ p k = false) ->
            List.length (filter p (getAllKeys (setItem s k text)))
            = List.length (filter p (getAllKeys s))).
  { intro Hc. apply count_same; [apply setItem_NoDup, N | exact N |].
    intros x Hx. rewrite getItem_setItem.
    destruct (String.eqb k x) eqn:E; [|reflexivity].
    apply String.eqb_eq in E. subst x.
    destruct Hc as [A|A]; [|congruence].
    split; [intros _; exact A | discriminate]. }
  destruct (getItem s k) eqn:G.
  - apply Same. left. discriminate.
  - destruct (p k) eqn:Hp; [apply count_fresh; assumption | apply Same; right; reflexivity].
Qed.

(** X7.  [countEndToEndSessions] calls back once, with the number of keys of
    sessions.  Storing a session not stored before adds one to it, storing
    over a session adds nothing, and nothing is added by storing a group
    session, a withheld record or a room, or by writing the map of sessions
    needing backup. *)
Theorem count_of_sessions : forall C (s : S),
  NoDup (getAllKeys s) ->
  calls (trace (doTxn countEndToEndSessions s)) = [List.length (sessionKeys s)]
  /\ (forall deviceKey sessionId V,
        List.length (sessionKeys
          (state (doTxn (C := C) (storeEndToEndSession deviceKey sessionId V) s))) =
        match getItem s (keyEndToEndSession deviceKey sessionId) with
        | Some _ => List.length (sessionKeys s)
        | None => Datatypes.S (List.length (sessionKeys s))
        end)
  /\ (forall a b V,
        List.length (sessionKeys
          (state (doTxn (C := C) (storeEndToEndInboundGroupSession a b V) s)))
        = List.length (sessionKeys s)
        /\ List.length (sessionKeys
             (state (doTxn (C := C) (storeEndToEndInboundGroupSessionWithheld a b V) s)))
           = List.length (sessionKeys s)
        /\ List.length (sessionKeys
             (state (doTxn (C := C) (storeEndToEndRoom a V) s)))
           = List.length (sessionKeys s))
  /\ (forall text,
        List.length (sessionKeys (setItem s KEY_SESSIONS_NEEDING_BACKUP text))
        = List.length (sessionKeys s)).
Proof.
  intros C s N. split; [|split; [|split]].
  - unfold countEndToEndSessions. rewrite doTxn_submit, bind_gets. reflexivity.
  - intros d i V. unfold storeEndToEndSession. rewrite txn_set. cbn [state].
    unfold sessionKeys. rewrite (count_setItem _ s _ _ N).
    unfold keyEndToEndSession, prefixEndToEndSession.
    rewrite !append_assoc, startsWith_append. reflexivity.
  - intros a b V.
    unfold storeEndToEndInboundGroupSession, storeEndToEndInboundGroupSessionWithheld,
      storeEndToEndRoom.
    rewrite !txn_set. cbn [state]. unfold sessionKeys.
    rewrite !(count_setItem _ s _ _ N).
    change (JS.startsWith (keyEndToEndInboundGroupSession a b) END_TO_END_SESSION_PREFIX)
      with false.
    change (JS.startsWith (keyEndToEndInboundGroupSessionWithheld a b)
              END_TO_END_SESSION_PREFIX) with false.
    change (JS.startsWith (keyEndToEndRoom a) END_TO_END_SESSION_PREFIX) with false.
    repeat split; match goal with |- context [getItem s ?k] => destruct (getItem s k) end;
      reflexivity.
  - intro text. unfold sessionKeys. rewrite (count_setItem _ s _ _ N).
    destruct (getItem s KEY_SESSIONS_NEEDING_BACKUP); reflexivity.
Qed.

(** X8.  [countEndToEndInboundGroupSessions] returns the number of keys of
    inbound group sessions.  Storing a session not stored before adds one to
    it; storing over a session, and storing a withheld record, add
    nothing. *)
Theorem count_of_group_sessions : forall C (s : S),
  NoDup (getAllKeys s) ->
  outcome (countEndToEndInboundGroupSessions (C := C) s)
  = inr (List.length (groupSessionKeys s))
  /\ (forall a b V,
        List.length (groupSessionKeys
          (state (doTxn (C := C) (storeEndToEndInboundGroupSession a b V) s))) =
        match getItem s (keyEndToEndInboundGroupSession a b) with
        | Some _ => List.length (groupSessionKeys s)
        | None => Datatypes.S (List.length (groupSessionKeys s))
        end)
  /\ (forall a b W,
        List.length (groupSessionKeys
          (state (doTxn (C := C) (storeEndToEndInboundGroupSessionWithheld a b W) s)))
        = List.length (groupSessionKeys s)).
Proof.
  intros C s N. split; [|split].
  - unfold countEndToEndInboundGroupSessions. rewrite bind_gets. reflexivity.
  - intros a b V. rewrite storeEndToEndInboundGroupSession_result. cbn [state].
    unfold groupSessionKeys. rewrite (count_setItem _ s _ _ N).
    rewrite keyEndToEndInboundGroupSession_prefix. reflexivity.
  - intros a b W. unfold storeEndToEndInboundGroupSessionWithheld.
    rewrite txn_set. cbn [state]. unfold groupSessionKeys.
    rewrite (count_setItem _ s _ _ N).
    change (JS.startsWith (keyEndToEndInboundGroupSessionWithheld a b)
              INBOUND_SESSION_PREFIX) with false.
    destruct (getItem s (keyEndToEndInboundGroupSessionWithheld a b)); reflexivity.
Qed.

End Counting.

(** ** Deleting *)

Section Deleting.

Context {S : Type} `{LawfulAsyncStore S} `{JSONCodec}.

Variable NOT_STARTED : JSON.
Variable SESSION_BATCH_SIZE : nat.

Lemma deleteEndToEndSessionsBatch_result : forall C sessions (s : S),
  deleteEndToEndSessionsBatch (C := C) sessions s =
  mkResult (fold_left removeItem (namedSessionKeys sessions) s) [] (inr tt).
Proof.
  induction sessions as [|[[d|] [i|]] r IH]; intro s; [reflexivity| | | |];
    unfold deleteEndToEndSessionsBatch in *; cbn [forEach namedSessionKeys flat_map app];
    try (rewrite (bind_value _ _ _ _ _ _ s s tt) by reflexivity; apply IH).
  rewrite (bind_value _ _ _ _ _ _ s (removeItem s (keyEndToEndSession d i)) tt)
    by reflexivity.
  apply IH.
Qed.

Lemma deleteEndToEndInboundGroupSessionsBatch_result : forall C sessions (s : S),
  deleteEndToEndInboundGroupSessionsBatch (C := C) sessions s =
  mkResult
    (fold_left removeItem
       (map (fun p => keyEndToEndInboundGroupSession (fst p) (snd p)) sessions) s)
    [] (inr tt).
Proof.
  induction sessions as [|[a b] r IH]; intro s; [reflexivity|].
  unfold deleteEndToEndInboundGroupSessionsBatch in *. cbn [forEach map fold_left fst snd].
  rewrite (bind_value _ _ _ _ _ _ s (removeItem s (keyEndToEndInboundGroupSession a b)) tt)
    by reflexivity.
  apply IH.
Qed.

Lemma stored_fold_removeItem : forall ks (s : S) k,
  stored (fold_left removeItem ks s) k =
  if existsb (fun x => String.eqb x k) ks then Some JNull else stored s k.
Proof.
  intros ks s k. unfold stored. rewrite getItem_fold_removeItem.
  destruct (existsb (fun x => String.eqb x k) ks); reflexivity.
Qed.

Lemma existsb_eqb_In : forall ks k,
  existsb (fun x => String.eqb x k) ks = true <-> In k ks.
Proof.
  intros ks k. rewrite existsb_exists. split.
  - intros [x [Hin E]]. apply String.eqb_eq in E. subst x. exact Hin.
  - intro Hin. exists k. split; [exact Hin | apply String.eqb_refl].
Qed.

Lemma existsb_eqb_not_In : forall ks k,
  ~ In k ks -> existsb (fun x => String.eqb x k) ks = false.
Proof.
  intros ks k Hn. destruct (existsb (fun x => String.eqb x k) ks) eqn:E; [|reflexivity].
  apply existsb_eqb_In in E. contradiction.
Qed.

Lemma In_namedSessionKeys : forall sessions k,
  In k (namedSessionKeys sessions) <->
  exists d i, In (Some d, Some i) sessions /\ k = keyEndToEndSession d i.
Proof.
  intros sessions k. unfold namedSessionKeys. rewrite in_flat_map. split.
  - intros [[[d|] [i|]] [Hin Hk]]; cbn in Hk; try contradiction.
    destruct Hk as [<-|[]]. exists d, i. split; [exact Hin | reflexivity].
  - intros [d [i [Hin ->]]]. exists (Some d, Some i). split; [exact Hin | left; reflexivity].
Qed.

(** X9.  [deleteEndToEndSessionsBatch] removes the sessions of the entries
    that have both components, which then read as [null]; an entry with a
    component missing removes nothing; and every session that is not named
    reads as before. *)
Theorem delete_sessions_batch : forall C sessions (s : S),
  let r := deleteEndToEndSessionsBatch (C := C) sessions s in
  outcome r = inr tt
  /\ (forall d i,
        In (Some d, Some i) sessions ->
        calls (trace (doTxn (getEndToEndSession d i) (state r))) = [JNull])
  /\ ((forall d i, ~ In (Some d, Some i) sessions) -> state r = s)
  /\ (forall d i,
        JS.well_formed_utf8 d = true -> JS.well_formed_utf8 i = true ->
        (forall d' i', In (Some d', Some i') sessions ->
                       JS.well_formed_utf8 d' = true /\ JS.well_formed_utf8 i' = true) ->
        ~ In (Some d, Some i) sessions ->
        readsAlike (getEndToEndSession d i) (state r) s).
Proof.
  intros C sessions s. cbv zeta. rewrite deleteEndToEndSessionsBatch_result.
  cbn [state outcome]. split; [reflexivity|]. split; [|split].
  - intros d i Hin. unfold getEndToEndSession.
    rewrite (txn_get _ _ JNull); [reflexivity|].
    rewrite stored_fold_removeItem.
    replace (existsb _ _) with true; [reflexivity|].
    symmetry. apply existsb_eqb_In, In_namedSessionKeys. exists d, i. auto.
  - intro Hnone. replace (namedSessionKeys sessions) with (@nil string); [reflexivity|].
    destruct (namedSessionKeys sessions) as [|k ks] eqn:E; [reflexivity|].
    assert (Hk : In k (namedSessionKeys sessions)) by (rewrite E; left; reflexivity).
    apply In_namedSessionKeys in Hk. destruct Hk as [d [i [Hin _]]].
    destruct (Hnone d i Hin).
  - intros d i Wd Wi Hwf Hnot. apply readsAlike_get.
    rewrite stored_fold_removeItem, existsb_eqb_not_In; [reflexivity|].
    intro Hk. apply In_namedSessionKeys in Hk. destruct Hk as [d' [i' [Hin E]]].
    destruct (Hwf d' i' Hin) as [Wd' Wi'].
    destruct (keyEndToEndSession_injective _ _ _ _ Wd Wi Wd' Wi' E) as [-> ->].
    contradiction.
Qed.

(** X10.  [deleteEndToEndInboundGroupSessionsBatch] removes the sessions
    named, and only them: their withheld records stay, and the sessions not
    named read as before. *)
Theorem delete_group_sessions_batch : forall C (sessions : list (string * string)) (s : S),
  let r := deleteEndToEndInboundGroupSessionsBatch (C := C) sessions s in
  outcome r = inr tt
  /\ (forall a b withheld,
        In (a, b) sessions ->
        stored s (keyEndToEndInboundGroupSessionWithheld a b) = Some withheld ->
        calls (trace (doTxn (getEndToEndInboundGroupSession a b) (state r)))
        = [(JNull, withheld)])
  /\ (forall a b,
        JS.well_formed_utf8 a = true -> JS.well_formed_utf8 b = true ->
        (forall p, In p sessions ->
                   JS.well_formed_utf8 (fst p) = true /\ JS.well_formed_utf8 (snd p) = true) ->
        ~ In (a, b) sessions ->
        readsAlike (getEndToEndInboundGroupSession a b) (state r) s).
Proof.
  intros C sessions s. cbv zeta. rewrite deleteEndToEndInboundGroupSessionsBatch_result.
  cbn [state outcome].
  set (ks := map (fun p => keyEndToEndInboundGroupSession (fst p) (snd p)) sessions).
  assert (Hw : forall a b,
            stored (fold_left removeItem ks s) (keyEndToEndInboundGroupSessionWithheld a b)
            = stored s (keyEndToEndInboundGroupSessionWithheld a b)).
  { intros a b. rewrite stored_fold_removeItem, existsb_eqb_not_In; [reflexivity|].
    unfold ks. rewrite in_map_iff. intros [[c d] [E _]]. cbn [fst snd] in E.
    pose proof (group_key_is_not_withheld_key c d a b) as N.
    rewrite E, String.eqb_refl in N. discriminate. }
  split; [reflexivity|]. split.
  - intros a b w Hin Hwithheld.
    rewrite (getEndToEndInboundGroupSession_result _ a b JNull w); [reflexivity| |].
    + rewrite stored_fold_removeItem.
      replace (existsb _ _) with true; [reflexivity|].
      symmetry. apply existsb_eqb_In. unfold ks.
      apply (in_map (fun p => keyEndToEndInboundGroupSession (fst p) (snd p)) _ (a, b) Hin).
    + rewrite Hw. exact Hwithheld.
  - intros a b Wa Wb Hwf Hnot.
    assert (Hg : stored (fold_left removeItem ks s) (keyEndToEndInboundGroupSession a b)
                 = stored s (keyEndToEndInboundGroupSession a b)).
    { rewrite stored_fold_removeItem, existsb_eqb_not_In; [reflexivity|].
      unfold ks. rewrite in_map_iff. intros [[c d] [E Hin]]. cbn [fst snd] in E.
      destruct (Hwf (c, d) Hin) as [Wc Wd]. cbn [fst snd] in *.
      destruct (keyEndToEndInboundGroupSession_injective _ _ _ _ Wc Wd Wa Wb E) as [-> ->].
      contradiction. }
    unfold readsAlike, getEndToEndInboundGroupSession.
    rewrite !doTxn_submit, !bind_getJsonItem, Hg.
    destruct (stored s (keyEndToEndInboundGroupSession a b)); [|split; reflexivity].
    rewrite !bind_getJsonItem, Hw.
    destruct (stored s (keyEndToEndInboundGroupSessionWithheld a b)); split; reflexivity.
Qed.

End Deleting.

(** ** The maps delivered *)

Lemma Own_get_put : forall k v m k',
  Own.get k' (Obj.put k v m) = if String.eqb k k' then Some v else Own.get k' m.
Proof.
  induction m as [|[k0 v0] r IH]; intro k'; cbn [Obj.put Own.get]; [reflexivity|].
  destruct (String.eqb_spec k0 k) as [->|N]; cbn [Own.get].
  - destruct (String.eqb k k'); reflexivity.
  - rewrite IH. destruct (String.eqb_spec k0 k') as [->|N']; [|reflexivity].
    destruct (String.eqb_spec k k') as [->|_]; [contradiction | reflexivity].
Qed.

Lemma Own_get_set : forall k v m k',
  String.eqb k "__proto__" = false ->
  Own.get k' (Obj.set k v m) = if String.eqb k k' then Some v else Own.get k' m.
Proof. intros k v m k' E. unfold Obj.set. rewrite E. apply Own_get_put. Qed.

Lemma Own_get_set_other : forall k v m k',
  String.eqb k' "__proto__" = false -> String.eqb k k' = false ->
  Own.get k' (Obj.set k v m) = Own.get k' m.
Proof.
  intros k v m k' P E. unfold Obj.set.
  destruct (String.eqb k "__proto__"); [reflexivity|].
  rewrite Own_get_put, E. reflexivity.
Qed.

Lemma slice_append : forall p x, JS.slice (String.length p) (p ++ x) = x.
Proof. induction p as [|c p IH]; intro x; [destruct x; reflexivity | apply IH]. Qed.

Lemma eqb_append : forall p a b, String.eqb (p ++ a) (p ++ b) = String.eqb a b.
Proof.
  intros p a b. destruct (String.eqb_spec a b) as [->|N].
  - apply String.eqb_refl.
  - apply String.eqb_neq. intro E. apply N. apply (append_inv_head p). exact E.
Qed.

Section Maps.

Context {S : Type} `{LawfulAsyncStore S} `{JSONCodec}.

Lemma getEndToEndRooms_loop_lookup : forall ks acc (s : S),
  (forall k, In k ks -> JS.startsWith k ROOMS_PREFIX = true /\ stored s k <> None) ->
  exists rooms,
    getEndToEndRooms_loop ks acc s = mkResult s [] (inr rooms)
    /\ forall roomId,
         String.eqb roomId "__proto__" = false ->
         Own.get roomId rooms =
         if existsb (fun k => String.eqb k (keyEndToEndRoom roomId)) ks
         then stored s (keyEndToEndRoom roomId)
         else Own.get roomId acc.
Proof.
  induction ks as [|k r IH]; intros acc s Hall.
  - exists acc. split; [reflexivity|]. intros. reflexivity.
  - destruct (Hall k (or_introl eq_refl)) as [Hp Hs].
    destruct (startsWith_split _ _ Hp) as [x ->].
    destruct (stored s (ROOMS_PREFIX ++ x)) as [v|] eqn:Ev; [|contradiction].
    destruct (IH (Obj.set x v acc) s) as [rooms [Er Hr]];
      [intros k Hk; apply Hall; right; exact Hk|].
    exists rooms. split.
    + cbn [getEndToEndRooms_loop]. cbv zeta. rewrite bind_getJsonItem, Ev.
      rewrite slice_append. exact Er.
    + intros roomId P. rewrite (Hr roomId P). cbn [existsb].
      destruct (existsb (fun k => String.eqb k (keyEndToEndRoom roomId)) r);
        [rewrite orb_true_r; reflexivity|].
      rewrite orb_false_r. unfold keyEndToEndRoom. rewrite eqb_append.
      destruct (String.eqb_spec x roomId) as [->|N].
      * rewrite (Own_get_set _ _ _ _ P), String.eqb_refl. symmetry. exact Ev.
      * apply Own_get_set_other; [exact P | apply String.eqb_neq; exact N].
Qed.

Lemma getEndToEndRooms_result : forall (s : S),
  (forall k, In k (roomKeys s) -> stored s k <> None) ->
  exists rooms,
    doTxn getEndToEndRooms s = mkResult s [Call (JObj rooms)] (inr (FulfilledWith tt))
    /\ forall roomId,
         String.eqb roomId "__proto__" = false ->
         Own.get roomId rooms =
         match getItem s (keyEndToEndRoom roomId) with
         | Some text => JSON_parse text
         | None => None
         end.
Proof.
  intros s Hall.
  destruct (getEndToEndRooms_loop_lookup (roomKeys s) [] s) as [rooms [Er Hr]].
  { intros k Hk. split; [|apply Hall; exact Hk].
    unfold roomKeys in Hk. apply filter_In in Hk. apply Hk. }
  exists rooms. split.
  - unfold getEndToEndRooms. rewrite doTxn_submit, bind_gets. fold (roomKeys s).
    rewrite (bind_value _ _ _ _ _ _ _ _ _ Er). reflexivity.
  - intros roomId P. rewrite (Hr roomId P).
    destruct (existsb (fun k => String.eqb k (keyEndToEndRoom roomId)) (roomKeys s)) eqn:E.
    + apply existsb_eqb_In in E. unfold roomKeys in E. apply filter_In in E.
      destruct E as [E _]. apply getAllKeys_getItem in E. unfold stored.
      destruct (getItem s (keyEndToEndRoom roomId)); [reflexivity | contradiction].
    + destruct (getItem s (keyEndToEndRoom roomId)) eqn:G; [|reflexivity].
      assert (Hin : In (keyEndToEndRoom roomId) (roomKeys s)).
      { unfold roomKeys. apply filter_In. split.
        - apply getAllKeys_getItem. rewrite G. discriminate.
        - apply startsWith_append. }
      apply existsb_eqb_In in Hin. rewrite Hin in E. discriminate.
Qed.

(** X11.  When every stored room can be read, [getEndToEndRooms] calls back
    once, with a map in which a room identifier has what is stored for the
    room, and nothing when no room is stored under it.  After
    [storeEndToEndRoom] the map has the room that was stored, and the other
    rooms as before. *)
Theorem rooms_round_trip : forall C (s : S),
  (forall k, In k (roomKeys s) -> stored s k <> None) ->
  exists rooms,
    doTxn getEndToEndRooms s = mkResult s [Call (JObj rooms)] (inr (FulfilledWith tt))
    /\ (forall roomId,
          String.eqb roomId "__proto__" = false ->
          Own.get roomId rooms =
          match getItem s (keyEndToEndRoom roomId) with
          | Some text => JSON_parse text
          | None => None
          end)
    /\ (forall roomId roomInfo,
          String.eqb roomId "__proto__" = false ->
          JSON_parse (JSON_stringify roomInfo) = Some roomInfo ->
          let s' := state (doTxn (C := C) (storeEndToEndRoom roomId roomInfo) s) in
          exists rooms',
            doTxn getEndToEndRooms s' =
            mkResult s' [Call (JObj rooms')] (inr (FulfilledWith tt))
            /\ Own.get roomId rooms' = Some roomInfo
            /\ (forall other,
                  String.eqb other "__proto__" = false -> other <> roomId ->
                  Own.get other rooms' = Own.get other rooms)).
Proof.
  intros C s Hall.
  destruct (getEndToEndRooms_result s Hall) as [rooms [Er Hr]].
  exists rooms. split; [exact Er|]. split; [exact Hr|].
  intros roomId roomInfo P Hcodec. cbv zeta.
  unfold storeEndToEndRoom. rewrite txn_set. cbn [state].
  set (s' := setItem s (keyEndToEndRoom roomId) (JSON_stringify roomInfo)).
  destruct (getEndToEndRooms_result s') as [rooms' [Er' Hr']].
  { intros k Hk. unfold s', stored. rewrite getItem_setItem.
    destruct (String.eqb (keyEndToEndRoom roomId) k) eqn:E.
    - rewrite Hcodec. discriminate.
    - apply (Hall k). unfold roomKeys in *. apply filter_In in Hk.
      destruct Hk as [Hk Hp]. apply filter_In. split; [|exact Hp].
      apply getAllKeys_getItem. apply getAllKeys_getItem in Hk.
      unfold s' in Hk. rewrite getItem_setItem, E in Hk. exact Hk. }
  exists rooms'. split; [exact Er'|]. split.
  - rewrite (Hr' roomId P). unfold s'.
    rewrite getItem_setItem, String.eqb_refl. exact Hcodec.
  - intros other Po Hne. rewrite (Hr' other Po), (Hr other Po). unfold s'.
    rewrite getItem_setItem. unfold keyEndToEndRoom. rewrite eqb_append.
    destruct (String.eqb_spec roomId other) as [->|_]; [contradiction | reflexivity].
Qed.

Lemma getEndToEndSessions_loop_lookup : forall deviceKey ks acc (s : S),
  (forall k, In k ks -> sessionAt s deviceKey k <> None) ->
  exists sessions,
    getEndToEndSessions_loop deviceKey ks acc s = mkResult s [] (inr sessions)
    /\ forall sessionId,
         String.eqb sessionId "__proto__" = false ->
         Own.get sessionId sessions =
         if existsb (namesSession sessionId) ks
         then stored s (keyEndToEndSession deviceKey sessionId)
         else Own.get sessionId acc.
Proof.
  induction ks as [|k r IH]; intros acc s Hall.
  - exists acc. split; [reflexivity|]. intros. reflexivity.
  - pose proof (Hall k (or_introl eq_refl)) as Hk. unfold sessionAt in Hk.
    destruct (JS.decodeURIComponent (JS.part (JS.split "/" k) 2)) as [id|] eqn:Ed;
      [|contradiction].
    destruct (stored s (keyEndToEndSession deviceKey id)) as [v|] eqn:Ev; [|contradiction].
    destruct (IH (Obj.set id v acc) s) as [sessions [Er Hr]];
      [intros k' Hk'; apply Hall; right; exact Hk'|].
    exists sessions. split.
    + cbn [getEndToEndSessions_loop]. rewrite bind_decode, Ed, bind_getJsonItem, Ev.
      exact Er.
    + intros sessionId P. rewrite (Hr sessionId P). cbn [existsb].
      destruct (existsb (namesSession sessionId) r); [rewrite orb_true_r; reflexivity|].
      rewrite orb_false_r. unfold namesSession. rewrite Ed.
      destruct (String.eqb_spec id sessionId) as [->|N].
      * rewrite (Own_get_set _ _ _ _ P), String.eqb_refl. symmetry. exact Ev.
      * apply Own_get_set_other; [exact P | apply String.eqb_neq; exact N].
Qed.

Lemma namesSession_key : forall deviceKey sessionId,
  JS.well_formed_utf8 sessionId = true ->
  namesSession sessionId (keyEndToEndSession deviceKey sessionId) = true.
Proof.
  intros d i W. unfold namesSession. rewrite split_keyEndToEndSession.
  unfold JS.part. cbn [nth]. rewrite (decode_encodeURIComponent i W).
  apply String.eqb_refl.
Qed.

(** X12.  When every key of a session of the device can be decoded and
    read, [getEndToEndSessions] calls back once, with a map in which the
    identifier of each stored session of the device has the session stored
    for it, and an identifier that no key of the device names has
    nothing. *)
Theorem sessions_of_device : forall (s : S) deviceKey,
  (forall k,
     In k (filter (fun k => JS.startsWith k (prefixEndToEndSession deviceKey)) (getAllKeys s)) ->
     sessionAt s deviceKey k <> None) ->
  exists sessions,
    doTxn (getEndToEndSessions deviceKey) s =
    mkResult s [Call (JObj sessions)] (inr (FulfilledWith tt))
    /\ (forall sessionId text,
          JS.well_formed_utf8 sessionId = true ->
          String.eqb sessionId "__proto__" = false ->
          getItem s (keyEndToEndSession deviceKey sessionId) = Some text ->
          Own.get sessionId sessions = JSON_parse text)
    /\ (forall sessionId,
          String.eqb sessionId "__proto__" = false ->
          existsb (namesSession sessionId)
            (filter (fun k => JS.startsWith k (prefixEndToEndSession deviceKey))
               (getAllKeys s)) = false ->
          Own.get sessionId sessions = None).
Proof.
  intros s d Hall.
  destruct (getEndToEndSessions_loop_lookup d _ [] s Hall) as [sessions [Er Hr]].
  exists sessions. split; [|split].
  - unfold getEndToEndSessions. rewrite doTxn_submit, bind_gets. cbv zeta.
    rewrite (bind_value _ _ _ _ _ _ _ _ _ Er). reflexivity.
  - intros i text W P G. rewrite (Hr i P).
    replace (existsb _ _) with true.
    + unfold stored. rewrite G. reflexivity.
    + symmetry. apply existsb_exists. exists (keyEndToEndSession d i). split.
      * apply filter_In. split.
        -- apply getAllKeys_getItem. rewrite G. discriminate.
        -- unfold keyEndToEndSession. apply startsWith_append.
      * apply namesSession_key. exact W.
  - intros i P E. rewrite (Hr i P), E. reflexivity.
Qed.

End Maps.

(** ** Marking sessions for backup *)

Lemma digit_not_slash : forall c, JS.between 48 57 c = true -> Ascii.eqb c "/" = false.
Proof. intro c. each_byte c; intro E; try discriminate E; reflexivity. Qed.

Lemma digits_split : forall s acc n, Obj.digits s acc = Some n -> JS.split "/" s = [s].
Proof.
  induction s as [|c r IH]; intros acc n E; [reflexivity|].
  cbn [Obj.digits] in E. destruct (JS.between 48 57 c) eqn:D; [|discriminate].
  cbn [JS.split]. rewrite (digit_not_slash c D), (IH _ _ E). reflexivity.
Qed.

Lemma arrayIndex_split : forall s n, Obj.arrayIndex s = Some n -> JS.split "/" s = [s].
Proof.
  intros s n E. destruct s as [|c r]; [discriminate|]. unfold Obj.arrayIndex in E.
  destruct (Ascii.eqb c "0") eqn:Z.
  - destruct r; [|discriminate]. apply Ascii.eqb_eq in Z. subst c. reflexivity.
  - destruct (Obj.digits (String c r) 0) as [m|] eqn:D; [|discriminate].
    apply (digits_split _ _ _ D).
Qed.

Lemma arrayIndex_backupName : forall a b, Obj.arrayIndex (backupName a b) = None.
Proof.
  intros a b. destruct (Obj.arrayIndex (backupName a b)) as [n|] eqn:E; [|reflexivity].
  apply arrayIndex_split in E. rewrite split_backupName in E. discriminate.
Qed.

Lemma backupName_not_proto : forall a b, String.eqb (backupName a b) "__proto__" = false.
Proof.
  intros a b. apply String.eqb_neq. intro E. apply (f_equal (JS.split "/")) in E.
  rewrite split_backupName in E. change (JS.split "/" "__proto__") with ["__proto__"] in E.
  discriminate.
Qed.

Lemma backupName_injective : forall a b c d,
  JS.well_formed_utf8 a = true -> JS.well_formed_utf8 b = true ->
  JS.well_formed_utf8 c = true -> JS.well_formed_utf8 d = true ->
  backupName a b = backupName c d -> a = c /\ b = d.
Proof.
  intros a b c d Wa Wb Wc Wd E. apply (f_equal (JS.split "/")) in E.
  rewrite !split_backupName in E. injection E as E1 E2.
  split; apply encodeURIComponent_injective; assumption.
Qed.

Lemma In_insertIndex : forall x n k l,
  In x (map snd (Obj.insertIndex n k l)) <-> x = k \/ In x (map snd l).
Proof.
  induction l as [|[n' k'] r IH]; cbn [Obj.insertIndex map snd In].
  - split; [intros [E|[]]; left; symmetry; exact E | intros [E|[]]; left; symmetry; exact E].
  - destruct (n <=? n')%N; cbn [map snd In].
    + split; [intros [E|E]; [left; symmetry; exact E | right; exact E]
             | intros [E|E]; [left; symmetry; exact E | right; exact E]].
    + rewrite IH. tauto.
Qed.

Lemma In_indexKeys : forall x ks,
  In x (map snd (Obj.indexKeys ks)) <-> In x ks /\ Obj.arrayIndex x <> None.
Proof.
  induction ks as [|k r IH]; cbn [Obj.indexKeys map In]; [tauto|].
  destruct (Obj.arrayIndex k) as [n|] eqn:E.
  - rewrite In_insertIndex, IH. split.
    + intros [->|[A B]]; [split; [left; reflexivity | congruence] | tauto].
    + intros [[<-|A] B]; [left; reflexivity | right; tauto].
  - rewrite IH. split; [tauto|]. intros [[<-|A] B]; [contradiction | tauto].
Qed.

Lemma In_ownKeys : forall x m, In x (Obj.ownKeys m) <-> In x (map fst m).
Proof.
  intros x m. unfold Obj.ownKeys, Obj.nameKeys.
  rewrite in_app_iff, In_indexKeys, filter_In.
  destruct (Obj.arrayIndex x) as [n|]; split.
  - intros [[A _]|[_ B]]; [exact A | discriminate].
  - intro A. left. split; [exact A | discriminate].
  - intros [[_ B]|[A _]]; [contradiction | exact A].
  - intro A. right. split; [exact A | reflexivity].
Qed.

Lemma ownKeys_names : forall m,
  Forall (fun k => Obj.arrayIndex k = None) (map fst m) -> Obj.ownKeys m = map fst m.
Proof.
  intros m Hall. unfold Obj.ownKeys, Obj.nameKeys.
  induction (map fst m) as [|k r IH]; [reflexivity|].
  inversion Hall as [|x l Hk Hr]; subst. cbn [Obj.indexKeys filter]. rewrite Hk.
  specialize (IH Hr). destruct (map snd (Obj.indexKeys r)) eqn:E.
  - cbn [app] in *. rewrite IH. reflexivity.
  - exfalso. assert (Hin : In s (map snd (Obj.indexKeys r))) by (rewrite E; left; reflexivity).
    apply In_indexKeys in Hin. destruct Hin as [Hin Hn].
    rewrite Forall_forall in Hr. apply Hn, Hr, Hin.
Qed.

Lemma In_put : forall x k v m,
  In x (map fst (Obj.put k v m)) <-> x = k \/ In x (map fst m).
Proof.
  induction m as [|[k0 v0] r IH]; cbn [Obj.put map fst In].
  - split; [intros [E|[]]; left; symmetry; exact E | intros [E|[]]; left; symmetry; exact E].
  - destruct (String.eqb_spec k0 k) as [->|N]; cbn [map fst In].
    + split; [intros [E|E]; [left; symmetry; exact E | right; right; exact E]
             | intros [E|[E|E]]; [left; symmetry; exact E | left; exact E | right; exact E]].
    + rewrite IH. tauto.
Qed.

Lemma put_fresh : forall k v m, ~ In k (map fst m) -> Obj.put k v m = (m ++ [(k, v)])%list.
Proof.
  induction m as [|[k0 v0] r IH]; intro Hn; [reflexivity|].
  cbn [Obj.put map fst In app] in *.
  destruct (String.eqb_spec k0 k) as [->|N]; [exfalso; apply Hn; left; reflexivity|].
  rewrite IH; [reflexivity|]. intro A. apply Hn. right. exact A.
Qed.

Lemma In_delete : forall x k m,
  In x (map fst (Own.delete k m)) <-> In x (map fst m) /\ x <> k.
Proof.
  intros x k m. unfold Own.delete. rewrite !in_map_iff. split.
  - intros [p [<- Hp]]. apply filter_In in Hp. destruct Hp as [Hp Hk].
    apply negb_true_iff, String.eqb_neq in Hk. split; [exists p; tauto | exact Hk].
  - intros [[p [<- Hp]] Hk]. exists p. split; [reflexivity|].
    apply filter_In. split; [exact Hp|]. apply negb_true_iff, String.eqb_neq. exact Hk.
Qed.

Lemma In_marking : forall x sessions m,
  In x (map fst (marking sessions m)) <->
  In x (map fst m) \/ In x (map sessionName sessions).
Proof.
  unfold marking. induction sessions as [|e r IH]; intro m; cbn [fold_left map In]; [tauto|].
  rewrite IH. unfold Obj.set, sessionName at 1. rewrite backupName_not_proto, In_put.
  unfold sessionName. split; [intros [[A|A]|A] | intros [A|[A|A]]]; auto.
Qed.

Lemma In_unmarking : forall x sessions m,
  In x (map fst (unmarking sessions m)) <->
  In x (map fst m) /\ ~ In x (map sessionName sessions).
Proof.
  unfold unmarking. induction sessions as [|e r IH]; intro m; cbn [fold_left map In]; [tauto|].
  rewrite IH, In_delete. split.
  - intros [[A B] D]. split; [exact A|]. intros [E|E]; [apply B; symmetry; exact E | tauto].
  - intros [A B]. split; [split; [exact A|] |]; intro E; apply B; [left; symmetry|right]; exact E.
Qed.

Lemma marking_fresh : forall sessions m,
  NoDup (map sessionName sessions) ->
  (forall e, In e sessions -> ~ In (sessionName e) (map fst m)) ->
  marking sessions m = (m ++ markedMap (map identifiers sessions))%list.
Proof.
  unfold marking. induction sessions as [|e r IH]; intros m Hn Hfresh.
  - cbn. rewrite app_nil_r. reflexivity.
  - cbn [fold_left map markedMap] in *. inversion Hn as [|x l Hx Hr]; subst.
    unfold Obj.set at 2. unfold sessionName at 2. rewrite backupName_not_proto.
    fold (sessionName e).
    rewrite put_fresh by (apply Hfresh; left; reflexivity).
    rewrite IH; [rewrite <- app_assoc; reflexivity | exact Hr |].
    intros e' He' Hin. rewrite map_app, in_app_iff in Hin. destruct Hin as [A|[A|[]]].
    + apply (Hfresh e'); [right; exact He' | exact A].
    + apply Hx. cbn [fst] in A. rewrite A. apply in_map. exact He'.
Qed.

Lemma unmarking_nil : forall sessions, unmarking sessions [] = [].
Proof. unfold unmarking. induction sessions as [|e r IH]; [reflexivity | exact IH]. Qed.

Lemma unmarking_all : forall sessions m,
  (forall x, In x (map fst m) -> In x (map sessionName sessions)) ->
  unmarking sessions m = [].
Proof.
  intros sessions m Hall. destruct (unmarking sessions m) as [|[k v] r] eqn:E; [reflexivity|].
  assert (Hin : In k (map fst (unmarking sessions m))) by (rewrite E; left; reflexivity).
  apply In_unmarking in Hin. destruct Hin as [A B]. destruct (B (Hall k A)).
Qed.

Section Marking.

Context {S : Type} `{LawfulAsyncStore S} `{JSONCodec}.

Lemma markSessionsNeedingBackup_loop_object : forall C sessions m (s : S),
  markSessionsNeedingBackup_loop (C := C) sessions (JObj m) s =
  mkResult s [] (inr (JObj (marking sessions m))).
Proof.
  unfold marking. induction sessions as [|e r IH]; intros m s; [reflexivity|].
  cbn [markSessionsNeedingBackup_loop fold_left].
  rewrite (bind_value _ _ _ _ _ _ s s
             (JObj (Obj.set (sessionName e) (JBool true) m))) by reflexivity.
  apply IH.
Qed.

Lemma unmarkSessionsNeedingBackup_loop_object : forall sessions m,
  unmarkSessionsNeedingBackup_loop sessions (JObj m) = JObj (unmarking sessions m).
Proof.
  unfold unmarking. induction sessions as [|e r IH]; intro m; [reflexivity|].
  cbn [unmarkSessionsNeedingBackup_loop fold_left deleteName]. apply IH.
Qed.

Lemma markSessionsNeedingBackup_result : forall C sessions (s : S) m,
  backupMap s = Some (JObj m) ->
  markSessionsNeedingBackup (C := C) sessions s =
  mkResult (setItem s KEY_SESSIONS_NEEDING_BACKUP (JSON_stringify (JObj (marking sessions m))))
    [] (inr tt).
Proof.
  intros C sessions s m E. unfold markSessionsNeedingBackup, backupMap in *.
  rewrite bind_getJsonItem.
  destruct (stored s KEY_SESSIONS_NEEDING_BACKUP) as [v|]; [|discriminate].
  injection E as E. cbv zeta. rewrite E.
  rewrite (bind_value _ _ _ _ _ _ _ _ _ (markSessionsNeedingBackup_loop_object C sessions m s)).
  reflexivity.
Qed.

Lemma unmarkSessionsNeedingBackup_result : forall C sessions (s : S) m,
  backupMap s = Some (JObj m) ->
  unmarkSessionsNeedingBackup (C := C) sessions s =
  mkResult (setItem s KEY_SESSIONS_NEEDING_BACKUP (JSON_stringify (JObj (unmarking sessions m))))
    [] (inr tt).
Proof.
  intros C sessions s m E. unfold unmarkSessionsNeedingBackup, backupMap in *.
  rewrite bind_getJsonItem.
  destruct (stored s KEY_SESSIONS_NEEDING_BACKUP) as [v|]; [|discriminate].
  injection E as E. cbv zeta. rewrite E, unmarkSessionsNeedingBackup_loop_object.
  reflexivity.
Qed.

Lemma backupMap_written : forall (s : S) m,
  JSON_parse (JSON_stringify (JObj m)) = Some (JObj m) ->
  backupMap (setItem s KEY_SESSIONS_NEEDING_BACKUP (JSON_stringify (JObj m))) = Some (JObj m).
Proof.
  intros s m E. unfold backupMap. rewrite (stored_written s _ _ E). reflexivity.
Qed.

Lemma markedNames_written : forall (s : S) m,
  JSON_parse (JSON_stringify (JObj m)) = Some (JObj m) ->
  markedNames (setItem s KEY_SESSIONS_NEEDING_BACKUP (JSON_stringify (JObj m)))
  = Some (Obj.ownKeys m).
Proof.
  intros s m E. unfold markedNames. rewrite (stored_written s _ _ E). reflexivity.
Qed.

Lemma countSessionsNeedingBackup_names : forall C (s : S) names,
  markedNames s = Some names ->
  outcome (countSessionsNeedingBackup (C := C) s) = inr (List.length names).
Proof.
  intros C s names E. unfold countSessionsNeedingBackup, markedNames in *.
  rewrite bind_getJsonItem.
  destruct (stored s KEY_SESSIONS_NEEDING_BACKUP); [|discriminate].
  injection E as <-. reflexivity.
Qed.

(** X13.  Starting without a map of sessions needing backup,
    [markSessionsNeedingBackup] makes [getSessionsNeedingBackup] return the
    sessions marked, in the order given and each with its stored data, and
    [countSessionsNeedingBackup] their number; after
    [unmarkSessionsNeedingBackup] of the same sessions both find nothing. *)
Theorem mark_then_unmark : forall C (s : S) sessions limit,
  getItem s KEY_SESSIONS_NEEDING_BACKUP = None ->
  NoDup (map identifiers sessions) ->
  (forall p, In p (map identifiers sessions) ->
     JS.well_formed_utf8 (fst p) = true /\ JS.well_formed_utf8 (snd p) = true
     /\ stored s (keyEndToEndInboundGroupSession (fst p) (snd p)) <> None) ->
  JSON_parse (JSON_stringify (JObj (markedMap (map identifiers sessions))))
  = Some (JObj (markedMap (map identifiers sessions))) ->
  JSON_parse (JSON_stringify (JObj [])) = Some (JObj []) ->
  let marked := markSessionsNeedingBackup (C := C) sessions s in
  let unmarked := unmarkSessionsNeedingBackup (C := C) sessions (state marked) in
  outcome marked = inr tt
  /\ outcome (getSessionsNeedingBackup (C := C) limit (state marked))
     = inr (limitTo limit (flat_map (joined s) (map identifiers sessions)))
  /\ outcome (countSessionsNeedingBackup (C := C) (state marked))
     = inr (List.length sessions)
  /\ outcome unmarked = inr tt
  /\ outcome (getSessionsNeedingBackup (C := C) limit (state unmarked)) = inr []
  /\ outcome (countSessionsNeedingBackup (C := C) (state unmarked)) = inr 0.
Proof.
  intros C s sessions limit Habsent Hnodup Hall Hcodec Hempty. cbv zeta.
  assert (Hmap : backupMap s = Some (JObj [])).
  { unfold backupMap. rewrite (stored_absent s _ Habsent). reflexivity. }
  assert (Hnames : NoDup (map sessionName sessions)).
  { clear - Hnodup Hall. induction sessions as [|e r IH]; [constructor|].
    cbn [map] in *. inversion Hnodup as [|x l Hx Hr]; subst. constructor.
    - intro Hin. apply in_map_iff in Hin. destruct Hin as [e' [E He']].
      destruct (Hall (identifiers e) (or_introl eq_refl)) as [W1 [W2 _]].
      destruct (Hall (identifiers e') (or_intror (in_map identifiers _ _ He')))
        as [W3 [W4 _]].
      destruct (backupName_injective _ _ _ _ W3 W4 W1 W2 E) as [E1 E2].
      apply Hx. replace (identifiers e) with (identifiers e');
        [apply in_map; exact He'|].
      rewrite (surjective_pairing (identifiers e')), (surjective_pairing (identifiers e)).
      rewrite E1, E2. reflexivity.
    - apply IH; [exact Hr|]. intros p Hp. apply Hall. right. exact Hp. }
  rewrite (markSessionsNeedingBackup_result C sessions s [] Hmap).
  rewrite (marking_fresh sessions [] Hnames) by (intros e _ []).
  cbn [app state outcome].
  set (mm := markedMap (map identifiers sessions)) in *.
  set (s1 := setItem s KEY_SESSIONS_NEEDING_BACKUP (JSON_stringify (JObj mm))).
  assert (Hkeys : Obj.ownKeys mm
                  = map (fun p => backupName (fst p) (snd p)) (map identifiers sessions)).
  { unfold mm, markedMap. rewrite ownKeys_names; rewrite map_map; cbn [fst]; [reflexivity|].
    apply Forall_forall. intros k Hk. apply in_map_iff in Hk.
    destruct Hk as [p [<- _]]. apply arrayIndex_backupName. }
  assert (Hm1 : markedNames s1
                = Some (map (fun p => backupName (fst p) (snd p)) (map identifiers sessions))).
  { unfold s1. rewrite (markedNames_written s mm Hcodec), Hkeys. reflexivity. }
  assert (Hsame : forall a b, stored s1 (keyEndToEndInboundGroupSession a b)
                              = stored s (keyEndToEndInboundGroupSession a b)).
  { intros a b. apply stored_setItem_other. reflexivity. }
  rewrite (unmarkSessionsNeedingBackup_result C sessions s1 mm (backupMap_written s mm Hcodec)).
  rewrite unmarking_all.
  2:{ intros x Hx. unfold mm, markedMap in Hx. rewrite map_map in Hx. cbn [fst] in Hx.
      rewrite map_map in Hx. exact Hx. }
  cbn [state outcome].
  assert (Hm2 : markedNames (setItem s1 KEY_SESSIONS_NEEDING_BACKUP (JSON_stringify (JObj [])))
                = Some []).
  { rewrite (markedNames_written s1 [] Hempty). reflexivity. }
  split; [reflexivity|]. split; [|split; [|split; [reflexivity|split]]].
  - rewrite (getSessionsNeedingBackup_unfold C limit s1 _ Hm1).
    rewrite (getSessionsNeedingBackup_loop_outcome C limit (map identifiers sessions) [] s1).
    + cbn [app]. f_equal. f_equal. apply flat_map_ext. intros [a b].
      unfold joined. cbn [fst snd]. rewrite Hsame. reflexivity.
    + intros p Hp. destruct (Hall p Hp) as [W1 [W2 Hs]].
      split; [exact W1|]. split; [exact W2|]. rewrite Hsame. exact Hs.
    + destruct limit; [left; reflexivity | right; cbn; lia].
  - rewrite (countSessionsNeedingBackup_names C s1 _ Hm1). rewrite !length_map. reflexivity.
  - rewrite (getSessionsNeedingBackup_unfold C limit _ _ Hm2). reflexivity.
  - rewrite (countSessionsNeedingBackup_names C _ _ Hm2). reflexivity.
Qed.

(** X14.  The marks are a set of names.  On a map of sessions needing backup
    that is an object (or is not there yet), [markSessionsNeedingBackup]
    adds the names of the sessions given to the names marked before, and
    [unmarkSessionsNeedingBackup] takes them away from those; the
    other names stay. *)
Theorem marks_are_a_set : forall C (s : S) m sessions,
  backupMap s = Some (JObj m) ->
  (JSON_parse (JSON_stringify (JObj (marking sessions m))) = Some (JObj (marking sessions m)) ->
   exists names,
     markedNames (state (markSessionsNeedingBackup (C := C) sessions s)) = Some names
     /\ forall x, In x names <-> In x (Obj.keys (JObj m)) \/ In x (map sessionName sessions))
  /\ (JSON_parse (JSON_stringify (JObj (unmarking sessions m)))
      = Some (JObj (unmarking sessions m)) ->
      exists names,
        markedNames (state (unmarkSessionsNeedingBackup (C := C) sessions s)) = Some names
        /\ forall x, In x names <->
                     In x (Obj.keys (JObj m)) /\ ~ In x (map sessionName sessions)).
Proof.
  intros C s m sessions Hmap. split; intro Hcodec.
  - rewrite (markSessionsNeedingBackup_result C sessions s m Hmap). cbn [state].
    rewrite (markedNames_written s _ Hcodec). eexists. split; [reflexivity|].
    intro x. cbn [Obj.keys]. rewrite !In_ownKeys. apply In_marking.
  - rewrite (unmarkSessionsNeedingBackup_result C sessions s m Hmap). cbn [state].
    rewrite (markedNames_written s _ Hcodec). eexists. split; [reflexivity|].
    intro x. cbn [Obj.keys]. rewrite !In_ownKeys. apply In_unmarking.
Qed.

End Marking.

(** ** Lists kept under a room *)

Section RoomLists.

Context {S : Type} `{LawfulAsyncStore S} `{JSONCodec}.

(** X15.  [getSharedHistoryInboundGroupSessions] returns the empty list for
    a room without sessions.  [addSharedHistoryInboundGroupSession] puts the
    pair of identifiers at the end of the list of the room and leaves the
    lists of the other rooms as they are; when what is stored for the room
    is not a list, it throws and writes nothing. *)
Theorem shared_history_accumulates : forall C (s : S) roomId senderKey sessionId,
  let added := addSharedHistoryInboundGroupSession (C := C) roomId senderKey sessionId s in
  let pair := JArr [JStr senderKey; JStr sessionId] in
  (getItem s (keySharedHistoryInboundGroupSessions roomId) = None ->
   outcome (getSharedHistoryInboundGroupSessions (C := C) roomId s) = inr (JArr []))
  /\ (forall l,
        outcome (getSharedHistoryInboundGroupSessions (C := C) roomId s) = inr (JArr l) ->
        JSON_parse (JSON_stringify (JArr (l ++ [pair]))) = Some (JArr (l ++ [pair])) ->
        outcome added = inr tt
        /\ outcome (getSharedHistoryInboundGroupSessions (C := C) roomId (state added))
           = inr (JArr (l ++ [pair]))
        /\ (forall other,
              JS.well_formed_utf8 roomId = true -> JS.well_formed_utf8 other = true ->
              other <> roomId ->
              outcome (getSharedHistoryInboundGroupSessions (C := C) other (state added))
              = outcome (getSharedHistoryInboundGroupSessions (C := C) other s)))
  /\ (forall v,
        outcome (getSharedHistoryInboundGroupSessions (C := C) roomId s) = inr v ->
        (forall l, v <> JArr l) ->
        added = mkResult s [] (inl typeError)).
Proof.
  intros C s roomId a b. cbv zeta.
  unfold getSharedHistoryInboundGroupSessions, addSharedHistoryInboundGroupSession.
  cbv zeta. set (key := keySharedHistoryInboundGroupSessions roomId).
  split; [|split].
  - intro Habsent. rewrite bind_getJsonItem, (stored_absent s _ Habsent). reflexivity.
  - intros l. rewrite !bind_getJsonItem.
    destruct (stored s key) as [v|] eqn:Ev; [|discriminate].
    cbn [ret outcome]. intros E Hcodec. injection E as E. rewrite E.
    cbn [push].
    rewrite (bind_value _ _ _ _ _ _ s s (JArr (l ++ [JArr [JStr a; JStr b]]))) by reflexivity.
    cbn [_setJsonItem modify state outcome].
    split; [reflexivity|]. split.
    + rewrite (stored_written s key _ Hcodec). reflexivity.
    + intros other W1 W2 Hne. rewrite !bind_getJsonItem.
      rewrite stored_setItem_other;
        [destruct (stored s (keySharedHistoryInboundGroupSessions other)); reflexivity|].
      unfold key, keySharedHistoryInboundGroupSessions. rewrite eqb_append.
      apply String.eqb_neq. intro E'. apply Hne. symmetry.
      apply encodeURIComponent_injective; assumption.
  - intros v. rewrite !bind_getJsonItem.
    destruct (stored s key) as [w|] eqn:Ev; [|discriminate].
    cbn [ret outcome]. intros E Hnot. injection E as E. rewrite E.
    destruct v as [| | | |l|]; try reflexivity. destruct (Hnot l eq_refl).
Qed.

Lemma takeParkedSharedHistory_result : forall C (s : S) roomId v,
  stored s (keyParkedSharedHistory roomId) = Some v ->
  takeParkedSharedHistory (C := C) roomId s =
  mkResult (removeItem s (keyParkedSharedHistory roomId)) [] (inr (nullish v (JArr []))).
Proof.
  intros C s roomId v E. unfold takeParkedSharedHistory. cbv zeta.
  rewrite bind_getJsonItem, E.
  rewrite (bind_value _ _ _ _ _ _ s (removeItem s (keyParkedSharedHistory roomId)) tt)
    by reflexivity.
  reflexivity.
Qed.

Lemma takeParkedSharedHistory_returned : forall C (s : S) roomId v,
  outcome (takeParkedSharedHistory (C := C) roomId s) = inr v ->
  exists w, stored s (keyParkedSharedHistory roomId) = Some w /\ nullish w (JArr []) = v.
Proof.
  intros C s roomId v E. unfold takeParkedSharedHistory in E. cbv zeta in E.
  rewrite bind_getJsonItem in E.
  destruct (stored s (keyParkedSharedHistory roomId)) as [w|]; [|discriminate].
  exists w. split; [reflexivity|].
  rewrite (bind_value _ _ _ _ _ _ s (removeItem s (keyParkedSharedHistory roomId)) tt) in E
    by reflexivity.
  cbn in E. injection E as E. exact E.
Qed.

Lemma addParkedSharedHistory_result : forall C (s : S) roomId data v l,
  stored s (keyParkedSharedHistory roomId) = Some v ->
  nullish v (JArr []) = JArr l ->
  addParkedSharedHistory (C := C) roomId data s =
  mkResult (setItem s (keyParkedSharedHistory roomId) (JSON_stringify (JArr (l ++ [data]))))
    [] (inr tt).
Proof.
  intros C s roomId data v l E El. unfold addParkedSharedHistory.
  rewrite bind_getJsonItem, E, El. cbn [push].
  rewrite (bind_value _ _ _ _ _ _ s s (JArr (l ++ [data]))) by reflexivity.
  reflexivity.
Qed.

(** X16.  [takeParkedSharedHistory] returns what [addParkedSharedHistory]
    has put for the room, in the order of the additions, and removes it:
    taking again returns the empty list.  What is parked for another room
    stays. *)
Theorem parked_history_is_taken_once : forall C (s : S) roomId data l,
  outcome (takeParkedSharedHistory (C := C) roomId s) = inr (JArr l) ->
  JSON_parse (JSON_stringify (JArr (l ++ [data]))) = Some (JArr (l ++ [data])) ->
  let added := addParkedSharedHistory (C := C) roomId data s in
  let taken := takeParkedSharedHistory (C := C) roomId (state added) in
  outcome added = inr tt
  /\ outcome taken = inr (JArr (l ++ [data]))
  /\ getItem (state taken) (keyParkedSharedHistory roomId) = None
  /\ outcome (takeParkedSharedHistory (C := C) roomId (state taken)) = inr (JArr [])
  /\ (forall other,
        JS.well_formed_utf8 roomId = true -> JS.well_formed_utf8 other = true ->
        other <> roomId ->
        outcome (takeParkedSharedHistory (C := C) other (state taken))
        = outcome (takeParkedSharedHistory (C := C) other s)).
Proof.
  intros C s roomId data l Hl Hcodec. cbv zeta.
  destruct (takeParkedSharedHistory_returned C s roomId _ Hl) as [v [Ev El]].
  rewrite (addParkedSharedHistory_result C s roomId data v l Ev El). cbn [state outcome].
  set (key := keyParkedSharedHistory roomId) in *.
  set (s1 := setItem s key (JSON_stringify (JArr (l ++ [data])))).
  rewrite (takeParkedSharedHistory_result C s1 roomId _ (stored_written s key _ Hcodec)).
  cbn [state outcome nullish]. fold key.
  split; [reflexivity|]. split; [reflexivity|]. split; [|split].
  - rewrite getItem_removeItem, String.eqb_refl. reflexivity.
  - rewrite (takeParkedSharedHistory_result C _ roomId JNull); [reflexivity|].
    apply stored_removeItem_same.
  - intros other W1 W2 Hne.
    assert (Ek : String.eqb key (keyParkedSharedHistory other) = false).
    { unfold key, keyParkedSharedHistory. rewrite eqb_append.
      apply String.eqb_neq. intro E'. apply Hne. symmetry.
      apply encodeURIComponent_injective; assumption. }
    assert (Es : stored (removeItem s1 key) (keyParkedSharedHistory other)
                 = stored s (keyParkedSharedHistory other)).
    { rewrite (stored_removeItem_other _ _ _ Ek). unfold s1.
      apply (stored_setItem_other _ _ _ _ Ek). }
    destruct (stored s (keyParkedSharedHistory other)) as [w|] eqn:Ew.
    + rewrite (takeParkedSharedHistory_result C _ other w Es).
      rewrite (takeParkedSharedHistory_result C s other w Ew). reflexivity.
    + unfold takeParkedSharedHistory. cbv zeta. rewrite !bind_getJsonItem, Es, Ew.
      reflexivity.
Qed.

End RoomLists.

(** ** A store without keys of its own *)

Lemma startsWith_weaken : forall p x k,
  JS.startsWith k (p ++ x) = true -> JS.startsWith k p = true.
Proof.
  intros p x k E. destruct (startsWith_split _ _ E) as [r ->].
  rewrite append_assoc. apply startsWith_append.
Qed.

Lemma filter_none : forall A (f : A -> bool) l,
  (forall x, In x l -> f x = false) -> filter f l = [].
Proof.
  induction l as [|x r IH]; intro Hall; [reflexivity|].
  cbn [filter]. rewrite (Hall x (or_introl eq_refl)).
  apply IH. intros y Hy. apply Hall. right. exact Hy.
Qed.

Section Emptied.

Context {S : Type} `{LawfulAsyncStore S} `{JSONCodec}.

Variable NOT_STARTED : JSON.
Variable SESSION_BATCH_SIZE : nat.

Lemma deleteAllData_leaves_nothing : forall C (s : S) k,
  JS.startsWith k E2E_PREFIX = true ->
  getItem (state (deleteAllData (C := C) s)) k = None.
Proof.
  intros C s k Hk. rewrite deleteAllData_result. cbn [state].
  rewrite getItem_fold_removeItem.
  destruct (existsb _ _) eqn:Ex; [reflexivity|].
  destruct (getItem s k) as [v|] eqn:G; [|reflexivity].
  assert (Hin : In k (filter (fun k => JS.startsWith k E2E_PREFIX) (getAllKeys s))).
  { apply filter_In. split; [|exact Hk]. apply getAllKeys_getItem. rewrite G. discriminate. }
  apply existsb_eqb_In in Hin. rewrite Hin in Ex. discriminate.
Qed.

Lemma nothing_listed : forall (s : S) x,
  (forall k, JS.startsWith k E2E_PREFIX = true -> getItem s k = None) ->
  filter (fun k => JS.startsWith k (E2E_PREFIX ++ x)) (getAllKeys s) = [].
Proof.
  intros s x Hnone. apply filter_none. intros k Hk.
  destruct (JS.startsWith k (E2E_PREFIX ++ x)) eqn:E; [|reflexivity].
  apply getAllKeys_getItem in Hk. destruct Hk.
  apply Hnone. apply (startsWith_weaken _ _ _ E).
Qed.

(** X17.  After [deleteAllData] every reading operation finds nothing: a
    single value reads as [null], a listing is empty, a count is 0, a batch
    is [null], and the migration state is [NOT_STARTED]. *)
Theorem deleteAllData_empties_the_store : forall C (s : S),
  let s' := state (deleteAllData (C := C) s) in
  calls (trace (doTxn getAccount s')) = [JNull]
  /\ calls (trace (doTxn getCrossSigningKeys s')) = [JNull]
  /\ calls (trace (doTxn getEndToEndDeviceData s')) = [JNull]
  /\ (forall type, calls (trace (doTxn (getSecretStorePrivateKey type) s')) = [JNull])
  /\ (forall d i, calls (trace (doTxn (getEndToEndSession d i) s')) = [JNull])
  /\ (forall d, calls (trace (doTxn (getEndToEndSessions d) s')) = [JObj []])
  /\ calls (trace (doTxn getAllEndToEndSessions s')) = []
  /\ calls (trace (doTxn countEndToEndSessions s')) = [0]
  /\ (forall a b,
        calls (trace (doTxn (getEndToEndInboundGroupSession a b) s')) = [(JNull, JNull)])
  /\ calls (trace (doTxn getAllEndToEndInboundGroupSessions s')) = [None]
  /\ outcome (countEndToEndInboundGroupSessions (C := C) s') = inr 0
  /\ calls (trace (doTxn getEndToEndRooms s')) = [JObj []]
  /\ outcome (getEndToEndSessionsBatch (C := C) SESSION_BATCH_SIZE s') = inr None
  /\ outcome (getEndToEndInboundGroupSessionsBatch (C := C) SESSION_BATCH_SIZE s') = inr None
  /\ (forall limit, outcome (getSessionsNeedingBackup (C := C) limit s') = inr [])
  /\ outcome (countSessionsNeedingBackup (C := C) s') = inr 0
  /\ outcome (getMigrationState (C := C) NOT_STARTED s') = inr NOT_STARTED
  /\ (forall roomId,
        outcome (getSharedHistoryInboundGroupSessions (C := C) roomId s') = inr (JArr [])
        /\ outcome (takeParkedSharedHistory (C := C) roomId s') = inr (JArr [])).
Proof.
  intros C s. cbv zeta. set (s' := state (deleteAllData (C := C) s)).
  assert (Hnone : forall k, JS.startsWith k E2E_PREFIX = true -> getItem s' k = None)
    by (intros k Hk; apply deleteAllData_leaves_nothing; exact Hk).
  assert (Hnull : forall k, JS.startsWith k E2E_PREFIX = true -> stored s' k = Some JNull)
    by (intros k Hk; apply stored_absent, Hnone, Hk).
  assert (Hget : forall k, JS.startsWith k E2E_PREFIX = true ->
            calls (trace (doTxn (submit (onStorage (x <- _getJsonItem k ;; call x))) s'))
            = [JNull])
    by (intros k Hk; rewrite (txn_get s' k JNull (Hnull k Hk)); reflexivity).
  assert (Hsessions : sessionKeys s' = [])
    by (apply (nothing_listed s' "sessions/" Hnone)).
  assert (Hgroups : groupSessionKeys s' = [])
    by (apply (nothing_listed s' "inboundgroupsessions/" Hnone)).
  assert (Hrooms : roomKeys s' = []) by (apply (nothing_listed s' "rooms/" Hnone)).
  split; [apply Hget; reflexivity|]. split; [apply Hget; reflexivity|].
  split; [apply Hget; reflexivity|].
  split; [intro type; apply Hget; reflexivity|].
  split; [intros d i; apply Hget; reflexivity|].
  split.
  { intro d. unfold getEndToEndSessions. rewrite doTxn_submit, bind_gets. cbv zeta.
    change (prefixEndToEndSession d)
      with (E2E_PREFIX ++ ("sessions/" ++ JS.encodeURIComponent d ++ "/"))%string.
    rewrite (nothing_listed s' _ Hnone). reflexivity. }
  split.
  { apply (getAllEndToEndSessions_calls s' []); [exact Hsessions | constructor]. }
  split.
  { unfold countEndToEndSessions. rewrite doTxn_submit, bind_gets. cbv zeta.
    fold (sessionKeys s'). rewrite Hsessions. reflexivity. }
  split.
  { intros a b.
    rewrite (getEndToEndInboundGroupSession_result s' a b JNull JNull);
      [reflexivity | apply Hnull; reflexivity | apply Hnull; reflexivity]. }
  split.
  { rewrite (getAllEndToEndInboundGroupSessions_result s' []); [reflexivity|].
    rewrite Hgroups. reflexivity. }
  split.
  { unfold countEndToEndInboundGroupSessions. rewrite bind_gets.
    fold (groupSessionKeys s'). rewrite Hgroups. reflexivity. }
  split.
  { unfold getEndToEndRooms. rewrite doTxn_submit, bind_gets.
    fold (roomKeys s'). rewrite Hrooms. reflexivity. }
  split.
  { unfold getEndToEndSessionsBatch. rewrite bind_gets.
    fold (sessionKeys s'). rewrite Hsessions. reflexivity. }
  split.
  { unfold getEndToEndInboundGroupSessionsBatch. rewrite bind_gets.
    fold (groupSessionKeys s'). rewrite Hgroups. reflexivity. }
  split.
  { intro limit. unfold getSessionsNeedingBackup.
    rewrite bind_getJsonItem, (Hnull KEY_SESSIONS_NEEDING_BACKUP eq_refl). reflexivity. }
  split.
  { unfold countSessionsNeedingBackup.
    rewrite bind_getJsonItem, (Hnull KEY_SESSIONS_NEEDING_BACKUP eq_refl). reflexivity. }
  split.
  { unfold getMigrationState.
    rewrite bind_getJsonItem, (Hnull KEY_END_TO_END_MIGRATION_STATE eq_refl). reflexivity. }
  intro roomId. split.
  - unfold getSharedHistoryInboundGroupSessions.
    rewrite bind_getJsonItem,
      (Hnull (keySharedHistoryInboundGroupSessions roomId) eq_refl).
    reflexivity.
  - rewrite (takeParkedSharedHistory_result C s' roomId JNull); [reflexivity|].
    apply Hnull. reflexivity.
Qed.

End Emptied.

(** ** The promise of a transaction *)

Lemma run_numOps : forall evs t t',
  run t evs = inr t' -> numOps t' = (numOps t + inFlight evs)%Z.
Proof.
  induction evs as [|ev r IH]; intros t t' E.
  - cbn in E. injection E as <-. cbn. lia.
  - cbn [run] in E. destruct ev as [| |e]; cbn [step inFlight] in *.
    + unfold onOperationStarted in E. destruct (negb (resolve t)); [discriminate|].
      rewrite (IH _ _ E). cbn [numOps]. lia.
    + rewrite (IH _ _ E). unfold onOperationEnded.
      destruct (numOps t - 1 =? 0)%Z; cbn [numOps]; lia.
    + rewrite (IH _ _ E). unfold onOperationEnded, recordError. cbn [numOps].
      destruct (numOps t - 1 =? 0)%Z; cbn [numOps]; lia.
Qed.

Lemma verdict_settled : forall slot, verdict slot <> Pending.
Proof.
  intros [e|]; cbn; [destruct (truthyThrown e)|]; discriminate.
Qed.

(** X18.  The counter of a transaction is the number of operations started
    and not ended, and the promise of the transaction is pending exactly as
    long as no operation was started or one is still running. *)
Theorem promise_pending_while_in_flight : forall evs t,
  schedule 0 evs = true ->
  run newTransaction evs = inr t ->
  numOps t = inFlight evs
  /\ (promise t = Pending <-> evs = [] \/ inFlight evs <> 0%Z).
Proof.
  intros evs t Hs Hrun.
  pose proof (run_numOps _ _ _ Hrun) as Hn. cbn [newTransaction numOps] in Hn.
  rewrite Z.add_0_l in Hn.
  destruct (run_open evs 0 newTransaction t eq_refl eq_refl eq_refl eq_refl Hs Hrun)
    as [A B].
  split; [exact Hn|]. rewrite <- Hn. split.
  - intro Hp. destruct (Z.eq_dec (numOps t) 0) as [Z0|Z0]; [|right; exact Z0].
    destruct (A Z0) as [[_ E]|E]; [left; exact E|].
    rewrite Hp in E. destruct (verdict_settled _ (eq_sym E)).
  - intros [->|Z0].
    + cbn in Hrun. injection Hrun as <-. reflexivity.
    + apply (B Z0).
Qed.

(** ** Data that cannot be read *)

Section Unreadable.

Context {S : Type} `{LawfulAsyncStore S} `{JSONCodec}.

(** X19.  Stored text that does not parse makes the operation that reads it
    fail with the [SyntaxError] of [JSON.parse]: a transaction is rejected
    without calling back, and an operation of its own throws before it
    writes or removes anything. *)
Theorem unreadable_data_is_an_error : forall C (s : S),
  (forall d i,
     stored s (keyEndToEndSession d i) = None ->
     doTxn (getEndToEndSession d i) s = mkResult s [] (inr (RejectedWith SyntaxError)))
  /\ (forall a b,
        stored s (keyEndToEndInboundGroupSession a b) = None
        \/ stored s (keyEndToEndInboundGroupSessionWithheld a b) = None ->
        doTxn (getEndToEndInboundGroupSession a b) s =
        mkResult s [] (inr (RejectedWith SyntaxError)))
  /\ (forall a b data,
        stored s (keyEndToEndInboundGroupSession a b) = None ->
        doTxn (C := C) (addEndToEndInboundGroupSession a b data) s =
        mkResult s [] (inr (RejectedWith SyntaxError)))
  /\ (stored s KEY_SESSIONS_NEEDING_BACKUP = None ->
      forall sessions limit,
        markSessionsNeedingBackup (C := C) sessions s = mkResult s [] (inl SyntaxError)
        /\ unmarkSessionsNeedingBackup (C := C) sessions s = mkResult s [] (inl SyntaxError)
        /\ getSessionsNeedingBackup (C := C) limit s = mkResult s [] (inl SyntaxError)
        /\ countSessionsNeedingBackup (C := C) s = mkResult s [] (inl SyntaxError))
  /\ (forall roomId data,
        stored s (keyParkedSharedHistory roomId) = None ->
        addParkedSharedHistory (C := C) roomId data s = mkResult s [] (inl SyntaxError)
        /\ takeParkedSharedHistory (C := C) roomId s = mkResult s [] (inl SyntaxError)).
Proof.
  intros C s. split; [|split; [|split; [|split]]].
  - intros d i E. apply txn_get_unreadable. exact E.
  - intros a b E. unfold getEndToEndInboundGroupSession.
    rewrite doTxn_submit, bind_getJsonItem.
    destruct (stored s (keyEndToEndInboundGroupSession a b)) as [v|]; [|reflexivity].
    destruct E as [E|E]; [discriminate|]. rewrite bind_getJsonItem, E. reflexivity.
  - intros a b data E. unfold addEndToEndInboundGroupSession, doTxn.
    rewrite submit_open by reflexivity.
    assert (R : onStorage (C := C) (_getJsonItem (keyEndToEndInboundGroupSession a b))
                  (mkTransaction 1 None true true Pending, s)
                = mkResult (mkTransaction 1 None true true Pending, s) [] (inl SyntaxError)).
    { unfold onStorage. cbn [fst snd]. rewrite _getJsonItem_stored, E. reflexivity. }
    rewrite (bind_thrown _ _ _ _ _ _ _ _ _ _ R). reflexivity.
  - intros E sessions limit.
    unfold markSessionsNeedingBackup, unmarkSessionsNeedingBackup,
      getSessionsNeedingBackup, countSessionsNeedingBackup.
    rewrite !bind_getJsonItem, E. repeat split.
  - intros roomId data E. unfold addParkedSharedHistory, takeParkedSharedHistory.
    cbv zeta. rewrite !bind_getJsonItem, E. split; reflexivity.
Qed.

Lemma groupSessionAt_fails : forall (s : S) k,
  groupSessionAt s k = None ->
  exists e,
    (senderKey <- decode (JS.part (JS.split "/" k) 1) ;;
     sessionId <- decode (JS.part (JS.split "/" k) 2) ;;
     sessionData <- _getJsonItem k ;;
     call (Some (mkISession senderKey sessionId sessionData))) s =
    mkResult s [] (inl e)
    /\ (e = URIError \/ e = SyntaxError).
Proof.
  intros s k E. unfold groupSessionAt in E. rewrite bind_decode.
  destruct (JS.decodeURIComponent (JS.part (JS.split "/" k) 1)) as [a|];
    [|exists URIError; split; [reflexivity | left; reflexivity]].
  rewrite bind_decode.
  destruct (JS.decodeURIComponent (JS.part (JS.split "/" k) 2)) as [b|];
    [|exists URIError; split; [reflexivity | left; reflexivity]].
  rewrite bind_getJsonItem.
  destruct (stored s k) as [d|]; [discriminate|].
  exists SyntaxError. split; [reflexivity | right; reflexivity].
Qed.

Lemma forEach_groupSessions_stop : forall good (s : S) entries bad rest,
  map (groupSessionAt s) good = map Some entries ->
  groupSessionAt s bad = None ->
  exists e,
    forEach (good ++ bad :: rest)
      (fun k =>
         senderKey <- decode (JS.part (JS.split "/" k) 1) ;;
         sessionId <- decode (JS.part (JS.split "/" k) 2) ;;
         sessionData <- _getJsonItem k ;;
         call (Some (mkISession senderKey sessionId sessionData))) s =
    mkResult s (map (fun e => Call (Some e)) entries) (inl e)
    /\ (e = URIError \/ e = SyntaxError).
Proof.
  induction good as [|k r IH]; intros s entries bad rest E Hbad.
  - destruct entries; [|discriminate].
    destruct (groupSessionAt_fails s bad Hbad) as [e [R He]].
    exists e. split; [|exact He]. cbn [app forEach map].
    apply (bind_thrown _ _ _ _ _ _ _ _ _ _ R).
  - destruct entries as [|x es]; [discriminate|].
    cbn [map] in E. injection E as Ek Er.
    destruct (IH s es bad rest Er Hbad) as [e [R He]].
    exists e. split; [|exact He]. cbn [app forEach map].
    rewrite (bind_observed _ _ _ _ _ _ _ _ _ _ (groupSessionAt_call s k x Ek)).
    rewrite R. reflexivity.
Qed.

(** X20.  [getAllEndToEndInboundGroupSessions] stops at the first key that
    cannot be decoded or whose text does not parse: the sessions before it
    have been delivered, the closing [null] is not, and the transaction is
    rejected with the [URIError] or the [SyntaxError]. *)
Theorem listing_stops_at_unreadable_key : forall (s : S) good bad rest entries,
  groupSessionKeys s = (good ++ bad :: rest)%list ->
  map (groupSessionAt s) good = map Some entries ->
  groupSessionAt s bad = None ->
  let r := doTxn getAllEndToEndInboundGroupSessions s in
  calls (trace r) = map Some entries
  /\ (outcome r = inr (RejectedWith URIError) \/ outcome r = inr (RejectedWith SyntaxError))
  /\ state r = s.
Proof.
  intros s good bad rest entries Ek Egood Hbad. cbv zeta.
  destruct (forEach_groupSessions_stop good s entries bad rest Egood Hbad) as [e [R He]].
  unfold getAllEndToEndInboundGroupSessions.
  rewrite doTxn_submit, bind_gets. fold (groupSessionKeys s). cbv zeta. rewrite Ek.
  rewrite (bind_thrown _ _ _ _ _ _ _ _ _ _ R). cbn [trace outcome state].
  split; [apply (calls_entries _ _ Some)|]. split; [|reflexivity].
  destruct He as [->| ->]; [left | right]; reflexivity.
Qed.

End Unreadable.

(** ** Reading does not write *)

Lemma readOnly_ret : forall St C A (a : A), readOnly (St := St) (C := C) (ret a).
Proof. intros St C A a s. reflexivity. Qed.

Lemma readOnly_throw : forall St C A e, readOnly (St := St) (C := C) (A := A) (throw e).
Proof. intros St C A e s. reflexivity. Qed.

Lemma readOnly_gets : forall St C A (f : St -> A), readOnly (C := C) (gets f).
Proof. intros St C A f s. reflexivity. Qed.

Lemma readOnly_call : forall St C (c : C), readOnly (St := St) (call c).
Proof. intros St C c s. reflexivity. Qed.

Lemma readOnly_consoleError : forall St C m, readOnly (St := St) (C := C) (consoleError m).
Proof. intros St C m s. reflexivity. Qed.

Lemma readOnly_decode : forall St C x, readOnly (St := St) (C := C) (decode x).
Proof. intros St C x s. unfold decode. destruct (JS.decodeURIComponent x); reflexivity. Qed.

Lemma readOnly_bind : forall St C A B (m : Op St C A) (k : A -> Op St C B),
  readOnly m -> (forall a, readOnly (k a)) -> readOnly (bind m k).
Proof.
  intros St C A B m k Hm Hk s. unfold bind. cbv zeta.
  destruct (outcome (m s)) as [e|a]; cbn [state]; [apply Hm|].
  rewrite (Hk a), Hm. reflexivity.
Qed.

Lemma readOnly_forEach : forall St C X (l : list X) (body : X -> Op St C unit),
  (forall x, readOnly (body x)) -> readOnly (forEach l body).
Proof.
  intros St C X l body Hb. induction l as [|x r IH]; cbn [forEach].
  - apply readOnly_ret.
  - apply readOnly_bind; [apply Hb | intros _; exact IH].
Qed.

Lemma readOnly_unawaited : forall St C A (m : Op St C A),
  readOnly m -> readOnly (unawaited m).
Proof. intros St C A m Hm s. unfold unawaited. cbn [state]. apply Hm. Qed.

Section ReadingOnly.

Context {S : Type} `{LawfulAsyncStore S} `{JSONCodec}.

Variable NOT_STARTED : JSON.
Variable SESSION_BATCH_SIZE : nat.

Lemma readOnly_getJsonItem : forall C key, readOnly (_getJsonItem (S := S) (C := C) key).
Proof.
  intros C key s. rewrite _getJsonItem_stored. reflexivity.
Qed.

Lemma readOnly_txn : forall C (body : Op S C unit) (s : S),
  readOnly body -> state (doTxn (submit (onStorage body)) s) = s.
Proof. intros C body s Hb. rewrite doTxn_submit. cbn [state]. apply Hb. Qed.

Lemma readOnly_getEndToEndSessions_loop : forall deviceKey ks acc,
  readOnly (getEndToEndSessions_loop (S := S) deviceKey ks acc).
Proof.
  induction ks as [|k r IH]; intro acc; cbn [getEndToEndSessions_loop];
    repeat first
      [ solve [auto using readOnly_ret, readOnly_throw, readOnly_gets, readOnly_call,
                 readOnly_consoleError, readOnly_decode, readOnly_getJsonItem]
      | match goal with |- readOnly (forEach _ _) => apply readOnly_forEach; intro end
      | match goal with |- readOnly (unawaited _) => apply readOnly_unawaited end
      | match goal with |- readOnly (bind _ _) => apply readOnly_bind; [|intro] end
      | match goal with |- readOnly (if ?c then _ else _) => destruct c end ].
Qed.

Lemma readOnly_getEndToEndRooms_loop : forall ks acc,
  readOnly (getEndToEndRooms_loop (S := S) ks acc).
Proof.
  induction ks as [|k r IH]; intro acc; cbn [getEndToEndRooms_loop]; cbv zeta;
    repeat first
      [ solve [auto using readOnly_ret, readOnly_throw, readOnly_gets, readOnly_call,
                 readOnly_consoleError, readOnly_decode, readOnly_getJsonItem]
      | match goal with |- readOnly (forEach _ _) => apply readOnly_forEach; intro end
      | match goal with |- readOnly (unawaited _) => apply readOnly_unawaited end
      | match goal with |- readOnly (bind _ _) => apply readOnly_bind; [|intro] end
      | match goal with |- readOnly (if ?c then _ else _) => destruct c end ].
Qed.

Lemma readOnly_getEndToEndSessionsBatch_loop : forall C ks acc,
  readOnly (getEndToEndSessionsBatch_loop (S := S) (C := C) SESSION_BATCH_SIZE ks acc).
Proof.
  induction ks as [|k r IH]; intro acc; cbn [getEndToEndSessionsBatch_loop]; cbv zeta;
    repeat first
      [ solve [auto using readOnly_ret, readOnly_throw, readOnly_gets, readOnly_call,
                 readOnly_consoleError, readOnly_decode, readOnly_getJsonItem]
      | match goal with |- readOnly (forEach _ _) => apply readOnly_forEach; intro end
      | match goal with |- readOnly (unawaited _) => apply readOnly_unawaited end
      | match goal with |- readOnly (bind _ _) => apply readOnly_bind; [|intro] end
      | match goal with |- readOnly (if ?c then _ else _) => destruct c end ].
Qed.

Lemma readOnly_getSessionsNeedingBackup : forall C limit,
  readOnly (getSessionsNeedingBackup (S := S) (C := C) limit).
Proof. intros C limit s. apply getSessionsNeedingBackup_state. Qed.

Lemma readOnly_getEndToEndInboundGroupSessionsBatch_loop : forall C ks acc,
  readOnly (getEndToEndInboundGroupSessionsBatch_loop (S := S) (C := C)
              SESSION_BATCH_SIZE ks acc).
Proof.
  induction ks as [|k r IH]; intro acc; cbn [getEndToEndInboundGroupSessionsBatch_loop];
    cbv zeta;
    repeat first
      [ solve [auto using readOnly_ret, readOnly_throw, readOnly_gets, readOnly_call,
                 readOnly_consoleError, readOnly_decode, readOnly_getJsonItem,
                 readOnly_getSessionsNeedingBackup]
      | match goal with |- readOnly (forEach _ _) => apply readOnly_forEach; intro end
      | match goal with |- readOnly (unawaited _) => apply readOnly_unawaited end
      | match goal with |- readOnly (bind _ _) => apply readOnly_bind; [|intro] end
      | match goal with |- readOnly (if ?c then _ else _) => destruct c end ].
Qed.

(** X21.  The operations that read leave the storage as it is, also when
    they fail: whatever is stored, the state after each of them is the
    state before. *)
Theorem reading_does_not_write : forall C (s : S),
  state (doTxn getAccount s) = s
  /\ state (doTxn getCrossSigningKeys s) = s
  /\ state (doTxn getEndToEndDeviceData s) = s
  /\ (forall type, state (doTxn (getSecretStorePrivateKey type) s) = s)
  /\ (forall d i, state (doTxn (getEndToEndSession d i) s) = s)
  /\ (forall d, state (doTxn (getEndToEndSessions d) s) = s)
  /\ state (doTxn getAllEndToEndSessions s) = s
  /\ state (doTxn countEndToEndSessions s) = s
  /\ (forall a b, state (doTxn (getEndToEndInboundGroupSession a b) s) = s)
  /\ state (doTxn getAllEndToEndInboundGroupSessions s) = s
  /\ state (doTxn getEndToEndRooms s) = s
  /\ state (countEndToEndInboundGroupSessions (C := C) s) = s
  /\ state (getEndToEndSessionsBatch (C := C) SESSION_BATCH_SIZE s) = s
  /\ state (getEndToEndInboundGroupSessionsBatch (C := C) SESSION_BATCH_SIZE s) = s
  /\ (forall limit, state (getSessionsNeedingBackup (C := C) limit s) = s)
  /\ state (countSessionsNeedingBackup (C := C) s) = s
  /\ state (getMigrationState (C := C) NOT_STARTED s) = s
  /\ (forall roomId, state (getSharedHistoryInboundGroupSessions (C := C) roomId s) = s).
Proof.
  intros C s.
  repeat match goal with |- _ /\ _ => split end; intros;
    first [ apply readOnly_txn
          | match goal with |- state (?m s) = s => generalize s; change (readOnly m) end ];
    try apply readOnly_getSessionsNeedingBackup;
    try unfold countEndToEndInboundGroupSessions, getEndToEndSessionsBatch,
          getEndToEndInboundGroupSessionsBatch, countSessionsNeedingBackup,
          getMigrationState, getSharedHistoryInboundGroupSessions;
    cbv zeta;
    repeat first
      [ solve [auto using readOnly_ret, readOnly_throw, readOnly_gets, readOnly_call,
                 readOnly_consoleError, readOnly_decode, readOnly_getJsonItem,
                 readOnly_getEndToEndSessions_loop, readOnly_getEndToEndRooms_loop,
                 readOnly_getEndToEndSessionsBatch_loop,
                 readOnly_getEndToEndInboundGroupSessionsBatch_loop]
      | match goal with |- readOnly (forEach _ _) => apply readOnly_forEach; intro end
      | match goal with |- readOnly (unawaited _) => apply readOnly_unawaited end
      | match goal with |- readOnly (bind _ _) => apply readOnly_bind; [|intro] end
      | match goal with |- readOnly (if ?c then _ else _) => destruct c end ].
Qed.

End ReadingOnly.

(** ** Outgoing room key requests *)

Lemma find_all_false : forall A (f : A -> bool) l,
  (forall x, In x l -> f x = false) -> find f l = None.
Proof.
  induction l as [|x r IH]; intro Hall; [reflexivity|].
  cbn [find]. rewrite (Hall x (or_introl eq_refl)).
  apply IH. intros y Hy. apply Hall. right. exact Hy.
Qed.

Lemma requestIsFor_object : forall room session req,
  requestIsFor room session req = true ->
  hasRequestBody req = true /\ truthy req = true.
Proof.
  intros room session req E. destruct req as [| | | | |m]; try discriminate.
  split; [|reflexivity]. cbn in *.
  destruct (Own.get "requestBody" m) as [[]|]; try discriminate. reflexivity.
Qed.

Lemma stateAmong_object : forall wanted req,
  stateAmong wanted req = true -> exists m, req = JObj m.
Proof.
  intros wanted req E. destruct req as [| | | | |m]; try discriminate. exists m. reflexivity.
Qed.

Section Requests.

Context {S : Type} `{LawfulAsyncStore S} `{JSONCodec}.

Lemma getOutgoingRoomKeyRequest_step : forall C room session k r (s : S) v,
  stored s k = Some v -> hasRequestBody v = true ->
  getOutgoingRoomKeyRequest_loop (C := C) room session (k :: r) s =
  if requestIsFor room session v then mkResult s [] (inr v)
  else getOutgoingRoomKeyRequest_loop room session r s.
Proof.
  intros C room session k r s v E Hb. cbn [getOutgoingRoomKeyRequest_loop].
  rewrite bind_getJsonItem, E.
  destruct v as [| | | | |m]; try discriminate Hb. cbn [prop hasRequestBody requestIsFor] in *.
  rewrite (bind_value _ _ _ _ _ _ s s (Own.get "requestBody" m)) by reflexivity.
  destruct (Own.get "requestBody" m) as [body|]; [|discriminate].
  destruct body as [| | | | |b]; try discriminate Hb; cbn [propOf prop];
    try (rewrite (bind_value _ _ _ _ _ _ s s None) by reflexivity; reflexivity).
  rewrite (bind_value _ _ _ _ _ _ s s (Own.get "room_id" b)) by reflexivity.
  destruct (isString (Own.get "room_id" b) room); cbn [andb]; [|reflexivity].
  rewrite (bind_value _ _ _ _ _ _ s s (Own.get "session_id" b)) by reflexivity.
  destruct (isString (Own.get "session_id" b) session); reflexivity.
Qed.

Lemma getOutgoingRoomKeyRequest_loop_result : forall C room session ks (s : S),
  (forall k, In k ks -> storedIs hasRequestBody s k = true) ->
  getOutgoingRoomKeyRequest_loop (C := C) room session ks s =
  mkResult s []
    (inr match find (storedIs (requestIsFor room session) s) ks with
         | Some k => match stored s k with Some v => v | None => JNull end
         | None => JNull
         end).
Proof.
  induction ks as [|k r IH]; intros s Hall; [reflexivity|].
  pose proof (Hall k (or_introl eq_refl)) as Hk. unfold storedIs in Hk.
  destruct (stored s k) as [v|] eqn:E; [|discriminate].
  rewrite (getOutgoingRoomKeyRequest_step C room session k r s v E Hk).
  cbn [find]. unfold storedIs at 1. rewrite E.
  destruct (requestIsFor room session v); [rewrite E; reflexivity|].
  apply IH. intros k' Hk'. apply Hall. right. exact Hk'.
Qed.

Lemma getOutgoingRoomKeyRequest_result : forall C room session (s : S),
  (forall k, In k (requestKeys s) -> storedIs hasRequestBody s k = true) ->
  getOutgoingRoomKeyRequest (C := C) room session s =
  mkResult s []
    (inr match find (storedIs (requestIsFor room session) s) (requestKeys s) with
         | Some k => match stored s k with Some v => v | None => JNull end
         | None => JNull
         end).
Proof.
  intros C room session s Hall. unfold getOutgoingRoomKeyRequest, _getAllOutgoingKeyRequestKeys.
  rewrite bind_gets. fold (requestKeys s).
  apply getOutgoingRoomKeyRequest_loop_result. exact Hall.
Qed.

Lemma requestKeys_setItem : forall (s : S) requestId text k,
  In k (requestKeys (setItem s (keyOutgoingKeyRequest requestId) text)) ->
  k = keyOutgoingKeyRequest requestId \/ In k (requestKeys s).
Proof.
  intros s requestId text k Hk. unfold requestKeys in *. apply filter_In in Hk.
  destruct Hk as [Hk Hp]. apply getAllKeys_getItem in Hk. rewrite getItem_setItem in Hk.
  destruct (String.eqb_spec (keyOutgoingKeyRequest requestId) k) as [E|N];
    [left; symmetry; exact E|].
  right. apply filter_In. split; [apply getAllKeys_getItem; exact Hk | exact Hp].
Qed.

Lemma requestKeys_written : forall (s : S) requestId text,
  In (keyOutgoingKeyRequest requestId)
     (requestKeys (setItem s (keyOutgoingKeyRequest requestId) text)).
Proof.
  intros s requestId text. unfold requestKeys. apply filter_In. split.
  - apply getAllKeys_getItem. rewrite getItem_setItem, String.eqb_refl. discriminate.
  - apply startsWith_append.
Qed.

(** X22.  When every stored request has a request body,
    [getOrAddOutgoingRoomKeyRequest] stores the request given only if no
    stored request is for the same room and session: it then returns the
    request given, which [getOutgoingRoomKeyRequest] finds from then on, and
    a later call for the same room and session returns that one and writes
    nothing.  Otherwise it returns a stored request for the room and the
    session and writes nothing. *)
Theorem getOrAdd_keeps_the_first_request :
  forall C (s : S) requestId room_id session_id request,
    (forall k, In k (requestKeys s) -> storedIs hasRequestBody s k = true) ->
    requestIsFor room_id session_id request = true ->
    JSON_parse (JSON_stringify request) = Some request ->
    let r := getOrAddOutgoingRoomKeyRequest (C := C) requestId room_id session_id request s in
    ((forall k, In k (requestKeys s) ->
                storedIs (requestIsFor room_id session_id) s k = false) ->
     r = mkResult (setItem s (keyOutgoingKeyRequest requestId) (JSON_stringify request))
           [] (inr request)
     /\ getOutgoingRoomKeyRequest (C := C) room_id session_id (state r)
        = mkResult (state r) [] (inr request)
     /\ (forall requestId' request',
           getOrAddOutgoingRoomKeyRequest (C := C) requestId' room_id session_id request'
             (state r)
           = mkResult (state r) [] (inr request)))
    /\ (forall k,
          In k (requestKeys s) -> storedIs (requestIsFor room_id session_id) s k = true ->
          exists k' found,
            In k' (requestKeys s) /\ stored s k' = Some found
            /\ requestIsFor room_id session_id found = true
            /\ r = mkResult s [] (inr found)).
Proof.
  intros C s requestId room session request Hall Hfor Hcodec. cbv zeta.
  destruct (requestIsFor_object _ _ _ Hfor) as [Hbody Htruthy].
  pose proof (getOutgoingRoomKeyRequest_result C room session s Hall) as Hget.
  split.
  - intro Hnone. rewrite (find_all_false _ _ _ Hnone) in Hget.
    set (key := keyOutgoingKeyRequest requestId).
    set (s1 := setItem s key (JSON_stringify request)).
    assert (R : getOrAddOutgoingRoomKeyRequest (C := C) requestId room session request s
                = mkResult s1 [] (inr request)).
    { unfold getOrAddOutgoingRoomKeyRequest.
      rewrite (bind_value _ _ _ _ _ _ _ _ _ Hget). cbn [truthy].
      rewrite (bind_value _ _ _ _ _ _ s s1 tt) by reflexivity. reflexivity. }
    rewrite R. cbn [state].
    assert (Hs1 : forall k, k <> key -> stored s1 k = stored s k).
    { intros k N. apply stored_setItem_other. apply String.eqb_neq.
      intro E. apply N. symmetry. exact E. }
    assert (Hkey : stored s1 key = Some request) by (apply stored_written, Hcodec).
    assert (Hall1 : forall k, In k (requestKeys s1) -> storedIs hasRequestBody s1 k = true).
    { intros k Hk. unfold storedIs.
      destruct (String.eqb_spec k key) as [->|N]; [rewrite Hkey; exact Hbody|].
      destruct (requestKeys_setItem s requestId _ k Hk) as [E|Hin]; [contradiction|].
      rewrite (Hs1 k N). apply (Hall k Hin). }
    assert (Hfound : getOutgoingRoomKeyRequest (C := C) room session s1
                     = mkResult s1 [] (inr request)).
    { rewrite (getOutgoingRoomKeyRequest_result C room session s1 Hall1).
      destruct (find (storedIs (requestIsFor room session) s1) (requestKeys s1)) as [k|] eqn:F.
      - apply find_some in F. destruct F as [Hk Hm].
        destruct (String.eqb_spec k key) as [->|N]; [rewrite Hkey; reflexivity|].
        exfalso. unfold storedIs in Hm. rewrite (Hs1 k N) in Hm.
        destruct (requestKeys_setItem s requestId _ k Hk) as [E|Hin]; [contradiction|].
        pose proof (Hnone k Hin) as Hf. unfold storedIs in Hf. congruence.
      - exfalso. pose proof (find_none _ _ F key (requestKeys_written s requestId _)) as Hf.
        unfold storedIs in Hf. rewrite Hkey in Hf. congruence. }
    split; [reflexivity|]. split; [exact Hfound|].
    intros requestId' request'. unfold getOrAddOutgoingRoomKeyRequest.
    rewrite (bind_value _ _ _ _ _ _ _ _ _ Hfound), Htruthy. reflexivity.
  - intros k Hk Hm.
    destruct (find (storedIs (requestIsFor room session) s) (requestKeys s)) as [k'|] eqn:F.
    + apply find_some in F. destruct F as [Hk' Hm']. unfold storedIs in Hm'.
      destruct (stored s k') as [found|] eqn:E; [|discriminate].
      exists k', found. split; [exact Hk'|]. split; [exact E|]. split; [exact Hm'|].
      destruct (requestIsFor_object _ _ _ Hm') as [_ Ht].
      unfold getOrAddOutgoingRoomKeyRequest.
      rewrite (bind_value _ _ _ _ _ _ _ _ _ Hget), Ht. reflexivity.
    + pose proof (find_none _ _ F k Hk) as Hf. congruence.
Qed.

Lemma request_with_state : forall C (s : S) requestId req expected B
    (k : JSON -> Op S C B) (other : Op S C B),
  stored s (keyOutgoingKeyRequest requestId) = Some req ->
  (req0 <- _getJsonItem (keyOutgoingKeyRequest requestId) ;;
   if negb (truthy req0) then other
   else
     state <- prop "state" req0 ;;
     if negb (isNumber state expected) then other else k req0) s =
  (if stateAmong [expected] req then k req else other) s.
Proof.
  intros C s requestId req expected B k other E.
  rewrite bind_getJsonItem, E.
  destruct req as [|b|n|x|l|m]; cbn [truthy negb stateAmong prop].
  - reflexivity.
  - destruct b; cbn [negb]; [|reflexivity].
    rewrite (bind_value _ _ _ _ _ _ s s None) by reflexivity. reflexivity.
  - destruct (negb (n =? 0)%Z); cbn [negb]; [|reflexivity].
    rewrite (bind_value _ _ _ _ _ _ s s None) by reflexivity. reflexivity.
  - destruct (negb (String.eqb x "")); cbn [negb]; [|reflexivity].
    rewrite (bind_value _ _ _ _ _ _ s s None) by reflexivity. reflexivity.
  - rewrite (bind_value _ _ _ _ _ _ s s None) by reflexivity. reflexivity.
  - rewrite (bind_value _ _ _ _ _ _ s s (Own.get "state" m)) by reflexivity.
    cbn [existsb]. rewrite orb_false_r.
    destruct (isNumber (Own.get "state" m) expected); reflexivity.
Qed.

(** X23.  A stored request is updated or deleted only by a call that
    expects the state it is in.  [updateOutgoingRoomKeyRequest] then writes
    and returns the request with the updates assigned, and
    [deleteOutgoingRoomKeyRequest] removes and returns the request, so that
    a second deletion finds nothing.  A call that expects another state, or
    that names a request that is not stored, returns [null] and leaves the
    store as it is. *)
Theorem request_changes_need_the_expected_state : forall C (s : S) requestId,
  (getItem s (keyOutgoingKeyRequest requestId) = None ->
   forall expected updates,
     updateOutgoingRoomKeyRequest (C := C) requestId expected updates s
     = mkResult s [] (inr JNull)
     /\ deleteOutgoingRoomKeyRequest (C := C) requestId expected s
        = mkResult s [] (inr JNull))
  /\ (forall req other updates,
        stored s (keyOutgoingKeyRequest requestId) = Some req ->
        stateAmong [other] req = false ->
        updateOutgoingRoomKeyRequest (C := C) requestId other updates s
        = mkResult s [] (inr JNull)
        /\ deleteOutgoingRoomKeyRequest (C := C) requestId other s
           = mkResult s [] (inr JNull))
  /\ (forall req expected updates,
        stored s (keyOutgoingKeyRequest requestId) = Some req ->
        stateAmong [expected] req = true ->
        updateOutgoingRoomKeyRequest (C := C) requestId expected updates s
        = mkResult
            (setItem s (keyOutgoingKeyRequest requestId)
               (JSON_stringify (assign updates req)))
            [] (inr (assign updates req))
        /\ (let d := deleteOutgoingRoomKeyRequest (C := C) requestId expected s in
            d = mkResult (removeItem s (keyOutgoingKeyRequest requestId)) [] (inr req)
            /\ forall again,
                 deleteOutgoingRoomKeyRequest (C := C) requestId again (state d)
                 = mkResult (state d) [] (inr JNull))).
Proof.
  intros C s requestId. set (key := keyOutgoingKeyRequest requestId).
  assert (Absent : forall (s0 : S) expected updates,
            stored s0 key = Some JNull ->
            updateOutgoingRoomKeyRequest (C := C) requestId expected updates s0
            = mkResult s0 [] (inr JNull)
            /\ deleteOutgoingRoomKeyRequest (C := C) requestId expected s0
               = mkResult s0 [] (inr JNull)).
  { intros s0 expected updates E.
    unfold updateOutgoingRoomKeyRequest, deleteOutgoingRoomKeyRequest. cbv zeta. fold key.
    rewrite !bind_getJsonItem, E. split; reflexivity. }
  split; [|split].
  - intros Habsent expected updates. apply Absent. apply stored_absent. exact Habsent.
  - intros req other updates E Hs.
    unfold updateOutgoingRoomKeyRequest, deleteOutgoingRoomKeyRequest. cbv zeta.
    rewrite (request_with_state C s requestId req other _
               (fun r => _setJsonItem (keyOutgoingKeyRequest requestId) (assign updates r) ;;;
                         ret (assign updates r)) _ E).
    rewrite (request_with_state C s requestId req other _
               (fun r => modify (fun s0 => removeItem s0 (keyOutgoingKeyRequest requestId)) ;;;
                         ret r) _ E).
    rewrite Hs. split; reflexivity.
  - intros req expected updates E Hs. cbv zeta.
    assert (D : deleteOutgoingRoomKeyRequest (C := C) requestId expected s
                = mkResult (removeItem s key) [] (inr req)).
    { unfold deleteOutgoingRoomKeyRequest. cbv zeta.
      rewrite (request_with_state C s requestId req expected _
                 (fun r => modify (fun s0 => removeItem s0 (keyOutgoingKeyRequest requestId)) ;;;
                           ret r) _ E).
      rewrite Hs. fold key.
      rewrite (bind_value _ _ _ _ _ _ s (removeItem s key) tt) by reflexivity.
      reflexivity. }
    rewrite D. cbn [state]. split; [|split; [reflexivity|]].
    + unfold updateOutgoingRoomKeyRequest. cbv zeta.
      rewrite (request_with_state C s requestId req expected _
                 (fun r => _setJsonItem (keyOutgoingKeyRequest requestId) (assign updates r) ;;;
                           ret (assign updates r)) _ E).
      rewrite Hs. fold key.
      rewrite (bind_value _ _ _ _ _ _ s
                 (setItem s key (JSON_stringify (assign updates req))) tt) by reflexivity.
      reflexivity.
    + intro again. apply (Absent (removeItem s key) again []).
      apply stored_removeItem_same.
Qed.

Lemma getOutgoingRoomKeyRequestByState_loop_result : forall C wanted ks (s : S),
  (forall k, In k ks -> stored s k <> None /\ stored s k <> Some JNull) ->
  getOutgoingRoomKeyRequestByState_loop (C := C) wanted ks s =
  mkResult s []
    (inr match find (storedIs (stateAmong wanted) s) ks with
         | Some k => match stored s k with Some v => v | None => JNull end
         | None => JNull
         end).
Proof.
  induction ks as [|k r IH]; intros s Hall; [reflexivity|].
  destruct (Hall k (or_introl eq_refl)) as [Hs Hn].
  cbn [getOutgoingRoomKeyRequestByState_loop find]. unfold storedIs at 1.
  rewrite bind_getJsonItem.
  destruct (stored s k) as [v|] eqn:E; [|contradiction].
  assert (Hr : forall k', In k' r -> stored s k' <> None /\ stored s k' <> Some JNull)
    by (intros k' Hk'; apply Hall; right; exact Hk').
  destruct v as [|b|n|x|l|m]; [contradiction| | | | |]; cbn [prop stateAmong];
    try (rewrite (bind_value _ _ _ _ _ _ s s None) by reflexivity;
         replace (existsb (isNumber None) wanted) with false
           by (clear; induction wanted; [reflexivity | assumption]);
         apply IH; exact Hr).
  rewrite (bind_value _ _ _ _ _ _ s s (Own.get "state" m)) by reflexivity.
  destruct (existsb (isNumber (Own.get "state" m)) wanted); [rewrite E; reflexivity|].
  apply IH. exact Hr.
Qed.

(** X24.  When every key of a request holds a request,
    [getOutgoingRoomKeyRequestByState] returns a stored request whose state
    is among the states wanted, and [null] only when there is none. *)
Theorem request_by_state : forall C (s : S) wantedStates,
  (forall k, In k (requestKeys s) -> stored s k <> None /\ stored s k <> Some JNull) ->
  exists found,
    getOutgoingRoomKeyRequestByState (C := C) wantedStates s = mkResult s [] (inr found)
    /\ (found = JNull ->
        forall k, In k (requestKeys s) -> storedIs (stateAmong wantedStates) s k = false)
    /\ (found <> JNull ->
        stateAmong wantedStates found = true
        /\ exists k, In k (requestKeys s) /\ stored s k = Some found).
Proof.
  intros C s wanted Hall.
  unfold getOutgoingRoomKeyRequestByState, _getAllOutgoingKeyRequestKeys.
  rewrite bind_gets. fold (requestKeys s).
  rewrite (getOutgoingRoomKeyRequestByState_loop_result C wanted _ s Hall).
  eexists. split; [reflexivity|].
  destruct (find (storedIs (stateAmong wanted) s) (requestKeys s)) as [k|] eqn:F.
  - apply find_some in F. destruct F as [Hk Hm]. unfold storedIs in Hm.
    destruct (stored s k) as [v|] eqn:E; [|discriminate]. split.
    + intros ->. discriminate.
    + intros _. split; [exact Hm|]. exists k. split; [exact Hk | exact E].
  - split.
    + intros _ k Hk. apply (find_none _ _ F k Hk).
    + intro N. destruct (N eq_refl).
Qed.

End Requests.

(** ** All the sessions *)

Section AllSessions.

Context {S : Type} `{LawfulAsyncStore S} `{JSONCodec}.

Variable SESSION_BATCH_SIZE : nat.

(** X25.  [getAllEndToEndSessions] calls back once for each stored session,
    with the session, in the order of the key listing, and not once more;
    the number of its calls is the number that [countEndToEndSessions]
    delivers. *)
Theorem all_sessions_are_delivered :
  forall (s : S) (sessions : list (string * string * JSON)),
    sessionKeys s = map (fun e => keyEndToEndSession (fst (fst e)) (snd (fst e))) sessions ->
    Forall (fun e => JS.well_formed_utf8 (fst (fst e)) = true
                     /\ JS.well_formed_utf8 (snd (fst e)) = true
                     /\ stored s (keyEndToEndSession (fst (fst e)) (snd (fst e)))
                        = Some (snd e))
      sessions ->
    let r := doTxn getAllEndToEndSessions s in
    calls (trace r) = map snd sessions
    /\ outcome r = inr (FulfilledWith tt)
    /\ calls (trace (doTxn countEndToEndSessions s)) = [List.length (calls (trace r))].
Proof.
  intros s sessions Ek Hall. cbv zeta.
  assert (R : doTxn getAllEndToEndSessions s
              = mkResult s (map (fun e => Call (snd e)) sessions) (inr (FulfilledWith tt))).
  { unfold getAllEndToEndSessions. rewrite doTxn_submit, bind_gets.
    fold (sessionKeys s). rewrite Ek, (forEach_sessions sessions s Hall). reflexivity. }
  rewrite R. cbn [trace outcome]. rewrite (calls_entries _ _ snd).
  split; [reflexivity|]. split; [reflexivity|].
  unfold countEndToEndSessions. rewrite doTxn_submit, bind_gets. cbv zeta.
  fold (sessionKeys s). rewrite Ek, !length_map. reflexivity.
Qed.

Lemma sessions_batch_skipping : forall C ks acc (s : S) values,
  map (stored s) ks = map Some values ->
  List.length (acc ++ filter truthy values) < SESSION_BATCH_SIZE ->
  getEndToEndSessionsBatch_loop (C := C) SESSION_BATCH_SIZE ks acc s =
  mkResult s (map ConsoleError (notFound ks values))
    (inr (if (List.length (acc ++ filter truthy values) =? 0)%nat then None
          else Some (acc ++ filter truthy values)%list)).
Proof.
  induction ks as [|k r IH]; intros acc s values E Hlen.
  - destruct values; [|discriminate]. cbn. rewrite app_nil_r. reflexivity.
  - destruct values as [|v vs]; [discriminate|].
    cbn [map] in E. injection E as Ek Er.
    cbn [getEndToEndSessionsBatch_loop notFound filter] in *.
    rewrite bind_getJsonItem, Ek.
    destruct (truthy v); cbn [negb app].
    + assert (L : (SESSION_BATCH_SIZE <=? List.length (acc ++ [v]))%nat = false).
      { apply Nat.leb_gt. rewrite !length_app in *. cbn [List.length] in *. lia. }
      cbv zeta. rewrite L.
      rewrite (IH (acc ++ [v])%list s vs Er); rewrite <- app_assoc; [reflexivity|].
      exact Hlen.
    + rewrite bind_consoleError. rewrite (IH acc s vs Er Hlen). reflexivity.
Qed.

(** X26.  [getEndToEndSessionsBatch] leaves out a key of a session whose
    value is [null] or another falsy value, and writes a line on the console
    for it: with fewer sessions than the batch size, the batch is the list
    of the values that are truthy, or [null] when there is none. *)
Theorem sessions_batch_skips_what_is_missing : forall C (s : S) values,
  map (stored s) (sessionKeys s) = map Some values ->
  List.length (filter truthy values) < SESSION_BATCH_SIZE ->
  let r := getEndToEndSessionsBatch (C := C) SESSION_BATCH_SIZE s in
  outcome r = inr match filter truthy values with
                  | [] => None
                  | l => Some l
                  end
  /\ logged (trace r) = notFound (sessionKeys s) values
  /\ state r = s.
Proof.
  intros C s values E Hlen. cbv zeta. unfold getEndToEndSessionsBatch.
  rewrite bind_gets. fold (sessionKeys s).
  rewrite (sessions_batch_skipping C _ [] s values E Hlen). cbn [app outcome trace state].
  split; [destruct (filter truthy values); reflexivity|]. split; [|reflexivity].
  induction (notFound (sessionKeys s) values) as [|x l IH]; [reflexivity|].
  cbn [map logged]. rewrite IH. reflexivity.
Qed.

End AllSessions.

(** ** The further properties on the example data *)

Ltac listed_once :=
  vm_compute; repeat (constructor; [cbn; intuition discriminate|]); constructor.

Lemma session_store_then_get_witness :
  calls (trace (doTxn (getEndToEndSession "dev1" "sess1")
                  (Scenario.after (storeEndToEndSession "dev1" "sess1" Scenario.session2)
                     Scenario.withSessions)))
  = [Scenario.session2].
Proof.
  destruct (session_store_then_get unit Scenario.withSessions "dev1" "sess1"
              Scenario.session2) as [_ [A _]]; [vm_compute; reflexivity|].
  exact (f_equal (fun r => calls (trace r)) A).
Defined.

Lemma group_session_store_overwrites_witness :
  let s1 := Scenario.after (storeEndToEndInboundGroupSession "bob" "one" Scenario.groupSession2)
              Scenario.withGroupSessions in
  let s2 := Scenario.after
              (storeEndToEndInboundGroupSessionWithheld "bob" "one" (JObj [("code", JStr "m.blacklisted")]))
              s1 in
  calls (trace (doTxn (getEndToEndInboundGroupSession "bob" "one") s2))
  = [(Scenario.groupSession2, JObj [("code", JStr "m.blacklisted")])].
Proof.
  destruct (group_session_store_overwrites unit Scenario.unrelated "bob" "one"
              Scenario.groupSession1 Scenario.groupSession2
              (JObj [("code", JStr "m.blacklisted")])) as [_ A];
    [vm_compute; reflexivity | vm_compute; reflexivity |].
  eapply eq_trans; [|exact A]. vm_compute. reflexivity.
Defined.

Lemma singletons_round_trip_witness :
  calls (trace (doTxn getAccount
                  (Scenario.after (storeAccount (JStr "pickle")) Scenario.unrelated)))
  = [JStr "pickle"].
Proof.
  destruct (singletons_round_trip unit Scenario.unrelated (JStr "pickle")) as [[A _] _];
    [vm_compute; reflexivity | exact A].
Defined.

Lemma secret_store_round_trip_witness :
  calls (trace (doTxn (getSecretStorePrivateKey "m.megolm_backup.v1")
                  (Scenario.after
                     (storeSecretStorePrivateKey "m.megolm_backup.v1" (JStr "secret"))
                     Scenario.unrelated)))
  = [JStr "secret"].
Proof.
  destruct (secret_store_round_trip unit Scenario.unrelated "m.megolm_backup.v1"
              (JStr "secret")) as [A _];
    [vm_compute; reflexivity | exact A].
Defined.

Lemma migration_state_round_trip_witness :
  outcome (getMigrationState (C := unit) (JNum 0) Scenario.unrelated) = inr (JNum 0)
  /\ outcome (getMigrationState (C := unit) (JNum 0)
                (state (setMigrationState (C := unit) (JNum 3) Scenario.unrelated)))
     = inr (JNum 3).
Proof.
  destruct (migration_state_round_trip (JNum 0) unit Scenario.unrelated (JNum 3)) as [A B];
    [vm_compute; reflexivity|].
  split; [apply A; reflexivity | exact B].
Defined.

Lemma count_of_sessions_witness :
  calls (trace (doTxn countEndToEndSessions Scenario.withSessions)) = [3].
Proof.
  destruct (count_of_sessions unit Scenario.withSessions) as [A _]; [listed_once|].
  eapply eq_trans; [exact A | vm_compute; reflexivity].
Defined.

Lemma count_of_group_sessions_witness :
  outcome (countEndToEndInboundGroupSessions (C := unit) Scenario.withGroupSessions) = inr 2.
Proof.
  destruct (count_of_group_sessions unit Scenario.withGroupSessions) as [A _];
    [listed_once|].
  eapply eq_trans; [exact A | vm_compute; reflexivity].
Defined.

Lemma delete_sessions_batch_witness :
  let s' := state (deleteEndToEndSessionsBatch (C := unit)
                     [(Some "dev1", Some "sess1"); (Some "dev1", None)]
                     Scenario.withSessions) in
  calls (trace (doTxn (getEndToEndSession "dev1" "sess1") s')) = [JNull]
  /\ readsAlike (getEndToEndSession "dev1" "sess2") s' Scenario.withSessions.
Proof.
  destruct (delete_sessions_batch unit [(Some "dev1", Some "sess1"); (Some "dev1", None)]
              Scenario.withSessions) as [_ [A [_ B]]].
  split.
  - apply A. left. reflexivity.
  - apply B; try reflexivity.
    + intros d i [E|[E|[]]]; inversion E; subst; split; reflexivity.
    + intros [E|[E|[]]]; discriminate E.
Defined.

Lemma delete_group_sessions_batch_witness :
  let s' := state (deleteEndToEndInboundGroupSessionsBatch (C := unit) [("bob", "one")]
                     Scenario.withGroupSessions) in
  calls (trace (doTxn (getEndToEndInboundGroupSession "bob" "one") s')) = [(JNull, JNull)]
  /\ readsAlike (getEndToEndInboundGroupSession "bob" "two") s' Scenario.withGroupSessions.
Proof.
  destruct (delete_group_sessions_batch unit [("bob", "one")] Scenario.withGroupSessions)
    as [_ [A B]].
  split.
  - apply A; [left; reflexivity | vm_compute; reflexivity].
  - apply B; try reflexivity.
    + intros p [<-|[]]. split; reflexivity.
    + intros [E|[]]. discriminate E.
Defined.

Lemma rooms_round_trip_witness :
  exists rooms,
    calls (trace (doTxn getEndToEndRooms
                    (Scenario.after (storeEndToEndRoom "!room:example.org" Further.roomInfo)
                       Scenario.unrelated)))
    = [JObj rooms]
    /\ Own.get "!room:example.org" rooms = Some Further.roomInfo.
Proof.
  destruct (rooms_round_trip unit Scenario.unrelated) as [rooms [_ [_ A]]].
  - intros k Hk. vm_compute in Hk. destruct Hk.
  - destruct (A "!room:example.org" Further.roomInfo eq_refl) as [rooms' [R [G _]]];
      [vm_compute; reflexivity|].
    exists rooms'. split; [exact (f_equal (fun r => calls (trace r)) R) | exact G].
Defined.

Lemma sessions_of_device_witness :
  exists sessions,
    calls (trace (doTxn (getEndToEndSessions "dev1") Scenario.withSessions)) = [JObj sessions]
    /\ Own.get "sess2" sessions = Some Scenario.session2.
Proof.
  destruct (sessions_of_device Scenario.withSessions "dev1") as [sessions [R [A _]]].
  - intros k Hk. vm_compute in Hk. destruct Hk as [<-|[<-|[]]]; vm_compute; discriminate.
  - exists sessions. split; [exact (f_equal (fun r => calls (trace r)) R)|].
    eapply eq_trans;
      [apply (A "sess2" (JSONText.stringify Scenario.session2)); vm_compute; reflexivity|].
    vm_compute. reflexivity.
Defined.

Lemma mark_then_unmark_witness :
  let sessions := [mkISession "bob" "one" JNull; mkISession "bob" "two" JNull] in
  let marked := markSessionsNeedingBackup (C := unit) sessions Scenario.withGroupSessions in
  let unmarked := unmarkSessionsNeedingBackup (C := unit) sessions (state marked) in
  outcome (countSessionsNeedingBackup (C := unit) (state marked)) = inr 2
  /\ outcome (countSessionsNeedingBackup (C := unit) (state unmarked)) = inr 0.
Proof.
  destruct (mark_then_unmark unit Scenario.withGroupSessions
              [mkISession "bob" "one" JNull; mkISession "bob" "two" JNull] 0)
    as [_ [_ [A [_ [_ B]]]]].
  - vm_compute. reflexivity.
  - listed_once.
  - intros p [<-|[<-|[]]]; vm_compute; repeat split; discriminate.
  - vm_compute. reflexivity.
  - vm_compute. reflexivity.
  - split; [exact A | exact B].
Defined.

Lemma marks_are_a_set_witness :
  exists names,
    markedNames (state (markSessionsNeedingBackup (C := unit) [mkISession "bob" "two" JNull]
                          Scenario.withBackup)) = Some names
    /\ (In (backupName "bob" "two") names <->
        In (backupName "bob" "two")
           (Obj.keys (JObj [(backupName "bob" "gone", JBool true);
                            (backupName "bob" "one", JBool true)]))
        \/ In (backupName "bob" "two") (map sessionName [mkISession "bob" "two" JNull])).
Proof.
  destruct (marks_are_a_set unit Scenario.withBackup
              [(backupName "bob" "gone", JBool true); (backupName "bob" "one", JBool true)]
              [mkISession "bob" "two" JNull]) as [A _]; [vm_compute; reflexivity|].
  destruct A as [names [E Hn]]; [vm_compute; reflexivity|].
  exists names. split; [exact E | apply Hn].
Defined.

Lemma shared_history_accumulates_witness :
  outcome (getSharedHistoryInboundGroupSessions (C := unit) "!room"
             (state (addSharedHistoryInboundGroupSession (C := unit) "!room" "bob" "one"
                       Scenario.unrelated)))
  = inr (JArr [JArr [JStr "bob"; JStr "one"]]).
Proof.
  destruct (shared_history_accumulates unit Scenario.unrelated "!room" "bob" "one")
    as [_ [A _]].
  destruct (A []) as [_ [B _]]; [vm_compute; reflexivity | vm_compute; reflexivity |].
  exact B.
Defined.

Lemma parked_history_is_taken_once_witness :
  let added := addParkedSharedHistory (C := unit) "!room" (JStr "history")
                 Scenario.unrelated in
  let taken := takeParkedSharedHistory (C := unit) "!room" (state added) in
  outcome taken = inr (JArr [JStr "history"])
  /\ outcome (takeParkedSharedHistory (C := unit) "!room" (state taken)) = inr (JArr []).
Proof.
  destruct (parked_history_is_taken_once unit Scenario.unrelated "!room" (JStr "history") [])
    as [_ [A [_ [B _]]]]; [vm_compute; reflexivity | vm_compute; reflexivity |].
  split; [exact A | exact B].
Defined.

Lemma deleteAllData_empties_the_store_witness :
  let s' := state (deleteAllData (C := unit) Scenario.withSessions) in
  calls (trace (doTxn (getEndToEndSession "dev1" "sess1") s')) = [JNull]
  /\ calls (trace (doTxn countEndToEndSessions s')) = [0].
Proof.
  destruct (deleteAllData_empties_the_store (JNum 0) 50 unit Scenario.withSessions)
    as [_ [_ [_ [_ [A [_ [_ [B _]]]]]]]].
  split; [apply A | exact B].
Defined.

Lemma promise_pending_while_in_flight_witness :
  run newTransaction [Started; Started; Failed (Error "lost")]
  = inr (mkTransaction 1 (Some (Error "lost")) true true Pending)
  /\ (promise (mkTransaction 1 (Some (Error "lost")) true true Pending) = Pending <->
      [Started; Started; Failed (Error "lost")] = []
      \/ inFlight [Started; Started; Failed (Error "lost")] <> 0%Z).
Proof.
  split; [reflexivity|].
  apply (proj2 (promise_pending_while_in_flight
                  [Started; Started; Failed (Error "lost")]
                  (mkTransaction 1 (Some (Error "lost")) true true Pending)
                  eq_refl eq_refl)).
Defined.

Lemma unreadable_data_is_an_error_witness :
  doTxn (getEndToEndSession "dev1" "sess1") Further.withBrokenSession
  = mkResult Further.withBrokenSession [] (inr (RejectedWith SyntaxError)).
Proof.
  destruct (unreadable_data_is_an_error unit Further.withBrokenSession) as [A _].
  apply A. vm_compute. reflexivity.
Defined.

Lemma listing_stops_at_unreadable_key_witness :
  calls (trace (doTxn getAllEndToEndInboundGroupSessions Further.withBrokenKey))
  = [Some (mkISession "bob" "one" Scenario.groupSession1);
     Some (mkISession "bob" "two" Scenario.groupSession2)].
Proof.
  destruct (listing_stops_at_unreadable_key Further.withBrokenKey
              [keyEndToEndInboundGroupSession "bob" "one";
               keyEndToEndInboundGroupSession "bob" "two"]
              (INBOUND_SESSION_PREFIX ++ "%/x")%string []
              [mkISession "bob" "one" Scenario.groupSession1;
               mkISession "bob" "two" Scenario.groupSession2]) as [A _];
    [vm_compute; reflexivity | vm_compute; reflexivity | vm_compute; reflexivity | exact A].
Defined.

Lemma reading_does_not_write_witness :
  state (doTxn getAllEndToEndInboundGroupSessions Further.withBrokenKey)
  = Further.withBrokenKey.
Proof.
  destruct (reading_does_not_write (JNum 0) 50 unit Further.withBrokenKey)
    as [_ [_ [_ [_ [_ [_ [_ [_ [_ [A _]]]]]]]]]].
  exact A.
Defined.

Lemma getOrAdd_keeps_the_first_request_witness :
  let r := getOrAddOutgoingRoomKeyRequest (C := unit) "req1" "!room" "sess" Further.request
             Scenario.unrelated in
  outcome (getOrAddOutgoingRoomKeyRequest (C := unit) "req2" "!room" "sess"
             (JObj [("requestId", JStr "req2")]) (state r))
  = inr Further.request.
Proof.
  destruct (getOrAdd_keeps_the_first_request unit Scenario.unrelated "req1" "!room" "sess"
              Further.request) as [A _].
  - intros k Hk. vm_compute in Hk. destruct Hk.
  - reflexivity.
  - vm_compute. reflexivity.
  - destruct A as [_ [_ B]]; [intros k Hk; vm_compute in Hk; destruct Hk|].
    exact (f_equal outcome (B "req2" (JObj [("requestId", JStr "req2")]))).
Defined.

Lemma request_changes_need_the_expected_state_witness :
  outcome (deleteOutgoingRoomKeyRequest (C := unit) "req1" 1 Further.withRequest) = inr JNull
  /\ outcome (deleteOutgoingRoomKeyRequest (C := unit) "req1" 0 Further.withRequest)
     = inr Further.request.
Proof.
  destruct (request_changes_need_the_expected_state unit Further.withRequest "req1")
    as [_ [A B]].
  split.
  - destruct (A Further.request 1%Z []) as [_ D];
      [vm_compute; reflexivity | reflexivity | exact (f_equal outcome D)].
  - destruct (B Further.request 0%Z []) as [_ [D _]];
      [vm_compute; reflexivity | reflexivity | exact (f_equal outcome D)].
Defined.

Lemma request_by_state_witness :
  exists found,
    getOutgoingRoomKeyRequestByState (C := unit) [0%Z; 1%Z] Further.withRequest
    = mkResult Further.withRequest [] (inr found)
    /\ (found <> JNull -> stateAmong [0%Z; 1%Z] found = true).
Proof.
  destruct (request_by_state unit Further.withRequest [0%Z; 1%Z]) as [found [R [_ A]]].
  - intros k Hk. vm_compute in Hk. destruct Hk as [<-|[]]; split; vm_compute; discriminate.
  - exists found. split; [exact R|]. intro N. apply (A N).
Defined.

Lemma all_sessions_are_delivered_witness :
  calls (trace (doTxn getAllEndToEndSessions Scenario.withSessions))
  = [Scenario.session1; Scenario.session2; Scenario.session1].
Proof.
  destruct (all_sessions_are_delivered Scenario.withSessions
              [("dev1", "sess1", Scenario.session1); ("dev1", "sess2", Scenario.session2);
               ("dev2", "sess1", Scenario.session1)]) as [A _].
  - vm_compute. reflexivity.
  - repeat constructor; vm_compute; reflexivity.
  - exact A.
Defined.

Lemma sessions_batch_skips_what_is_missing_witness :
  let r := getEndToEndSessionsBatch (C := unit) 50 Further.withMissingSession in
  outcome r = inr (Some [Scenario.session1; Scenario.session2; Scenario.session1])
  /\ logged (trace r) = ["Could not find session crypto.sessions/dev3/sess9"].
Proof.
  destruct (sessions_batch_skips_what_is_missing 50 unit Further.withMissingSession
              [Scenario.session1; Scenario.session2; Scenario.session1; JNull])
    as [A [B _]]; [vm_compute; reflexivity | cbn; lia |].
  split; [exact A|]. eapply eq_trans; [exact B | vm_compute; reflexivity].
Defined.
